(** * converter_bot: rate cache, request parsing and conversion arithmetic

    A shallow embedding of [main.py]: the [decimal] arithmetic the handler
    relies on (default context: 28 significant digits, round-half-even,
    exponent range of the context, trapped InvalidOperation, DivisionByZero
    and Overflow), the string helpers, the cache with its staleness rule,
    [get_rates], [fmt], the two request grammars and [convert_handler].

    The Telegram transport, the HTTP session and logging are outside the
    model: a handler takes the message text, the clock and the answer of
    the rates endpoint, and gives the reply together with the new state
    of the cache.

    A message text is a string of ASCII characters: the character classes
    of the pattern, [str.strip], [str.upper] and the digits that
    [Decimal] reads are the ASCII ones.  Python's own classes are wider
    (any Unicode whitespace and decimal digit, and under [re.I] a few
    letters that fold to ASCII ones), so a message with a character
    outside ASCII is outside the model. *)

From Stdlib Require Import ZArith NArith Lia String Ascii List Bool Reals Lra.
From stdpp Require Import base option gmap strings list sorting.

Local Open Scope string_scope.
Local Open Scope Z_scope.

(** ** Exceptions and results *)

Inductive exn : Type :=
| InvalidOperation
| DivisionByZero
| Overflow
| KeyError (key : string)
| AttributeError.

Inductive result (A : Type) : Type :=
| Ok (a : A)
| Raise (e : exn).
Arguments Ok {A} a.
Arguments Raise {A} e.

#[global] Instance result_ret : MRet result := λ A a, Ok a.
#[global] Instance result_bind : MBind result := λ A B f m,
  match m with
  | Ok a => f a
  | Raise e => Raise e
  end.

(** ** String helpers ([str] methods on ASCII text)

    Text is a string of bytes; the helpers below act on the ASCII range,
    where bytes and code points coincide. *)

Module Str.

Definition code (a : ascii) : N := N_of_ascii a.

Definition is_digit (a : ascii) : bool :=
  ((48 <=? code a) && (code a <=? 57))%N.

Definition is_upper (a : ascii) : bool :=
  ((65 <=? code a) && (code a <=? 90))%N.

Definition is_lower (a : ascii) : bool :=
  ((97 <=? code a) && (code a <=? 122))%N.

Definition is_alpha (a : ascii) : bool := is_upper a || is_lower a.

(** [str.isspace] on ASCII: tab to carriage return, the four separators
    and the space. *)
Definition is_space (a : ascii) : bool :=
  ((9 <=? code a) && (code a <=? 13) || (28 <=? code a) && (code a <=? 32))%N.

Definition upper_char (a : ascii) : ascii :=
  if is_lower a then ascii_of_N (code a - 32) else a.

Definition lower_char (a : ascii) : ascii :=
  if is_upper a then ascii_of_N (code a + 32) else a.

Fixpoint map_chars (f : ascii -> ascii) (s : string) : string :=
  match s with
  | EmptyString => EmptyString
  | String a r => String (f a) (map_chars f r)
  end.

Definition upper : string -> string := map_chars upper_char.
Definition lower : string -> string := map_chars lower_char.

Fixpoint lstrip_by (p : ascii -> bool) (s : string) : string :=
  match s with
  | EmptyString => EmptyString
  | String a r => if p a then lstrip_by p r else s
  end.

Fixpoint rstrip_by (p : ascii -> bool) (s : string) : string :=
  match s with
  | EmptyString => EmptyString
  | String a r =>
      match rstrip_by p r with
      | EmptyString => if p a then EmptyString else String a EmptyString
      | r' => String a r'
      end
  end.

(** [s.strip()] *)
Definition strip (s : string) : string := rstrip_by is_space (lstrip_by is_space s).

(** [s.rstrip(c)] for a one-character argument *)
Definition rstrip (c : ascii) (s : string) : string :=
  rstrip_by (Ascii.eqb c) s.

(** [s.replace(old, new)] for a non-empty [old]: occurrences are found
    from the left and do not overlap; [skip] counts the characters of a
    matched occurrence still to be passed over. *)
Fixpoint replace_go (old new : string) (skip : nat) (s : string) : string :=
  match s with
  | EmptyString => EmptyString
  | String a r =>
      match skip with
      | S k => replace_go old new k r
      | O =>
          if String.prefix old s
          then new ++ replace_go old new (Nat.pred (String.length old)) r
          else String a (replace_go old new O r)
      end
  end.

Definition replace (old new s : string) : string := replace_go old new O s.

(** The longest prefix of characters satisfying [p], and the rest. *)
Fixpoint span (p : ascii -> bool) (s : string) : string * string :=
  match s with
  | EmptyString => (EmptyString, EmptyString)
  | String a r =>
      if p a then let '(x, y) := span p r in (String a x, y)
      else (EmptyString, s)
  end.

(** The rest of [s] after the prefix [p], when [s] starts with [p]. *)
Fixpoint drop_prefix (p s : string) : option string :=
  match p, s with
  | EmptyString, _ => Some s
  | String a p', String b s' => if Ascii.eqb a b then drop_prefix p' s' else None
  | String _ _, EmptyString => None
  end.

Definition len (s : string) : Z := Z.of_nat (String.length s).

(** [int(digits)] for a string of ASCII digits *)
Fixpoint digits_value (acc : N) (s : string) : N :=
  match s with
  | EmptyString => acc
  | String a r => digits_value (10 * acc + (code a - 48))%N r
  end.

Definition digit_char (n : N) : ascii := ascii_of_N (48 + n).

(** [str(n)] for a natural number *)
Fixpoint str_N_fuel (fuel : nat) (c : N) (acc : string) : string :=
  let acc' := String (digit_char (c mod 10)) acc in
  match fuel with
  | O => acc'
  | S f => if (c <? 10)%N then acc' else str_N_fuel f (c / 10)%N acc'
  end.

Definition str_N (c : N) : string := str_N_fuel (N.to_nat (N.size c)) c EmptyString.

(** ['0' * n] *)
Definition zeros (n : Z) : string :=
  String.concat "" (List.repeat "0" (Z.to_nat n)).

(** [s[:n]] and [s[n:]] for [0 <= n] *)
Definition take (n : Z) (s : string) : string := String.substring 0 (Z.to_nat n) s.
Definition drop (n : Z) (s : string) : string :=
  String.substring (Z.to_nat n) (String.length s - Z.to_nat n) s.

(** Some character of [s] satisfies [p]. *)
Fixpoint any (p : ascii -> bool) (s : string) : bool :=
  match s with
  | EmptyString => false
  | String a r => p a || any p r
  end.

Definition not_space (a : ascii) : bool := negb (is_space a).

(** A whitespace character with something other than whitespace after
    it. *)
Fixpoint inner_space (s : string) : bool :=
  match s with
  | EmptyString => false
  | String a r => is_space a && any not_space r || inner_space r
  end.

(** Replacing one character by another, character by character. *)
Definition subst_char (old new a : ascii) : ascii :=
  if Ascii.eqb old a then new else a.

End Str.

(** ** The decimal library, as far as [main.py] uses it *)

Module Dec.

(** A decimal is a sign, a coefficient and an exponent, or one of the
    special values.  [Fin s c e] stands for (-1)^s * c * 10^e. *)
Inductive Decimal : Type :=
| Fin (sign : bool) (coef : N) (exp : Z)
| Inf (sign : bool)
| NaN (sign : bool) (signaling : bool).

Inductive rounding : Type := ROUND_HALF_UP | ROUND_HALF_EVEN.

(** The default context. *)
Definition prec : Z := 28.
Definition Emax : Z := 999999.
Definition Emin : Z := -999999.
Definition Etiny : Z := Emin - prec + 1.
Definition Etop : Z := Emax - prec + 1.

(** [len(self._int)]: the number of decimal digits of the coefficient. *)
Fixpoint ndigits_fuel (fuel : nat) (c : N) : Z :=
  match fuel with
  | O => 1
  | S f => if (c <? 10)%N then 1 else 1 + ndigits_fuel f (c / 10)%N
  end.

Definition ndigits (c : N) : Z := ndigits_fuel (N.to_nat (N.size c)) c.

(** The rounding functions tell how the kept digits change when the last
    [j] digits of [c] are dropped: 1 round up, 0 exact, -1 round down. *)
Definition round_half_up (c : N) (j : N) : Z :=
  let rest := (c mod 10 ^ j)%N in
  if (5 <=? rest / 10 ^ (j - 1))%N then 1
  else if (rest =? 0)%N then 0 else -1.

Definition exact_half (c : N) (j : N) : bool :=
  (c mod 10 ^ j =? 5 * 10 ^ (j - 1))%N.

Definition round_half_even (c : N) (j : N) : Z :=
  if exact_half c j && N.even (c / 10 ^ j) then -1 else round_half_up c j.

Definition pick_rounding (r : rounding) : N -> N -> Z :=
  match r with
  | ROUND_HALF_UP => round_half_up
  | ROUND_HALF_EVEN => round_half_even
  end.

(** [_fix]: round to the context's precision and exponent range.  Signals
    that the default context does not trap (Rounded, Inexact, Subnormal,
    Underflow, Clamped) leave no trace; Overflow is raised. *)
Definition fix_ (d : Decimal) : result Decimal :=
  match d with
  | Fin s c e =>
      if (c =? 0)%N then Ok (Fin s 0 (Z.min (Z.max e Etiny) Emax))
      else
        let exp_min := ndigits c + e - prec in
        if Etop <? exp_min then Raise Overflow
        else
          let exp_min := Z.max exp_min Etiny in
          if e <? exp_min then
            let digits := ndigits c + e - exp_min in
            let '(c1, e1) := if digits <? 0 then (1%N, exp_min - 1) else (c, e) in
            let j := Z.to_N (exp_min - e1) in
            let changed := round_half_even c1 j in
            let coeff := (c1 / 10 ^ j)%N in
            let '(coeff, exp_min) :=
              if 0 <? changed then
                let coeff := (coeff + 1)%N in
                if prec <? ndigits coeff then ((coeff / 10)%N, exp_min + 1)
                else (coeff, exp_min)
              else (coeff, exp_min) in
            if Etop <? exp_min then Raise Overflow
            else Ok (Fin s coeff exp_min)
          else Ok d
  | _ => Ok d
  end.

(** [_check_nans] for a binary operation: a signaling NaN raises, a quiet
    one is the result. *)
Definition check_nans (a b : Decimal) : option (result Decimal) :=
  match a, b with
  | NaN _ true, _ => Some (Raise InvalidOperation)
  | _, NaN _ true => Some (Raise InvalidOperation)
  | NaN s false, _ => Some (Ok (NaN s false))
  | _, NaN s false => Some (Ok (NaN s false))
  | _, _ => None
  end.

(** [__mul__] *)
Definition mul (a b : Decimal) : result Decimal :=
  match check_nans a b with
  | Some r => r
  | None =>
      match a, b with
      | Fin s1 c1 e1, Fin s2 c2 e2 =>
          fix_ (Fin (xorb s1 s2) (c1 * c2) (e1 + e2))
      | Inf s1, Fin s2 c2 _ =>
          if (c2 =? 0)%N then Raise InvalidOperation else Ok (Inf (xorb s1 s2))
      | Fin s1 c1 _, Inf s2 =>
          if (c1 =? 0)%N then Raise InvalidOperation else Ok (Inf (xorb s1 s2))
      | Inf s1, Inf s2 => Ok (Inf (xorb s1 s2))
      | _, _ => Raise InvalidOperation
      end
  end.

(** The loop of [__truediv__] that brings an exact quotient as close to
    the ideal exponent as its trailing zeros allow. *)
Fixpoint strip_to_ideal (fuel : nat) (coeff : N) (exp ideal : Z) : N * Z :=
  match fuel with
  | O => (coeff, exp)
  | S f =>
      if (exp <? ideal) && (coeff mod 10 =? 0)%N
      then strip_to_ideal f (coeff / 10)%N (exp + 1) ideal
      else (coeff, exp)
  end.

(** [__truediv__] *)
Definition div (a b : Decimal) : result Decimal :=
  match check_nans a b with
  | Some r => r
  | None =>
      match a, b with
      | Inf _, Inf _ => Raise InvalidOperation
      | Inf s1, Fin s2 _ _ => Ok (Inf (xorb s1 s2))
      | Fin s1 _ _, Inf s2 => Ok (Fin (xorb s1 s2) 0 Etiny)
      | Fin s1 c1 e1, Fin s2 c2 e2 =>
          let sign := xorb s1 s2 in
          if (c2 =? 0)%N then
            if (c1 =? 0)%N then Raise InvalidOperation else Raise DivisionByZero
          else if (c1 =? 0)%N then fix_ (Fin sign 0 (e1 - e2))
          else
            let shift := ndigits c2 - ndigits c1 + prec + 1 in
            let exp := e1 - e2 - shift in
            let '(coeff, remainder) :=
              if 0 <=? shift
              then N.div_eucl (c1 * 10 ^ Z.to_N shift) c2
              else N.div_eucl c1 (c2 * 10 ^ Z.to_N (- shift)) in
            let '(coeff, exp) :=
              if (remainder =? 0)%N
              then strip_to_ideal (N.to_nat (N.size coeff)) coeff exp (e1 - e2)
              else ((if (coeff mod 5 =? 0)%N then coeff + 1 else coeff)%N, exp) in
            fix_ (Fin sign coeff exp)
      | _, _ => Raise InvalidOperation
      end
  end.

(** [__abs__]: with the default rounding this is [_fix] of the magnitude. *)
Definition abs (d : Decimal) : result Decimal :=
  match d with
  | NaN _ true => Raise InvalidOperation
  | NaN s false => Ok (NaN s false)
  | Inf _ => Ok (Inf false)
  | Fin _ c e => fix_ (Fin false c e)
  end.

(** [adjusted()]: the exponent of the most significant digit. *)
Definition adjusted (c : N) (e : Z) : Z := e + ndigits c - 1.

(** The outcome of a comparison of magnitudes, for a value of sign [s]. *)
Definition by_sign (s : bool) (c : comparison) : comparison :=
  if s then CompOpp c else c.

(** [_cmp] on two values that are not NaN: zeros are equal whatever their
    sign and exponent, then the signs decide, then the adjusted exponents,
    then the coefficients padded to a common exponent. *)
Definition cmp (a b : Decimal) : comparison :=
  match a, b with
  | Fin s1 c1 e1, Fin s2 c2 e2 =>
      if (c1 =? 0)%N then
        if (c2 =? 0)%N then Eq else by_sign s2 Lt
      else if (c2 =? 0)%N then by_sign s1 Gt
      else if negb s1 && s2 then Gt
      else if s1 && negb s2 then Lt
      else
        match adjusted c1 e1 ?= adjusted c2 e2 with
        | Eq =>
            by_sign s1 (N.compare (c1 * 10 ^ Z.to_N (e1 - e2))
                                  (c2 * 10 ^ Z.to_N (e2 - e1)))
        | c => by_sign s1 c
        end
  | Inf s1, Inf s2 =>
      if eqb s1 s2 then Eq else if s1 then Lt else Gt
  | Inf s1, _ => if s1 then Lt else Gt
  | _, Inf s2 => if s2 then Gt else Lt
  | _, _ => Eq
  end.

Definition is_nan (d : Decimal) : bool :=
  match d with
  | NaN _ _ => true
  | _ => false
  end.

(** [__eq__]: a signaling NaN raises, a quiet NaN is unequal to anything. *)
Definition eq (a b : Decimal) : result bool :=
  match check_nans a b with
  | Some (Raise e) => Raise e
  | Some (Ok _) => Ok false
  | None => Ok (match cmp a b with Eq => true | _ => false end)
  end.

(** [__gt__] and [__ge__]: any NaN raises InvalidOperation. *)
Definition gt (a b : Decimal) : result bool :=
  if is_nan a || is_nan b then Raise InvalidOperation
  else Ok (match cmp a b with Gt => true | _ => false end).

Definition ge (a b : Decimal) : result bool :=
  if is_nan a || is_nan b then Raise InvalidOperation
  else Ok (match cmp a b with Lt => false | _ => true end).

(** [_rescale] *)
Definition rescale (s : bool) (c : N) (e : Z) (exp : Z) (r : rounding) : Decimal :=
  if (c =? 0)%N then Fin s 0 exp
  else if exp <=? e then Fin s (c * 10 ^ Z.to_N (e - exp)) exp
  else
    let digits := ndigits c + e - exp in
    let '(c1, e1) := if digits <? 0 then (1%N, exp - 1) else (c, e) in
    let j := Z.to_N (exp - e1) in
    let changed := pick_rounding r c1 j in
    let coeff := (c1 / 10 ^ j)%N in
    Fin s (if changed =? 1 then (coeff + 1)%N else coeff) exp.

(** [quantize(exp, rounding)] *)
Definition quantize (d q : Decimal) (r : rounding) : result Decimal :=
  match check_nans d q with
  | Some res => res
  | None =>
      match d, q with
      | Inf _, Inf _ => Ok d
      | Fin s c e, Fin _ _ qe =>
          if negb ((Etiny <=? qe) && (qe <=? Emax)) then Raise InvalidOperation
          else if (c =? 0)%N then fix_ (Fin s 0 qe)
          else if Emax <? adjusted c e then Raise InvalidOperation
          else if prec <? adjusted c e - qe + 1 then Raise InvalidOperation
          else
            match rescale s c e qe r with
            | Fin s' c' e' =>
                if Emax <? adjusted c' e' then Raise InvalidOperation
                else if prec <? ndigits c' then Raise InvalidOperation
                else fix_ (Fin s' c' e')
            | other => Ok other
            end
      | _, _ => Raise InvalidOperation
      end
  end.

Definition of_Z (z : Z) : Decimal := Fin (z <? 0) (Z.abs_N z) 0.

(** [Decimal.__str__] (scientific notation where the library uses it) *)
Definition str (d : Decimal) : string :=
  match d with
  | Inf s => (if s then "-" else "") ++ "Infinity"
  | NaN s sig => (if s then "-" else "") ++ (if sig then "sNaN" else "NaN")
  | Fin s c e =>
      let int_ := Str.str_N c in
      let leftdigits := e + ndigits c in
      let dotplace := if (e <=? 0) && (-6 <? leftdigits) then leftdigits else 1 in
      let '(intpart, fracpart) :=
        if dotplace <=? 0 then ("0", "." ++ Str.zeros (- dotplace) ++ int_)
        else if ndigits c <=? dotplace
             then (int_ ++ Str.zeros (dotplace - ndigits c), "")
             else (Str.take dotplace int_, "." ++ Str.drop dotplace int_) in
      let exp :=
        if leftdigits =? dotplace then ""
        else "E" ++ (if leftdigits - dotplace <? 0 then "-" else "+")
                 ++ Str.str_N (Z.abs_N (leftdigits - dotplace)) in
      (if s then "-" else "") ++ intpart ++ fracpart ++ exp
  end.

(** Limits of the exact constructor. *)
Definition MAX_EMAX : Z := 999999999999999999.
Definition MIN_ETINY : Z := -1999999999999999997.

Definition read_sign (s : string) : bool * string :=
  match s with
  | String a r =>
      if Ascii.eqb a "-" then (true, r)
      else if Ascii.eqb a "+" then (false, r)
      else (false, s)
  | EmptyString => (false, s)
  end.

(** ["Inf"], ["Infinity"], ["NaN"] or ["sNaN"] with diagnostic digits, in
    any case of the letters. *)
Definition of_special (sign : bool) (s : string) : result Decimal :=
  let t := Str.lower s in
  if (t =? "inf")%string || (t =? "infinity")%string then Ok (Inf sign)
  else
    let '(signaling, t) :=
      match Str.drop_prefix "s" t with
      | Some r => (true, r)
      | None => (false, t)
      end in
    match Str.drop_prefix "nan" t with
    | Some diag =>
        match Str.span Str.is_digit diag with
        | (_, EmptyString) => Ok (NaN sign signaling)
        | _ => Raise InvalidOperation
        end
    | None => Raise InvalidOperation
    end.

Definition finite_exact (sign : bool) (c : N) (e : Z) : result Decimal :=
  if (MIN_ETINY <=? e) && (adjusted c e <=? MAX_EMAX) then Ok (Fin sign c e)
  else Raise InvalidOperation.

(** [Decimal(value)] for a string of ASCII characters: surrounding
    whitespace and all underscores are dropped; a malformed string raises
    InvalidOperation.  The diagnostic digits of a NaN are not kept. *)
Definition of_string (value : string) : result Decimal :=
  let s := Str.replace "_" "" (Str.strip value) in
  let '(sign, s) := read_sign s in
  let '(intpart, s1) := Str.span Str.is_digit s in
  let '(fracpart, s2) :=
    match s1 with
    | String a r => if Ascii.eqb a "." then Str.span Str.is_digit r else ("", s1)
    | EmptyString => ("", s1)
    end in
  if (intpart ++ fracpart =? "")%string then of_special sign s
  else
    let c := Str.digits_value 0 (intpart ++ fracpart) in
    match s2 with
    | EmptyString => finite_exact sign c (- Str.len fracpart)
    | String a r =>
        if (Ascii.eqb a "e" || Ascii.eqb a "E")%char then
          let '(esign, r) := read_sign r in
          let '(edigits, rest) := Str.span Str.is_digit r in
          if (edigits =? "")%string || negb (rest =? "")%string
          then Raise InvalidOperation
          else
            let ev := Z.of_N (Str.digits_value 0 edigits) in
            finite_exact sign c ((if esign then - ev else ev) - Str.len fracpart)
        else Raise InvalidOperation
    end.

End Dec.


(** ** Dates and times ([datetime]) *)

Module Clock.

Record date : Type := Date { year : Z; month : Z; day : Z }.
Record time : Type := Time { hour : Z; minute : Z; second : Z; microsecond : Z }.
Record datetime : Type := Datetime { dt_date : date; dt_time : time }.

(** Comparison of naive dates and times is the comparison of their fields
    in order. *)
Definition date_compare (a b : date) : comparison :=
  match year a ?= year b with
  | Eq => match month a ?= month b with
          | Eq => day a ?= day b
          | c => c
          end
  | c => c
  end.

Definition time_compare (a b : time) : comparison :=
  match hour a ?= hour b with
  | Eq => match minute a ?= minute b with
          | Eq => match second a ?= second b with
                  | Eq => microsecond a ?= microsecond b
                  | c => c
                  end
          | c => c
          end
  | c => c
  end.

Definition date_gt (a b : date) : bool :=
  match date_compare a b with Gt => true | _ => false end.
Definition time_gt (a b : time) : bool :=
  match time_compare a b with Gt => true | _ => false end.
Definition time_lt (a b : time) : bool :=
  match time_compare a b with Lt => true | _ => false end.

(** [time(11, 5)] *)
Definition cutoff : time := Time 11 5 0 0.

(** Microseconds since midnight, for times whose fields are in range. *)
Definition us_of_day (t : time) : Z :=
  ((hour t * 60 + minute t) * 60 + second t) * 1000000 + microsecond t.

Definition valid_time (t : time) : Prop :=
  0 <= hour t < 24 /\ 0 <= minute t < 60 /\ 0 <= second t < 60
  /\ 0 <= microsecond t < 1000000.

(** [a] is a later calendar day than [b]. *)
Definition later_day (a b : date) : Prop :=
  year b < year a
  \/ (year a = year b /\ month b < month a)
  \/ (year a = year b /\ month a = month b /\ day b < day a).

End Clock.

(** ** The cache and [get_rates] *)

Module Cache.
Import Clock.

(** One object of the JSON array the rates endpoint returns, or the record
    the handler builds for the base currency.  A field is [None] when the
    object has no such key.  A numeric field holds the decimal that
    [Decimal(str(v))] reads back from the JSON number [v]. *)
Record rate_record : Type := RateRecord {
  Cur_Abbreviation : option string;
  Cur_Name : option string;
  Cur_OfficialRate : option Dec.Decimal;
  Cur_Scale : option Dec.Decimal
}.

(** A rate table is a [dict] from code to record.  Dicts are objects: the
    heap holds them and a reference is an index into it, so that two names
    for one dict see each other's updates. *)
Abbreviation table := (gmap string rate_record).
Abbreviation ref := nat.

(** The module-level [cache] dict with its two entries, the dict objects
    allocated so far, and the number of [session.get] calls made. *)
Record state : Type := State {
  heap : list table;
  cache_data : option ref;
  cache_last_date : option datetime;
  fetches : nat
}.

(** [cache = {"data": None, "last_date": None}] *)
Definition initial : state := State [] None None 0.

(** What [session.get] and [resp.json()] produce: the request fails, or a
    response arrives with a status and a body that parses to a list of
    objects or does not. *)
Inductive response : Type :=
| NetworkError
| Response (status : Z) (body : option (list rate_record)).

(** What one call of [get_rates] meets: the clock when staleness is
    checked, the outcome of the request, the clock when the table is
    stored. *)
Record world : Type := World {
  now_check : datetime;
  resp : response;
  now_store : datetime
}.

(** Truth value of [cache["data"]] or of [rates]: [None] and the empty
    dict are false. *)
Definition truthy (h : list table) (data : option ref) : bool :=
  match data with
  | None => false
  | Some l =>
      match h !! l with
      | Some t => negb (bool_decide (t = ∅))
      | None => false
      end
  end.

(** [is_cache_expired] *)
Definition is_cache_expired (now : datetime) (s : state) : result bool :=
  if negb (truthy (heap s) (cache_data s)) then Ok true
  else
    match cache_last_date s with
    | None => Raise AttributeError
    | Some last =>
        if date_gt (dt_date now) (dt_date last) then Ok true
        else if time_gt (dt_time now) cutoff && time_lt (dt_time last) cutoff
             then Ok true
             else Ok false
    end.

(** [{i["Cur_Abbreviation"]: i for i in data}]: a later object replaces an
    earlier one with the same code; an object without the key raises
    KeyError. *)
Fixpoint build_table (data : list rate_record) (acc : table) : result table :=
  match data with
  | [] => Ok acc
  | i :: rest =>
      match Cur_Abbreviation i with
      | Some code => build_table rest (<[code := i]> acc)
      | None => Raise (KeyError "Cur_Abbreviation")
      end
  end.

Definition count_fetch (s : state) : state :=
  State (heap s) (cache_data s) (cache_last_date s) (S (fetches s)).

(** The two stores of a successful refresh: a new dict object becomes
    [cache["data"]] and [cache["last_date"]] is set. *)
Definition store (t : table) (now : datetime) (s : state) : state :=
  State (heap s ++ [t]) (Some (length (heap s))) (Some now) (fetches s).

(** The body of the [try]: whatever is raised there is caught and logged,
    and leaves the cache as it was. *)
Definition refresh (w : world) (s : state) : state :=
  match resp w with
  | NetworkError => s
  | Response status body =>
      if status =? 200 then
        match body with
        | Some data =>
            match build_table data ∅ with
            | Ok t => store t (now_store w) s
            | Raise _ => s
            end
        | None => s
        end
      else s
  end.

(** [get_rates] *)
Definition get_rates (w : world) (s : state) : result (option ref) * state :=
  match is_cache_expired (now_check w) s with
  | Raise e => (Raise e, s)
  | Ok false => (Ok (cache_data s), s)
  | Ok true =>
      let s' := refresh w (count_fetch s) in
      (Ok (cache_data s'), s')
  end.

(** A fetch fails when the request fails, the status is not 200, or the
    body does not yield a table. *)
Definition fetch_fails (r : response) : Prop :=
  match r with
  | NetworkError => True
  | Response status body =>
      status <> 200
      \/ match body with
         | Some data => exists e, build_table data ∅ = Raise e
         | None => True
         end
  end.

(** In every state the program reaches, a cached table comes with its
    fetch time and is an object of the heap. *)
Definition cache_wf (s : state) : Prop :=
  match cache_data s with
  | None => True
  | Some l => l < length (heap s) ∧ is_Some (cache_last_date s)
  end%nat.

End Cache.

(** ** [fmt], the request grammars and the handlers *)

Module Handler.
Import Dec Cache.

(** [fmt]: [Decimal("0.01") if d >= 1 else Decimal("0.000001")], then
    [quantize] with ROUND_HALF_UP, [str], and the two [rstrip]s. *)
Definition fmt (d : Decimal) : result string :=
  b ← Dec.ge d (of_Z 1);
  let q := if (b : bool) then Fin false 1 (-2) else Fin false 1 (-6) in
  r ← quantize d q ROUND_HALF_UP;
  Ok (Str.rstrip "." (Str.rstrip "0" (Dec.str r))).

(** Three characters of the class [[A-Z]] under [re.I]. *)
Definition three_letters (s : string) : option (string * string) :=
  match s with
  | String a (String b (String c r)) =>
      if Str.is_alpha a && Str.is_alpha b && Str.is_alpha c
      then Some (String a (String b (String c EmptyString)), r)
      else None
  | _ => None
  end.

(** At least one whitespace character ([\s+]). *)
Definition spaces1 (s : string) : option string :=
  match Str.span Str.is_space s with
  | (EmptyString, _) => None
  | (_, r) => Some r
  end.

(** [REQ_RE.match(text)] for a text of ASCII characters: the groups
    [amount], [from] and [to] on a match.  The character classes that
    follow one another in the pattern are disjoint, so reading each part
    greedily decides the match. *)
Definition REQ_RE_match (text : string) : option (string * string * string) :=
  let s := Str.lstrip_by Str.is_space text in
  let '(sign, s) :=
    match s with
    | String a r =>
        if (Ascii.eqb a "-" || Ascii.eqb a "+")%char
        then (String a EmptyString, r)
        else ("", s)
    | EmptyString => ("", s)
    end in
  let '(intpart, s) := Str.span Str.is_digit s in
  if (intpart =? "")%string then None
  else
    let '(frac, s) :=
      match s with
      | String sep r =>
          if (Ascii.eqb sep "." || Ascii.eqb sep ",")%char then
            match Str.span Str.is_digit r with
            | (EmptyString, _) => ("", s)
            | (digits, r') => (String sep digits, r')
            end
          else ("", s)
      | EmptyString => ("", s)
      end in
    s ← spaces1 s;
    '(cur_from, s) ← three_letters s;
    s ← spaces1 s;
    match s with
    | String t (String o s) =>
        if (Ascii.eqb (Str.lower_char t) "t" && Ascii.eqb (Str.lower_char o) "o")%char
        then
          s ← spaces1 s;
          '(cur_to, s) ← three_letters s;
          if (Str.lstrip_by Str.is_space s =? "")%string
          then Some (sign ++ intpart ++ frac, cur_from, cur_to)
          else None
        else None
    | _ => None
    end.

(** What the parsing part of [convert_handler] arrives at. *)
Inductive parsed : Type :=
| ZeroAmount
| Usage
| Request (cur_from cur_to : string) (amount : Decimal).

(** The [try] block: the whole text as one number. *)
Definition quick (text : string) : result parsed :=
  quick_amount ← of_string (Str.replace "," "." text);
  z ← Dec.eq quick_amount (of_Z 0);
  if (z : bool) then Ok ZeroAmount
  else
    p ← Dec.gt quick_amount (of_Z 0);
    if (p : bool) then Ok (Request "BYN" "RUB" quick_amount)
    else
      a ← Dec.abs quick_amount;
      Ok (Request "RUB" "BYN" a).

(** The [except] block: the explicit grammar. *)
Definition explicit (text : string) : result parsed :=
  match REQ_RE_match text with
  | None => Ok Usage
  | Some (amount, cur_from, cur_to) =>
      a ← of_string (Str.replace "," "." amount);
      Ok (Request (Str.upper cur_from) (Str.upper cur_to) a)
  end.

(** [except Exception] catches whatever the [try] block raises. *)
Definition parse (text : string) : result parsed :=
  match quick text with
  | Ok p => Ok p
  | Raise _ => explicit text
  end.

(** The messages the handlers answer with, by their variable parts. *)
Inductive reply : Type :=
| ReplyFormat
| ReplyZero
| ReplyUsage
| ReplySame (amount cur_to : string)
| ReplyNoRates
| ReplyNotFound
| ReplyConverted (amount cur_from res cur_to rate : string)
| ReplyApiError
| ReplyListing (lines : list (string * string)).

(** [{"Cur_OfficialRate": 1, "Cur_Scale": 1}] *)
Definition base_record : rate_record :=
  RateRecord None None (Some (of_Z 1)) (Some (of_Z 1)).

Definition item (key : string) (v : option Decimal) : result Decimal :=
  match v with
  | Some d => Ok d
  | None => Raise (KeyError key)
  end.

(** The value of one unit of a currency in BYN. *)
Definition unit_value (r : rate_record) : result Decimal :=
  rate ← item "Cur_OfficialRate" (Cur_OfficialRate r);
  scale ← item "Cur_Scale" (Cur_Scale r);
  Dec.div rate scale.

(** [res = (amount * val_from) / val_to] *)
Definition convert (val_from val_to amount : Decimal) : result Decimal :=
  t ← Dec.mul amount val_from;
  Dec.div t val_to.

(** The handler from the membership test on: lookups, arithmetic and the
    answer. *)
Definition conversion (rates : table) (cur_from cur_to : string)
    (amount : Decimal) : result reply :=
  match rates !! cur_from, rates !! cur_to with
  | Some rec_from, Some rec_to =>
      val_from ← unit_value rec_from;
      val_to ← unit_value rec_to;
      res ← convert val_from val_to amount;
      a ← fmt amount;
      b ← fmt res;
      rate ← Dec.div val_from val_to;
      c ← fmt rate;
      Ok (ReplyConverted a cur_from b cur_to c)
  | _, _ => Ok ReplyNotFound
  end.

(** [rates[key] = v] on the dict object that [l] refers to. *)
Definition set_item (l : ref) (key : string) (v : rate_record) (s : state) : state :=
  State (alter (λ t : table, <[key := v]> t) l (heap s))
        (cache_data s) (cache_last_date s) (fetches s).

Definition deref (s : state) (rates : option ref) : option table :=
  l ← rates; heap s !! l.

(** [convert_handler] *)
Definition convert_handler (message_text : string) (w : world) (s : state)
    : result reply * state :=
  let text := Str.strip (Str.replace "/convert" "" message_text) in
  if (text =? "")%string then (Ok ReplyFormat, s)
  else
    match parse text with
    | Raise e => (Raise e, s)
    | Ok ZeroAmount => (Ok ReplyZero, s)
    | Ok Usage => (Ok ReplyUsage, s)
    | Ok (Request cur_from cur_to amount) =>
        if (cur_from =? cur_to)%string
        then (a ← fmt amount; Ok (ReplySame a cur_to), s)
        else
          match get_rates w s with
          | (Raise e, s1) => (Raise e, s1)
          | (Ok rates, s1) =>
              match rates with
              | Some l =>
                  if truthy (heap s1) rates then
                    let s2 := set_item l "BYN" base_record s1 in
                    match heap s2 !! l with
                    | Some t => (conversion t cur_from cur_to amount, s2)
                    | None => (Ok ReplyNoRates, s2)
                    end
                  else (Ok ReplyNoRates, s1)
              | None => (Ok ReplyNoRates, s1)
              end
          end
    end.

#[global] Instance string_le_dec (a b : string) : Decision (String.leb a b = true).
Proof. destruct (String.leb a b); [left | right]; congruence. Defined.

(** [sorted(rates.keys())] *)
Definition sorted_keys (t : table) : list string :=
  merge_sort (λ a b, String.leb a b = true) (map fst (map_to_list t)).

Fixpoint listing (t : table) (codes : list string) : result (list (string * string)) :=
  match codes with
  | [] => Ok []
  | code :: rest =>
      match t !! code with
      | None => Raise (KeyError code)
      | Some r =>
          match Cur_Name r with
          | None => Raise (KeyError "Cur_Name")
          | Some name => lines ← listing t rest; Ok ((code, name) :: lines)
          end
      end
  end.

(** [cmd_currencies]: the line for BYN is fixed text, the others come from
    the table in the order of their codes.  The answer is kept as the
    lines; cutting the text into messages is left out. *)
Definition cmd_currencies (w : world) (s : state) : result reply * state :=
  match get_rates w s with
  | (Raise e, s1) => (Raise e, s1)
  | (Ok rates, s1) =>
      if truthy (heap s1) rates then
        match deref s1 rates with
        | Some t => (lines ← listing t (sorted_keys t); Ok (ReplyListing lines), s1)
        | None => (Ok ReplyApiError, s1)
        end
      else (Ok ReplyApiError, s1)
  end.

End Handler.

(** ** Overlapping calls of [get_rates]

    [get_rates] is a coroutine.  Between two [await]s it runs without
    interruption; while it waits for the request, other calls run.  A call
    is cut at that point: the part up to [session.get], and the part from
    the arrival of the response on (reading the body does not touch the
    cache, so it is kept with the store). *)

Module Tasks.
Import Clock Cache.

Inductive task : Type :=
| Start
| Requested
| Finished (r : result (option ref)).

Inductive event : Type :=
| Run (now : datetime)
| Resume (r : response) (now : datetime).

Definition step (ev : event) (t : task) (s : state) : task * state :=
  match t, ev with
  | Start, Run now =>
      match is_cache_expired now s with
      | Raise e => (Finished (Raise e), s)
      | Ok false => (Finished (Ok (cache_data s)), s)
      | Ok true => (Requested, count_fetch s)
      end
  | Requested, Resume r now =>
      let s' := refresh (World now r now) s in
      (Finished (Ok (cache_data s')), s')
  | _, _ => (t, s)
  end.

(** The event loop runs the task at index [i] of the pool for one part. *)
Definition step_pool (ps : list task * state) (sched : nat * event)
    : list task * state :=
  match fst ps !! fst sched with
  | Some t =>
      let '(t', s') := step (snd sched) t (snd ps) in
      (<[fst sched := t']> (fst ps), s')
  | None => ps
  end.

Definition run (schedule : list (nat * event)) (ps : list task * state)
    : list task * state :=
  foldl step_pool ps schedule.

(** [n] calls that are all started before any of them is resumed, then
    resumed in turn. *)
Definition all_start (now : datetime) (n : nat) : list (nat * event) :=
  map (λ i, (i, Run now)) (seq 0 n).

Definition all_resume (r : response) (now : datetime) (n : nat) : list (nat * event) :=
  map (λ i, (i, Resume r now)) (seq 0 n).

(** [now] is in the staleness window that a fetch at [last] opened: not a
    later day, and not across the 11:05 cutoff. *)
Definition same_window (last now : datetime) : Prop :=
  date_gt (dt_date now) (dt_date last) = false
  /\ time_gt (dt_time now) cutoff && time_lt (dt_time last) cutoff = false.

(** A reply that makes the refresh store a non-empty table. *)
Definition fetch_succeeds (r : response) : Prop :=
  exists data t, r = Response 200 (Some data)
    /\ build_table data ∅ = Ok t /\ t <> ∅.

(** Calls made one after another, each finished before the next starts. *)
Definition run_calls (ws : list world) (s : state) : state :=
  foldl (λ s w, snd (get_rates w s)) s ws.

End Tasks.

(** ** The specification's wording, for comparison with the code *)

Module Spec.
Import Clock Cache Dec Handler.

(** "no table has ever been fetched, or the current date is later than the
    date of the last successful fetch, or the current time-of-day is at or
    past 11:05 while the last fetch's time-of-day was strictly before" *)
Definition stale (now : datetime) (s : state) : bool :=
  match cache_data s, cache_last_date s with
  | Some _, Some last =>
      date_gt (dt_date now) (dt_date last)
      || negb (time_lt (dt_time now) cutoff) && time_lt (dt_time last) cutoff
  | _, _ => true
  end.

Definition copy_abs (d : Decimal) : Decimal :=
  match d with
  | Fin _ c e => Fin false c e
  | Inf _ => Inf false
  | NaN _ g => NaN false g
  end.

(** "round to 2 fractional digits if the absolute value is >= 1, else
    round to 6 fractional digits; rounding mode is round-half-up", then
    the stripping of trailing zeros and of a bare point. *)
Definition fmt_by_absolute_value (d : Decimal) : result string :=
  b ← Dec.ge (copy_abs d) (of_Z 1);
  let q := if (b : bool) then Fin false 1 (-2) else Fin false 1 (-6) in
  r ← quantize d q ROUND_HALF_UP;
  Ok (Str.rstrip "." (Str.rstrip "0" (Dec.str r))).

(** "unitValue(code) = officialRate(code) / scale(code)" *)
Definition unitValue (rates : table) (code : string) : result Decimal :=
  match rates !! code with
  | Some r =>
      officialRate ← item "Cur_OfficialRate" (Cur_OfficialRate r);
      scale ← item "Cur_Scale" (Cur_Scale r);
      Dec.div officialRate scale
  | None => Raise (KeyError code)
  end.

(** "convertedAmount = amount * unitValue(fromCode) / unitValue(toCode)" *)
Definition convertedAmount (rates : table) (amount : Decimal)
    (fromCode toCode : string) : result Decimal :=
  u_from ← unitValue rates fromCode;
  u_to ← unitValue rates toCode;
  p ← Dec.mul amount u_from;
  Dec.div p u_to.

(** "crossRate = unitValue(fromCode) / unitValue(toCode)" *)
Definition crossRate (rates : table) (fromCode toCode : string) : result Decimal :=
  u_from ← unitValue rates fromCode;
  u_to ← unitValue rates toCode;
  Dec.div u_from u_to.

(** The bare-number grammar: zero is an error, a positive amount goes from
    BYN to RUB, a negative one from RUB to BYN with its absolute value. *)
Definition bare_number (amount : Decimal) : parsed :=
  match amount with
  | Fin s c e =>
      if (c =? 0)%N then ZeroAmount
      else if s then Request "RUB" "BYN" (Fin false c e)
      else Request "BYN" "RUB" amount
  | _ => Usage
  end.

(** The integer nearest to c * 10^k, halves going up. *)
Definition half_up (c : N) (k : Z) : N :=
  if 0 <=? k then (c * 10 ^ Z.to_N k)%N
  else ((2 * c + 10 ^ Z.to_N (- k)) / (2 * 10 ^ Z.to_N (- k)))%N.

(** The number of fractional digits [fmt] rounds to: 2 for the values
    with c * 10^e >= 1, signed, and 6 for all others. *)
Definition fmt_digits (s : bool) (c : N) (e : Z) : Z :=
  if negb s && (10 ^ Z.to_N (- e) <=? c)%N then 2 else 6.

(** The last [k] digits of [m], written out. *)
Fixpoint digits (k : nat) (m : N) : string :=
  match k with
  | O => EmptyString
  | S k' => digits k' (m / 10) ++ String (Str.digit_char (m mod 10)) EmptyString
  end.

(** The text of r * 10^-k without the zeros that end its fraction: the
    sign, the integer part and, when digits of the fraction remain, a
    point and those digits. *)
Definition fmt_text (s : bool) (r : N) (k : Z) : string :=
  (if s then "-" else "") ++ Str.str_N (r / 10 ^ Z.to_N k)
  ++ match Str.rstrip "0" (digits (Z.to_nat k) (r mod 10 ^ Z.to_N k)) with
     | EmptyString => EmptyString
     | f => "." ++ f
     end.

End Spec.

(** ** Values as real numbers, for bounds on rounding errors *)

Module Real.
Import Dec Cache Handler Spec.

Definition NR (n : N) : R := IZR (Z.of_N n).

(** The magnitude c * 10^e and the value of a decimal. *)
Definition mag (c : N) (e : Z) : R := (NR c * powerRZ 10 e)%R.

Definition valR (d : Decimal) : R :=
  match d with
  | Fin s c e => if s then (- mag c e)%R else mag c e
  | _ => 0%R
  end.

(** [y] lies between [lo * x] and [hi * x]. *)
Definition within (lo hi x y : R) : Prop := (lo * x <= y <= hi * x)%R.

(** One part in 10^27 and one part in 10^28. *)
Definition eps : R := (/ 1000000000000000000000000000)%R.
Definition eps28 : R := (/ 10000000000000000000000000000)%R.

(** The exponent range in which [_fix] neither overflows nor meets
    subnormal values. *)
Definition normal (c : N) (e : Z) : Prop :=
  c <> 0%N /\ Emin <= adjusted c e <= Emax - 1.

(** A positive finite decimal between 10^-bound and 10^(bound+1). *)
Definition positive_within (bound : Z) (d : Decimal) : Prop :=
  match d with
  | Fin false c e => c <> 0%N /\ - bound <= adjusted c e <= bound
  | _ => False
  end.

(** A record whose rate and scale are such numbers. *)
Definition usable (r : rate_record) : Prop :=
  match Cur_OfficialRate r, Cur_Scale r with
  | Some rate, Some scale => positive_within 50 rate /\ positive_within 50 scale
  | _, _ => False
  end.

(** Converting [x] from [a] to [b] and the result back from [b] to [a],
    over one table. *)
Definition round_trip (rates : table) (a b : string) (x : Decimal) : result Decimal :=
  y ← convertedAmount rates x a b;
  convertedAmount rates y b a.

(** Half a unit of the last digit [fmt] keeps. *)
Definition fmt_tolerance (s : bool) (c : N) (e : Z) : R :=
  (/ 2 * powerRZ 10 (- fmt_digits s c e))%R.

(** The reference formulas in exact arithmetic. *)





(** The decimal order of magnitude of a record's rate over that of its
    scale: the order of the unit value, to within one. *)
Definition unit_order (r : rate_record) : Z :=
  match Cur_OfficialRate r, Cur_Scale r with
  | Some (Fin _ c1 e1), Some (Fin _ c2 e2) => adjusted c1 e1 - adjusted c2 e2
  | _, _ => 0
  end.

End Real.

(** ** The pattern [REQ_RE], part by part *)

Module Grammar.
Import Str Handler.

(** Every character of [s] satisfies [p]. *)
Definition all (p : ascii -> bool) (s : string) : bool :=
  negb (any (λ a, negb (p a)) s).

(** Every character of the text is an ASCII character. *)
Definition ascii_text (s : string) : bool := all (λ a, (code a <? 128)%N) s.

(** [\s*] and [\s+] *)
Definition blank (s : string) : bool := all is_space s.
Definition gap (s : string) : bool := negb (s =? "")%string && all is_space s.

(** [[-+]?] *)
Definition sign_part (s : string) : bool :=
  (s =? "")%string || (s =? "-")%string || (s =? "+")%string.

(** [\d+] *)
Definition digits1 (s : string) : bool := negb (s =? "")%string && all is_digit s.

(** [(?:[.,]\d+)?] *)
Definition is_sep (a : ascii) : bool := (Ascii.eqb a "." || Ascii.eqb a ",")%char.
Definition frac_part (s : string) : bool :=
  match s with
  | EmptyString => true
  | String a r => is_sep a && digits1 r
  end.

(** [[A-Z]{3}] and [to], letters of either case *)
Definition code_part (s : string) : bool :=
  match s with
  | String a (String b (String c EmptyString)) => is_alpha a && is_alpha b && is_alpha c
  | _ => false
  end.
Definition to_part (s : string) : bool := (lower s =? "to")%string.

(** [s] is empty or starts with a character outside the class [p]. *)
Definition starts_outside (p : ascii -> bool) (s : string) : Prop :=
  match s with
  | EmptyString => True
  | String a _ => p a = false
  end.

(** The amount at the front of the text, and what follows it. *)
Definition read_amount (s : string) : option (string * string) :=
  let '(sign, s) :=
    match s with
    | String a r =>
        if (Ascii.eqb a "-" || Ascii.eqb a "+")%char
        then (String a EmptyString, r)
        else ("", s)
    | EmptyString => ("", s)
    end in
  let '(intpart, s) := Str.span Str.is_digit s in
  if (intpart =? "")%string then None
  else
    let '(frac, s) :=
      match s with
      | String sep r =>
          if (Ascii.eqb sep "." || Ascii.eqb sep ",")%char then
            match Str.span Str.is_digit r with
            | (EmptyString, _) => ("", s)
            | (digits, r') => (String sep digits, r')
            end
          else ("", s)
      | EmptyString => ("", s)
      end in
    Some (sign ++ intpart ++ frac, s).

(** The part of [REQ_RE_match] after the amount. *)
Definition after_amount (amount s : string) : option (string * string * string) :=
  s ← spaces1 s;
  '(cur_from, s) ← three_letters s;
  s ← spaces1 s;
  match s with
  | String t (String o s) =>
      if (Ascii.eqb (Str.lower_char t) "t" && Ascii.eqb (Str.lower_char o) "o")%char
      then
        s ← spaces1 s;
        '(cur_to, s) ← three_letters s;
        if (Str.lstrip_by Str.is_space s =? "")%string
        then Some (amount, cur_from, cur_to)
        else None
      else None
  | _ => None
  end.

(** The digits after the separator. *)
Definition fraction_digits (frac : string) : string :=
  match frac with
  | EmptyString => EmptyString
  | String _ fs => fs
  end.

Definition amount_char (a : ascii) : bool :=
  is_digit a || Ascii.eqb a "." || Ascii.eqb a "-" || Ascii.eqb a "+".

(** The amount once the comma is replaced by a point. *)
Definition pointed (sign int frac : string) : string :=
  sign ++ int ++ match frac with
                 | EmptyString => EmptyString
                 | String _ fs => String "." fs
                 end.

(** Any character but the slash that starts the command word. *)
Definition not_slash (a : ascii) : bool := negb (Ascii.eqb "/" a).

End Grammar.

(** ** Handler calls one after another *)

Module Session.
Import Clock Cache Handler Tasks.

(** One update the dispatcher hands to a handler, with what the call
    meets on its way. *)
Inductive call : Type :=
| Convert (message_text : string) (w : world)
| Currencies (w : world).

Definition handle (c : call) (s : state) : result reply * state :=
  match c with
  | Convert message_text w => convert_handler message_text w s
  | Currencies w => cmd_currencies w s
  end.

(** The state after a list of calls, each finished before the next. *)
Definition serve (cs : list call) (s : state) : state :=
  foldl (λ s c, snd (handle c s)) s cs.

(** Order of naive datetimes: by date, then by time of day. *)
Definition datetime_le (a b : datetime) : bool :=
  match date_compare (dt_date a) (dt_date b) with
  | Lt => true
  | Eq => negb (time_gt (dt_time a) (dt_time b))
  | Gt => false
  end.

(** The objects of the response that carry the code [code]. *)
Definition with_code (code : string) (data : list rate_record) : list rate_record :=
  filter (λ r, Cur_Abbreviation r = Some code) data.

(** [a] is a later time of day than [b]. *)
Definition later_time (a b : time) : Prop :=
  hour b < hour a
  \/ (hour a = hour b /\ minute b < minute a)
  \/ (hour a = hour b /\ minute a = minute b /\ second b < second a)
  \/ (hour a = hour b /\ minute a = minute b /\ second a = second b
      /\ microsecond b < microsecond a).

(** A call made on the day [d] whose clock does not run backwards
    between the test of the cache and the store, and whose request
    brings a non-empty table. *)
Definition served_on (d : date) (w : world) : Prop :=
  dt_date (now_check w) = d /\ dt_date (now_store w) = d
  /\ time_gt (dt_time (now_check w)) (dt_time (now_store w)) = false
  /\ fetch_succeeds (resp w).

End Session.

(** ** Calls that wait for the event loop *)

Module Pool.
Import Cache Tasks.

(** The calls of a pool that have not yet tested the cache. *)
Definition not_started (t : task) : nat :=
  match t with
  | Start => 1
  | _ => 0
  end.

Definition waiting (ts : list task) : nat := sum_list (map not_started ts).

End Pool.

(** ** The listing as messages

    [cmd_currencies] sends its text in pieces of at most 4096 characters:
    [for i in range(0, len(text), 4096)] with [text[i : i + 4096]]. *)

Module Messages.

(** [range(start, stop, step)] for a positive [step]; [stop] steps are
    enough to pass [stop]. *)
Fixpoint range_from (fuel : nat) (i stop step : nat) : list nat :=
  match fuel with
  | O => []
  | S f => if (i <? stop)%nat then i :: range_from f (i + step) stop step else []
  end.

Definition range (start stop step : nat) : list nat :=
  range_from stop start stop step.

(** [text[i:j]] for [0 <= i <= j] *)
Definition slice {A : Type} (i j : nat) (text : list A) : list A :=
  take (j - i) (drop i text).

Definition limit : nat := 4096.

(** The texts passed to [message.answer], in order. *)
Definition pieces {A : Type} (n : nat) (text : list A) : list (list A) :=
  map (λ i, slice i (i + n) text) (range 0 (length text) n).

Definition messages {A : Type} (text : list A) : list (list A) := pieces limit text.

End Messages.

(** ** Opposite signs *)

Module Sign.
Import Dec.

(** The value with the opposite sign. *)
Definition negate (d : Decimal) : Decimal :=
  match d with
  | Fin s c e => Fin (negb s) c e
  | Inf s => Inf (negb s)
  | NaN s g => NaN (negb s) g
  end.

Definition result_map {A B : Type} (f : A -> B) (r : result A) : result B :=
  match r with
  | Ok a => Ok (f a)
  | Raise e => Raise e
  end.

End Sign.

(** ** Sample data for the examples *)

Module Sample.
Import Clock Cache Dec.

Definition usd : rate_record :=
  RateRecord (Some "USD") (Some "US Dollar") (Some (Fin false 32541 (-4))) (Some (of_Z 1)).
Definition eur : rate_record :=
  RateRecord (Some "EUR") (Some "Euro") (Some (Fin false 35012 (-4))) (Some (of_Z 1)).
Definition rub : rate_record :=
  RateRecord (Some "RUB") (Some "Russian Ruble") (Some (Fin false 35718 (-4))) (Some (of_Z 100)).

Definition body : list rate_record := [usd; eur; rub].

Definition today : date := Date 2024 5 14.
Definition yesterday : date := Date 2024 5 13.
Definition at_ (d : date) (h m : Z) : datetime := Datetime d (Time h m 0 0).

(** The table the sample body makes. *)
Definition sample_table : table :=
  <["RUB" := rub]> (<["EUR" := eur]> (<["USD" := usd]> ∅)).

(** A reply with status 200 and the sample body, at one instant. *)
Definition served (now : datetime) : world :=
  World now (Response 200 (Some body)) now.

(** The request fails, at one instant. *)
Definition down (now : datetime) : world := World now NetworkError now.

(** The cache after one successful fetch at [now]. *)
Definition fetched (now : datetime) : state := snd (get_rates (served now) initial).

End Sample.

(** ** More sample data *)

Module Cases.
Import Clock Cache Dec Sample.

(** A second object for USD, as a response may repeat a code. *)
Definition usd_late : rate_record :=
  RateRecord (Some "USD") (Some "US Dollar") (Some (Fin false 32600 (-4))) (Some (of_Z 1)).

(** A currency whose official rate is zero. *)
Definition halted : rate_record :=
  RateRecord (Some "XXX") (Some "Halted") (Some (Fin false 0 0)) (Some (of_Z 1)).

Definition with_halted : table := <["XXX" := halted]> sample_table.

(** A reply with status 200 and an empty array. *)
Definition served_nothing (now : datetime) : world :=
  World now (Response 200 (Some [])) now.

End Cases.


(** * Properties *)

(** ** Strings *)

Module StrFacts.
Import Str.

Lemma app_cons (a : ascii) (x y : string) : String a x ++ y = String a (x ++ y).
Proof. reflexivity. Qed.

Lemma app_nil (y : string) : EmptyString ++ y = y.
Proof. reflexivity. Qed.

Lemma any_app p x y : any p (x ++ y) = any p x || any p y.
Proof.
  induction x as [|a x IH]; [reflexivity|].
  rewrite app_cons. simpl. rewrite IH. apply orb_assoc.
Qed.

Lemma span_eq p s x y : span p s = (x, y) -> s = x ++ y.
Proof.
  revert x y. induction s as [|a s IH]; simpl; intros x y H.
  - injection H as <- <-. reflexivity.
  - destruct (p a).
    + destruct (span p s) as [x' y'] eqn:E. injection H as <- <-.
      rewrite app_cons. f_equal. apply IH. reflexivity.
    + injection H as <- <-. reflexivity.
Qed.

Lemma span_all p s x y : span p s = (x, y) -> any (λ a, negb (p a)) x = false.
Proof.
  revert x y. induction s as [|a s IH]; simpl; intros x y H.
  - injection H as <- <-. reflexivity.
  - destruct (p a) eqn:Ea.
    + destruct (span p s) as [x' y'] eqn:E. injection H as <- <-.
      simpl. rewrite Ea. simpl. eapply IH. reflexivity.
    + injection H as <- <-. reflexivity.
Qed.

(** What [span] leaves starts with a character outside the class. *)
Lemma span_rest p s x y :
  span p s = (x, y) ->
  match y with
  | EmptyString => True
  | String a _ => p a = false
  end.
Proof.
  revert x y. induction s as [|a s IH]; simpl; intros x y H.
  - injection H as <- <-. exact I.
  - destruct (p a) eqn:Ea.
    + destruct (span p s) as [x' y'] eqn:E. injection H as <- <-.
      eapply IH. reflexivity.
    + injection H as <- <-. exact Ea.
Qed.

Lemma any_span_rest q p s x y :
  (forall a, p a = true -> q a = false) ->
  span p s = (x, y) -> any q s = true -> any q y = true.
Proof.
  intros Hpq. revert x y. induction s as [|a s IH]; simpl; intros x y H Hq.
  - discriminate.
  - destruct (p a) eqn:Ea.
    + destruct (span p s) as [x' y'] eqn:E. injection H as <- <-.
      rewrite (Hpq a Ea) in Hq. simpl in Hq. eapply IH; [reflexivity | exact Hq].
    + injection H as <- <-. exact Hq.
Qed.

Lemma any_map_chars p f s :
  (forall a, p (f a) = p a) -> any p (map_chars f s) = any p s.
Proof.
  intros Hf. induction s as [|a s IH]; simpl; [reflexivity|].
  rewrite Hf, IH. reflexivity.
Qed.

Lemma lstrip_map_chars p f s :
  (forall a, p (f a) = p a) ->
  lstrip_by p (map_chars f s) = map_chars f (lstrip_by p s).
Proof.
  intros Hf. induction s as [|a s IH]; simpl; [reflexivity|].
  rewrite Hf. destruct (p a); [exact IH | reflexivity].
Qed.

Lemma rstrip_map_chars p f s :
  (forall a, p (f a) = p a) ->
  rstrip_by p (map_chars f s) = map_chars f (rstrip_by p s).
Proof.
  intros Hf. induction s as [|a s IH]; simpl; [reflexivity|].
  rewrite IH, Hf. destruct (rstrip_by p s); simpl; [|reflexivity].
  destruct (p a); reflexivity.
Qed.

Lemma strip_map_chars f s :
  (forall a, is_space (f a) = is_space a) ->
  strip (map_chars f s) = map_chars f (strip s).
Proof.
  intros Hf. unfold strip.
  rewrite lstrip_map_chars, rstrip_map_chars by exact Hf. reflexivity.
Qed.

Lemma prefix_one (old : ascii) (a : ascii) (r : string) :
  String.prefix (String old EmptyString) (String a r) = Ascii.eqb old a.
Proof.
  simpl. destruct (ascii_dec old a) as [->|Hne].
  - rewrite Ascii.eqb_refl. destruct r; reflexivity.
  - symmetry. apply Ascii.eqb_neq. exact Hne.
Qed.

Lemma replace_char (old new : ascii) (s : string) :
  replace (String old EmptyString) (String new EmptyString) s
  = map_chars (subst_char old new) s.
Proof.
  unfold replace. induction s as [|a s IH]; [reflexivity|].
  unfold replace_go; fold replace_go. rewrite prefix_one.
  simpl String.length. simpl Nat.pred. rewrite IH.
  change (map_chars (subst_char old new) (String a s))
    with (String (subst_char old new a) (map_chars (subst_char old new) s)).
  unfold subst_char at 3.
  destruct (Ascii.eqb old a); reflexivity.
Qed.

(** Deleting a character that is not whitespace keeps the whitespace. *)
Lemma any_delete_char p (old : ascii) (s : string) :
  p old = false ->
  any p (replace (String old EmptyString) EmptyString s) = any p s.
Proof.
  intros Hold. unfold replace. induction s as [|a s IH]; [reflexivity|].
  unfold replace_go; fold replace_go. rewrite prefix_one.
  simpl String.length. simpl Nat.pred.
  destruct (Ascii.eqb_spec old a) as [<-|Hne].
  - rewrite app_nil, IH. simpl. rewrite Hold. reflexivity.
  - simpl. rewrite IH. reflexivity.
Qed.

Lemma rstrip_nonempty p s :
  any (λ a, negb (p a)) s = true -> rstrip_by p s <> EmptyString.
Proof.
  induction s as [|a s IH]; simpl; [discriminate|].
  intros H. destruct (rstrip_by p s) eqn:E; [|discriminate].
  destruct (p a) eqn:Ea; [|discriminate].
  simpl in H. exfalso. apply IH; [exact H | reflexivity].
Qed.

Lemma any_nonempty p s : any p s = true -> s <> EmptyString.
Proof. destruct s; [discriminate | discriminate]. Qed.

Lemma rstrip_inner_space s :
  inner_space s = true -> any is_space (rstrip_by is_space s) = true.
Proof.
  induction s as [|a s IH]; simpl; [discriminate|].
  intros H. apply orb_true_iff in H as [H | H].
  - apply andb_true_iff in H as [Ha Hr].
    pose proof (rstrip_nonempty is_space s Hr) as Hne.
    destruct (rstrip_by is_space s) eqn:E; [contradiction|].
    simpl. rewrite Ha. reflexivity.
  - specialize (IH H). pose proof (any_nonempty _ _ IH) as Hne.
    destruct (rstrip_by is_space s) eqn:E; [contradiction|].
    simpl in *. rewrite IH. apply orb_true_r.
Qed.

Lemma inner_space_app x y : inner_space y = true -> inner_space (x ++ y) = true.
Proof.
  intros Hy. induction x as [|a x IH]; [exact Hy|].
  rewrite app_cons. simpl. rewrite IH. apply orb_true_r.
Qed.


Lemma lower_space a : is_space (lower_char a) = is_space a.
Proof.
  unfold lower_char. destruct (is_upper a) eqn:E; [|reflexivity].
  unfold is_upper in E. apply andb_true_iff in E as [H1 H2].
  apply N.leb_le in H1. apply N.leb_le in H2.
  assert (is_space a = false) as ->.
  { unfold is_space. repeat match goal with
      |- context [(?x <=? ?y)%N] => destruct (N.leb_spec x y) end; try reflexivity; lia. }
  unfold is_space, code. rewrite N_ascii_embedding by (unfold code in *; lia).
  unfold code in *.
  repeat match goal with
      |- context [(?x <=? ?y)%N] => destruct (N.leb_spec x y) end; try reflexivity; lia.
Qed.

Lemma digit_not_space a : is_digit a = true -> is_space a = false.
Proof.
  unfold is_digit, is_space. intros H. apply andb_true_iff in H as [H1 H2].
  apply N.leb_le in H1. apply N.leb_le in H2.
  repeat match goal with
      |- context [(?x <=? ?y)%N] => destruct (N.leb_spec x y) end; try reflexivity; lia.
Qed.

Lemma alpha_not_space a : is_alpha a = true -> is_space a = false.
Proof.
  unfold is_alpha, is_upper, is_lower, is_space. intros H.
  apply orb_true_iff in H as [H | H]; apply andb_true_iff in H as [H1 H2];
    apply N.leb_le in H1; apply N.leb_le in H2;
    repeat match goal with
      |- context [(?x <=? ?y)%N] => destruct (N.leb_spec x y) end; try reflexivity; lia.
Qed.

Lemma drop_prefix_any q p s r :
  drop_prefix p s = Some r -> any q p = false -> any q s = true -> any q r = true.
Proof.
  revert s. induction p as [|a p IH]; intros s H Hp Hs.
  - simpl in H. injection H as <-. exact Hs.
  - destruct s as [|b s]; [discriminate|]. simpl in H.
    destruct (Ascii.eqb_spec a b) as [<-|]; [|discriminate].
    simpl in Hp, Hs. apply orb_false_iff in Hp as [Ha Hp]. rewrite Ha in Hs.
    eapply IH; eauto.
Qed.

(** *** Appending *)

Lemma str_app_nil_r (x : string) : x ++ "" = x.
Proof. induction x as [|a x IH]; [reflexivity|]. rewrite app_cons, IH. reflexivity. Qed.

Lemma str_app_assoc (x y z : string) : (x ++ y) ++ z = x ++ (y ++ z).
Proof.
  induction x as [|a x IH]; [reflexivity|]. rewrite !app_cons, IH. reflexivity.
Qed.

Lemma str_app_length (x y : string) :
  String.length (x ++ y) = (String.length x + String.length y)%nat.
Proof.
  induction x as [|a x IH]; [reflexivity|]. rewrite app_cons. simpl. rewrite IH. reflexivity.
Qed.

(** *** Slices *)

Lemma substring_whole (s : string) : substring 0 (String.length s) s = s.
Proof. induction s as [|a s IH]; [reflexivity|]. simpl. rewrite IH. reflexivity. Qed.

Lemma take_append (x y : string) : take (Z.of_nat (String.length x)) (x ++ y) = x.
Proof.
  unfold take. rewrite Nat2Z.id.
  induction x as [|a x IH]; [destruct y; reflexivity|].
  rewrite app_cons. simpl. rewrite IH. reflexivity.
Qed.

Lemma drop_append (x y : string) : drop (Z.of_nat (String.length x)) (x ++ y) = y.
Proof.
  unfold drop. rewrite Nat2Z.id, str_app_length.
  replace (String.length x + String.length y - String.length x)%nat
    with (String.length y) by lia.
  induction x as [|a x IH]; [apply substring_whole|].
  rewrite app_cons. simpl. exact IH.
Qed.

(** *** Stripping on the right *)

Lemma rstrip_by_append_keep p (x y : string) :
  rstrip_by p y <> "" -> rstrip_by p (x ++ y) = x ++ rstrip_by p y.
Proof.
  intros Hy. induction x as [|a x IH]; [reflexivity|].
  rewrite !app_cons. simpl. rewrite IH.
  destruct x; [|reflexivity]. rewrite app_nil.
  destruct (rstrip_by p y); [contradiction | reflexivity].
Qed.

Lemma rstrip_by_append_drop p (x y : string) :
  rstrip_by p y = "" -> rstrip_by p (x ++ y) = rstrip_by p x.
Proof.
  intros Hy. induction x as [|a x IH]; [exact Hy|].
  rewrite app_cons. simpl. rewrite IH. reflexivity.
Qed.

Lemma rstrip_by_none p (s : string) : any p s = false -> rstrip_by p s = s.
Proof.
  induction s as [|a s IH]; [reflexivity|]. simpl. intros H.
  apply orb_false_iff in H as [Ha Hs]. rewrite (IH Hs), Ha.
  destruct s; reflexivity.
Qed.

Lemma any_rstrip_by q p (s : string) :
  any q s = false -> any q (rstrip_by p s) = false.
Proof.
  induction s as [|a s IH]; [reflexivity|]. simpl. intros H.
  apply orb_false_iff in H as [Ha Hs]. specialize (IH Hs).
  destruct (rstrip_by p s).
  - destruct (p a); [reflexivity|]. simpl. rewrite Ha. reflexivity.
  - simpl in *. rewrite Ha. exact IH.
Qed.

End StrFacts.

(** ** Decimal arithmetic *)

Module DecFacts.
Import Dec Spec.

(** *** Powers of ten and the number of digits *)

Lemma pow10_pos (k : N) : (0 < 10 ^ k)%N.
Proof. apply N.neq_0_lt_0, N.pow_nonzero. discriminate. Qed.

Lemma pow10_succ (k : N) : (10 ^ (k + 1) = 10 * 10 ^ k)%N.
Proof. rewrite N.pow_add_r, N.pow_1_r. apply N.mul_comm. Qed.

Lemma pow10_le (a b : N) : (a <= b)%N -> (10 ^ a <= 10 ^ b)%N.
Proof. intros H. apply N.pow_le_mono_r; [discriminate | exact H]. Qed.

Lemma pow10_lt (a b : N) : (a < b)%N -> (10 ^ a < 10 ^ b)%N.
Proof. intros H. apply N.pow_lt_mono_r; [reflexivity | exact H]. Qed.

Lemma pow10_lt_inv (a b : N) : (10 ^ a < 10 ^ b)%N -> (a < b)%N.
Proof.
  intros H. destruct (N.lt_ge_cases a b) as [Hlt | Hge]; [exact Hlt|].
  apply pow10_le in Hge. lia.
Qed.

(** Division with remainder, ready for linear arithmetic. *)
Lemma div_mod_N (a b : N) :
  (b <> 0)%N -> (a = b * (a / b) + a mod b /\ a mod b < b)%N.
Proof.
  intros Hb. split; [apply N.div_mod, Hb | apply N.mod_lt, Hb].
Qed.

Lemma decade_step (c K : N) :
  (10 ^ K <= c / 10 < 10 ^ (K + 1))%N -> (10 ^ (K + 1) <= c < 10 ^ (K + 1 + 1))%N.
Proof.
  destruct (div_mod_N c 10) as [Hdm Hm]; [discriminate|].
  rewrite !pow10_succ. revert Hdm Hm.
  generalize (10 ^ K)%N (c / 10)%N (c mod 10)%N. lia.
Qed.

Lemma ndigits_fuel_spec (fuel : nat) : forall c : N,
  (c < 2 ^ N.of_nat fuel)%N -> c <> 0%N ->
  1 <= ndigits_fuel fuel c
  /\ (10 ^ Z.to_N (ndigits_fuel fuel c - 1) <= c < 10 ^ Z.to_N (ndigits_fuel fuel c))%N.
Proof.
  induction fuel as [|fuel IH]; intros c Hc Hne.
  - simpl in Hc. lia.
  - simpl ndigits_fuel. destruct (N.ltb_spec c 10) as [Hlt | Hge].
    + simpl. lia.
    + destruct (div_mod_N c 10) as [Hdm Hm]; [discriminate|].
      assert (c / 10 < 2 ^ N.of_nat fuel)%N as Hb.
      { rewrite Nat2N.inj_succ, N.pow_succ_r' in Hc.
        revert Hc Hdm. generalize (2 ^ N.of_nat fuel)%N (c / 10)%N (c mod 10)%N. lia. }
      destruct (IH (c / 10)%N Hb) as [H1 Hdec]; [lia|].
      split; [lia|].
      set (n := ndigits_fuel fuel (c / 10)) in *.
      replace (Z.to_N n) with (Z.to_N (n - 1) + 1)%N in Hdec by lia.
      replace (Z.to_N (1 + n - 1)) with (Z.to_N (n - 1) + 1)%N by lia.
      replace (Z.to_N (1 + n)) with (Z.to_N (n - 1) + 1 + 1)%N by lia.
      apply decade_step, Hdec.
Qed.

Lemma ndigits_zero : ndigits 0%N = 1.
Proof. reflexivity. Qed.

Lemma ndigits_spec (c : N) :
  c <> 0%N ->
  1 <= ndigits c
  /\ (10 ^ Z.to_N (ndigits c - 1) <= c < 10 ^ Z.to_N (ndigits c))%N.
Proof.
  intros Hne. apply ndigits_fuel_spec; [|exact Hne].
  rewrite N2Nat.id. apply N.size_gt.
Qed.

Lemma ndigits_pos (c : N) : 1 <= ndigits c.
Proof.
  destruct (N.eq_dec c 0%N) as [->|Hne]; [rewrite ndigits_zero; lia|].
  apply ndigits_spec, Hne.
Qed.

(** The number of digits is determined by the decade the number is in. *)
Lemma ndigits_unique (c : N) (k : Z) :
  1 <= k -> (10 ^ Z.to_N (k - 1) <= c < 10 ^ Z.to_N k)%N -> ndigits c = k.
Proof.
  intros Hk [Hlo Hhi].
  assert (c <> 0%N) as Hne by (pose proof (pow10_pos (Z.to_N (k - 1))); lia).
  destruct (ndigits_spec c Hne) as [H1 [Hlo' Hhi']].
  assert (Z.to_N (k - 1) < Z.to_N (ndigits c))%N by (apply pow10_lt_inv; lia).
  assert (Z.to_N (ndigits c - 1) < Z.to_N k)%N by (apply pow10_lt_inv; lia).
  lia.
Qed.

Lemma ndigits_le (c : N) (k : Z) :
  1 <= k -> (c < 10 ^ Z.to_N k)%N -> ndigits c <= k.
Proof.
  intros Hk Hc. destruct (N.eq_dec c 0%N) as [->|Hne]; [rewrite ndigits_zero; lia|].
  destruct (ndigits_spec c Hne) as [H1 [Hlo _]].
  assert (Z.to_N (ndigits c - 1) < Z.to_N k)%N by (apply pow10_lt_inv; lia).
  lia.
Qed.

Lemma ndigits_gt (c : N) (k : Z) :
  0 <= k -> (10 ^ Z.to_N k <= c)%N -> k < ndigits c.
Proof.
  intros Hk Hc.
  assert (c <> 0%N) as Hne by (pose proof (pow10_pos (Z.to_N k)); lia).
  destruct (ndigits_spec c Hne) as [H1 [_ Hhi]].
  assert (Z.to_N k < Z.to_N (ndigits c))%N by (apply pow10_lt_inv; lia).
  lia.
Qed.

(** *** Rounding half up *)

Lemma pow10_split (j : N) : (1 <= j)%N -> (10 ^ j = 10 * 10 ^ (j - 1))%N.
Proof.
  intros Hj. replace j with (j - 1 + 1)%N at 1 by lia. apply pow10_succ.
Qed.

(** Looking at the first dropped digit is comparing twice the dropped
    part with the unit of the kept part. *)
Lemma round_half_up_up (c j : N) :
  (1 <= j)%N ->
  round_half_up c j = 1 <-> (10 ^ j <= 2 * (c mod 10 ^ j))%N.
Proof.
  intros Hj. unfold round_half_up.
  pose proof (pow10_pos (j - 1)) as HP.
  destruct (div_mod_N (c mod 10 ^ j) (10 ^ (j - 1))) as [Hdm Hm]; [lia|].
  rewrite (pow10_split j Hj) in *.
  revert Hdm Hm HP.
  generalize (c mod (10 * 10 ^ (j - 1)))%N. intros r.
  generalize (10 ^ (j - 1))%N (r / 10 ^ (j - 1))%N (r mod 10 ^ (j - 1))%N.
  intros P d r' Hdm Hm HP.
  destruct (N.leb_spec 5 d) as [H5 | H5].
  - pose proof (N.mul_le_mono_l 5 d P H5).
    split; [intros _; lia | reflexivity].
  - pose proof (N.mul_le_mono_l d 4 P ltac:(lia)).
    split.
    + destruct (r =? 0)%N; discriminate.
    + intros Hge. exfalso. lia.
Qed.

Lemma half_up_step (c j : N) :
  (1 <= j)%N ->
  (if round_half_up c j =? 1 then (c / 10 ^ j + 1)%N else (c / 10 ^ j)%N)
  = ((2 * c + 10 ^ j) / (2 * 10 ^ j))%N.
Proof.
  intros Hj. pose proof (round_half_up_up c j Hj) as Hup.
  pose proof (pow10_pos j) as HT.
  destruct (div_mod_N c (10 ^ j)) as [Hdm Hm]; [lia|].
  destruct (Z.eqb_spec (round_half_up c j) 1) as [H1 | H1].
  - apply Hup in H1.
    apply N.div_unique with (r := (2 * (c mod 10 ^ j) - 10 ^ j)%N).
    + revert Hm H1. generalize (10 ^ j)%N (c mod 10 ^ j)%N. lia.
    + revert Hdm Hm H1. generalize (10 ^ j)%N (c / 10 ^ j)%N (c mod 10 ^ j)%N. lia.
  - assert (2 * (c mod 10 ^ j) < 10 ^ j)%N as H2.
    { destruct (N.lt_ge_cases (2 * (c mod 10 ^ j)) (10 ^ j)) as [H | H]; [exact H|].
      apply Hup in H. contradiction. }
    apply N.div_unique with (r := (2 * (c mod 10 ^ j) + 10 ^ j)%N).
    + revert Hm H2. generalize (10 ^ j)%N (c mod 10 ^ j)%N. lia.
    + revert Hdm Hm H2. generalize (10 ^ j)%N (c / 10 ^ j)%N (c mod 10 ^ j)%N. lia.
Qed.

(** [half_up c k] is the integer nearest to c * 10^k, halves going up. *)
Lemma half_up_nearest (c : N) (k : Z) :
  k < 0 ->
  (2 * half_up c k * 10 ^ Z.to_N (- k) <= 2 * c + 10 ^ Z.to_N (- k)
   /\ 2 * c + 10 ^ Z.to_N (- k) < 2 * (half_up c k + 1) * 10 ^ Z.to_N (- k))%N.
Proof.
  intros Hk. unfold half_up. destruct (Z.leb_spec 0 k) as [H | _]; [lia|].
  pose proof (pow10_pos (Z.to_N (- k))) as HT.
  destruct (div_mod_N (2 * c + 10 ^ Z.to_N (- k)) (2 * 10 ^ Z.to_N (- k))) as [Hdm Hm]; [lia|].
  revert Hdm Hm HT.
  generalize ((2 * c + 10 ^ Z.to_N (- k)) mod (2 * 10 ^ Z.to_N (- k)))%N.
  generalize ((2 * c + 10 ^ Z.to_N (- k)) / (2 * 10 ^ Z.to_N (- k)))%N.
  generalize (10 ^ Z.to_N (- k))%N. intros T q r Hdm Hm HT. nia.
Qed.

Lemma half_up_zero (k : Z) : half_up 0 k = 0%N.
Proof.
  unfold half_up. destruct (0 <=? k); [reflexivity|].
  pose proof (pow10_pos (Z.to_N (- k))).
  apply N.div_small. lia.
Qed.

(** Bounds on the rounded coefficient from the number of digits. *)
Lemma half_up_lower (c : N) (k m : Z) :
  c <> 0%N -> 0 <= m -> m < ndigits c + k ->
  (10 ^ Z.to_N m <= half_up c k)%N.
Proof.
  intros Hc Hm Hnd. destruct (ndigits_spec c Hc) as [H1 [Hlo _]].
  unfold half_up. destruct (Z.leb_spec 0 k) as [Hk | Hk].
  - assert (10 ^ Z.to_N m <= 10 ^ Z.to_N (ndigits c - 1) * 10 ^ Z.to_N k)%N.
    { rewrite <- N.pow_add_r. apply pow10_le. lia. }
    revert H Hlo. generalize (10 ^ Z.to_N m)%N (10 ^ Z.to_N (ndigits c - 1))%N.
    pose proof (pow10_pos (Z.to_N k)). revert H.
    generalize (10 ^ Z.to_N k)%N. intros; nia.
  - pose proof (pow10_pos (Z.to_N (- k))) as HT.
    apply N.div_le_lower_bound; [lia|].
    assert (10 ^ Z.to_N m * 10 ^ Z.to_N (- k) <= 10 ^ Z.to_N (ndigits c - 1))%N.
    { rewrite <- N.pow_add_r. apply pow10_le. lia. }
    revert H Hlo HT. generalize (10 ^ Z.to_N m)%N (10 ^ Z.to_N (ndigits c - 1))%N.
    generalize (10 ^ Z.to_N (- k))%N. intros; nia.
Qed.

Lemma half_up_upper (c : N) (k m : Z) :
  0 <= m -> ndigits c + k <= m ->
  (half_up c k <= 10 ^ Z.to_N m)%N.
Proof.
  intros Hm Hnd. destruct (N.eq_dec c 0%N) as [->|Hc].
  { rewrite half_up_zero. pose proof (pow10_pos (Z.to_N m)). lia. }
  destruct (ndigits_spec c Hc) as [H1 [_ Hhi]].
  unfold half_up. destruct (Z.leb_spec 0 k) as [Hk | Hk].
  - assert (10 ^ Z.to_N (ndigits c) * 10 ^ Z.to_N k <= 10 ^ Z.to_N m)%N.
    { rewrite <- N.pow_add_r. apply pow10_le. lia. }
    revert H Hhi. generalize (10 ^ Z.to_N m)%N (10 ^ Z.to_N (ndigits c))%N.
    generalize (10 ^ Z.to_N k)%N. intros; nia.
  - pose proof (pow10_pos (Z.to_N (- k))) as HT.
    apply N.lt_succ_r. rewrite <- N.add_1_r.
    apply N.Div0.div_lt_upper_bound.
    assert (10 ^ Z.to_N (ndigits c) <= 10 ^ Z.to_N m * 10 ^ Z.to_N (- k))%N.
    { rewrite <- N.pow_add_r. apply pow10_le. lia. }
    revert H Hhi HT. generalize (10 ^ Z.to_N m)%N (10 ^ Z.to_N (ndigits c))%N.
    generalize (10 ^ Z.to_N (- k))%N. intros; nia.
Qed.



(** *** [_rescale], [_fix] and [quantize] *)

Lemma rescale_half_up (s : bool) (c : N) (e qe : Z) :
  rescale s c e qe ROUND_HALF_UP = Fin s (half_up c (e - qe)) qe.
Proof.
  unfold rescale. destruct (N.eqb_spec c 0) as [->|Hc].
  { rewrite half_up_zero. reflexivity. }
  destruct (Z.leb_spec qe e) as [Hle | Hlt].
  { unfold half_up. destruct (Z.leb_spec 0 (e - qe)); [reflexivity | lia]. }
  destruct (ndigits_spec c Hc) as [H1 [Hlo Hhi]].
  destruct (Z.ltb_spec (ndigits c + e - qe) 0) as [Hneg | Hpos].
  - replace (Z.to_N (qe - (qe - 1))) with 1%N by lia.
    change (pick_rounding ROUND_HALF_UP 1 1) with (-1). simpl.
    f_equal. symmetry. unfold half_up.
    destruct (Z.leb_spec 0 (e - qe)); [lia|].
    apply N.div_small.
    assert (10 * 10 ^ Z.to_N (ndigits c) <= 10 ^ Z.to_N (- (e - qe)))%N.
    { rewrite <- pow10_succ. apply pow10_le. lia. }
    revert H0 Hhi. generalize (10 ^ Z.to_N (- (e - qe)))%N (10 ^ Z.to_N (ndigits c))%N. lia.
  - simpl pick_rounding. f_equal.
    unfold half_up. destruct (Z.leb_spec 0 (e - qe)); [lia|].
    replace (Z.to_N (- (e - qe))) with (Z.to_N (qe - e)) by lia.
    apply half_up_step. lia.
Qed.

(** A value that fits the precision and the exponent range is left as it
    is. *)
Lemma fix_id (s : bool) (c : N) (e : Z) :
  ndigits c <= prec -> Etiny <= e -> e + ndigits c - 1 <= Emax ->
  fix_ (Fin s c e) = Ok (Fin s c e).
Proof.
  intros Hnd Hlo Hhi. unfold fix_. destruct (N.eqb_spec c 0) as [->|Hc].
  { rewrite ndigits_zero in Hhi. do 2 f_equal. lia. }
  destruct (Z.ltb_spec Etop (ndigits c + e - prec)) as [H | H].
  { unfold Etop in H. lia. }
  destruct (Z.ltb_spec e (Z.max (ndigits c + e - prec) Etiny)) as [H' | H']; [lia|].
  reflexivity.
Qed.

Lemma quantize_half_up (s : bool) (c : N) (e : Z) (qs : bool) (qc : N) (qe : Z) :
  Etiny <= qe <= 0 ->
  quantize (Fin s c e) (Fin qs qc qe) ROUND_HALF_UP =
    if (half_up c (e - qe) <? 10 ^ 28)%N
    then Ok (Fin s (half_up c (e - qe)) qe)
    else Raise InvalidOperation.
Proof.
  intros [Hqlo Hqhi]. unfold quantize. simpl check_nans.
  assert ((Etiny <=? qe) = true) as -> by (apply Z.leb_le; lia).
  assert ((qe <=? Emax) = true) as -> by (apply Z.leb_le; unfold Emax; lia).
  simpl negb. cbv iota.
  destruct (N.eqb_spec c 0) as [->|Hc].
  { rewrite half_up_zero. change (0 <? 10 ^ 28)%N with true. cbv iota. apply fix_id.
    - rewrite ndigits_zero. unfold prec. lia.
    - lia.
    - rewrite ndigits_zero. unfold Emax. lia. }
  unfold adjusted.
  destruct (Z.ltb_spec Emax (e + ndigits c - 1)) as [H1 | H1].
  { pose proof (half_up_lower c (e - qe) 28 Hc ltac:(lia) ltac:(unfold Emax in H1; lia)).
    destruct (N.ltb_spec (half_up c (e - qe)) (10 ^ 28)); [|reflexivity].
    exfalso. change (Z.to_N 28) with 28%N in H. lia. }
  destruct (Z.ltb_spec prec (e + ndigits c - 1 - qe + 1)) as [H2 | H2].
  { pose proof (half_up_lower c (e - qe) 28 Hc ltac:(lia) ltac:(unfold prec in H2; lia)).
    destruct (N.ltb_spec (half_up c (e - qe)) (10 ^ 28)); [|reflexivity].
    exfalso. change (Z.to_N 28) with 28%N in H. lia. }
  rewrite rescale_half_up.
  pose proof (half_up_upper c (e - qe) 28 ltac:(lia) ltac:(unfold prec in H2; lia)) as Hup.
  change (Z.to_N 28) with 28%N in Hup.
  assert (ndigits (half_up c (e - qe)) <= 29) as Hnd29.
  { apply ndigits_le; [lia|]. change (Z.to_N 29) with 29%N.
    assert (10 ^ 28 < 10 ^ 29)%N by (apply pow10_lt; lia). lia. }
  destruct (Z.ltb_spec Emax (qe + ndigits (half_up c (e - qe)) - 1)) as [H3 | H3].
  { unfold Emax in H3. lia. }
  destruct (N.ltb_spec (half_up c (e - qe)) (10 ^ 28)) as [Hlt | Hge].
  - assert (ndigits (half_up c (e - qe)) <= 28) as Hnd28.
    { apply ndigits_le; [lia|]. exact Hlt. }
    destruct (Z.ltb_spec prec (ndigits (half_up c (e - qe)))) as [H4 | H4].
    { unfold prec in H4. lia. }
    apply fix_id; [exact H4 | lia | lia].
  - assert (28 < ndigits (half_up c (e - qe))) as Hnd.
    { apply ndigits_gt; [lia|]. exact Hge. }
    destruct (Z.ltb_spec prec (ndigits (half_up c (e - qe)))) as [H4 | H4];
      [reflexivity | unfold prec in H4; lia].
Qed.

(** [d >= 1] holds for the positive values with c * 10^e >= 1. *)
Lemma ge_one (s : bool) (c : N) (e : Z) :
  Dec.ge (Fin s c e) (of_Z 1) = Ok (negb s && (10 ^ Z.to_N (- e) <=? c)%N).
Proof.
  unfold Dec.ge, cmp. simpl is_nan. simpl orb. cbv iota.
  change (of_Z 1) with (Fin false 1 0). cbv iota beta.
  destruct (N.eqb_spec c 0) as [->|Hc].
  { simpl. f_equal. pose proof (pow10_pos (Z.to_N (- e))).
    destruct (N.leb_spec (10 ^ Z.to_N (- e)) 0); [lia|]. destruct s; reflexivity. }
  simpl (1 =? 0)%N. cbv iota. simpl (negb false). rewrite andb_false_r, andb_true_r.
  destruct s; simpl; [reflexivity|].
  destruct (ndigits_spec c Hc) as [H1 [Hlo Hhi]].
  unfold adjusted. change (ndigits 1) with 1.
  destruct (Z.compare_spec (e + ndigits c - 1) (0 + 1 - 1)) as [Heq | Hlt | Hgt].
  - simpl. replace (Z.to_N (e - 0)) with 0%N by lia.
    replace (Z.to_N (0 - e)) with (Z.to_N (ndigits c - 1)) by lia.
    replace (Z.to_N (- e)) with (Z.to_N (ndigits c - 1)) by lia.
    rewrite N.pow_0_r, N.mul_1_r, N.mul_1_l.
    destruct (N.leb_spec (10 ^ Z.to_N (ndigits c - 1)) c) as [Hle | Hnle]; [|lia].
    destruct (N.compare_spec c (10 ^ Z.to_N (ndigits c - 1))); try reflexivity. lia.
  - simpl. f_equal. symmetry. apply N.leb_gt.
    assert (10 ^ Z.to_N (ndigits c) <= 10 ^ Z.to_N (- e))%N by (apply pow10_le; lia).
    lia.
  - simpl. f_equal. symmetry. apply N.leb_le.
    assert (10 ^ Z.to_N (- e) <= 10 ^ Z.to_N (ndigits c - 1))%N by (apply pow10_le; lia).
    lia.
Qed.

Lemma ndigits_div_pow (c j : N) :
  c <> 0%N -> Z.of_N j < ndigits c ->
  (10 ^ Z.to_N (ndigits c - 1 - Z.of_N j) <= c / 10 ^ j
   /\ c / 10 ^ j < 10 ^ Z.to_N (ndigits c - Z.of_N j))%N.
Proof.
  intros Hc Hj. destruct (ndigits_spec c Hc) as [H1 [Hlo Hhi]].
  pose proof (pow10_pos j) as HT. split.
  - apply N.div_le_lower_bound; [lia|]. rewrite N.mul_comm, <- N.pow_add_r.
    replace (Z.to_N (ndigits c - 1 - Z.of_N j) + j)%N with (Z.to_N (ndigits c - 1)) by lia.
    exact Hlo.
  - apply N.Div0.div_lt_upper_bound. rewrite <- N.pow_add_r.
    replace (j + Z.to_N (ndigits c - Z.of_N j))%N with (Z.to_N (ndigits c)) by lia.
    exact Hhi.
Qed.

End DecFacts.

(** ** Numbers as text *)

Module TextFacts.
Import Str Dec Spec StrFacts DecFacts.

Lemma str_N_fuel_acc (fuel : nat) : forall (c : N) (acc : string),
  str_N_fuel fuel c acc = str_N_fuel fuel c "" ++ acc.
Proof.
  induction fuel as [|fuel IH]; intros c acc; simpl.
  - reflexivity.
  - destruct (c <? 10)%N; [reflexivity|].
    rewrite IH. rewrite (IH _ (String _ "")). rewrite str_app_assoc. reflexivity.
Qed.

Lemma div10_below (c : N) (k : nat) :
  (c < 10 ^ N.of_nat (S k))%N -> (c / 10 < 10 ^ N.of_nat k)%N.
Proof.
  intros Hc. apply N.Div0.div_lt_upper_bound.
  replace (N.of_nat (S k)) with (N.of_nat k + 1)%N in Hc by lia.
  rewrite pow10_succ in Hc. exact Hc.
Qed.

(** Fuel beyond the number of digits changes nothing. *)
Lemma str_N_fuel_more (fuel : nat) : forall (c : N) (acc : string),
  (c < 10 ^ N.of_nat (S fuel))%N ->
  str_N_fuel (S fuel) c acc = str_N_fuel fuel c acc.
Proof.
  induction fuel as [|fuel IH]; intros c acc Hc.
  - simpl in *. destruct (N.ltb_spec c 10); [reflexivity | lia].
  - change (str_N_fuel (S (S fuel)) c acc)
      with (if (c <? 10)%N then String (digit_char (c mod 10)) acc
            else str_N_fuel (S fuel) (c / 10) (String (digit_char (c mod 10)) acc)).
    change (str_N_fuel (S fuel) c acc)
      with (if (c <? 10)%N then String (digit_char (c mod 10)) acc
            else str_N_fuel fuel (c / 10) (String (digit_char (c mod 10)) acc)).
    destruct (c <? 10)%N; [reflexivity|].
    apply IH, div10_below, Hc.
Qed.

Lemma str_N_fuel_enough (extra : nat) : forall (fuel : nat) (c : N) (acc : string),
  (c < 10 ^ N.of_nat (S fuel))%N ->
  str_N_fuel (extra + fuel) c acc = str_N_fuel fuel c acc.
Proof.
  induction extra as [|extra IH]; intros fuel c acc Hc; [reflexivity|].
  simpl Nat.add. rewrite str_N_fuel_more.
  - apply IH, Hc.
  - apply N.lt_le_trans with (10 ^ N.of_nat (S fuel))%N; [exact Hc|].
    apply pow10_le. lia.
Qed.

Lemma size_enough (c : N) : (c < 10 ^ N.of_nat (S (N.to_nat (N.size c))))%N.
Proof.
  apply N.lt_le_trans with (2 ^ N.size c)%N; [apply N.size_gt|].
  apply N.le_trans with (10 ^ N.size c)%N.
  - apply N.pow_le_mono_l. lia.
  - apply pow10_le. lia.
Qed.

(** [str_N] with any sufficient fuel. *)
Lemma str_N_any_fuel (fuel : nat) (c : N) :
  (c < 10 ^ N.of_nat (S fuel))%N -> str_N c = str_N_fuel fuel c "".
Proof.
  intros Hc. unfold str_N.
  destruct (Nat.le_ge_cases fuel (N.to_nat (N.size c))) as [H | H].
  - replace (N.to_nat (N.size c)) with ((N.to_nat (N.size c) - fuel) + fuel)%nat by lia.
    apply str_N_fuel_enough, Hc.
  - replace fuel with ((fuel - N.to_nat (N.size c)) + N.to_nat (N.size c))%nat at 1 by lia.
    symmetry. apply str_N_fuel_enough, size_enough.
Qed.

Lemma str_N_small (c : N) :
  (c < 10)%N -> str_N c = String (digit_char c) "".
Proof.
  intros Hc. rewrite (str_N_any_fuel 0 c) by exact Hc. simpl.
  rewrite N.mod_small by exact Hc. reflexivity.
Qed.

Lemma str_N_step (c : N) :
  (10 <= c)%N -> str_N c = str_N (c / 10) ++ String (digit_char (c mod 10)) "".
Proof.
  intros Hc.
  set (g := N.to_nat (N.size (c / 10))).
  rewrite (str_N_any_fuel (S g) c).
  - simpl. destruct (N.ltb_spec c 10); [lia|].
    rewrite str_N_fuel_acc. reflexivity.
  - pose proof (size_enough (c / 10)) as H. fold g in H.
    replace (N.of_nat (S (S g))) with (N.of_nat (S g) + 1)%N by lia.
    rewrite pow10_succ. destruct (div_mod_N c 10) as [Hdm Hm]; [discriminate|].
    revert H Hdm Hm. generalize (10 ^ N.of_nat (S g))%N (c / 10)%N (c mod 10)%N. lia.
Qed.

(** *** Zero padding *)

Lemma zeros_succ (n : nat) : zeros (Z.of_nat (S n)) = String "0" (zeros (Z.of_nat n)).
Proof.
  unfold zeros. rewrite !Nat2Z.id. simpl. destruct n; reflexivity.
Qed.

Lemma zeros_end (n : nat) :
  zeros (Z.of_nat (S n)) = zeros (Z.of_nat n) ++ "0".
Proof.
  induction n as [|n IH]; [reflexivity|].
  rewrite zeros_succ, IH at 1. rewrite (zeros_succ n), app_cons. reflexivity.
Qed.

Lemma digits_zero (k : nat) : digits k 0 = zeros (Z.of_nat k).
Proof.
  induction k as [|k IH]; [reflexivity|].
  simpl digits. change (0 / 10)%N with 0%N. rewrite IH, zeros_end. reflexivity.
Qed.

Lemma ndigits_small (c : N) : (c < 10)%N -> ndigits c = 1.
Proof.
  intros Hc. pose proof (ndigits_pos c). pose proof (ndigits_le c 1 ltac:(lia) Hc). lia.
Qed.

Lemma ndigits_step (c : N) : (10 <= c)%N -> ndigits c = 1 + ndigits (c / 10).
Proof.
  intros Hc. destruct (div_mod_N c 10) as [Hdm Hm]; [discriminate|].
  assert (c / 10 <> 0)%N as Hne by lia.
  destruct (ndigits_spec (c / 10) Hne) as [H1 Hdec].
  apply ndigits_unique; [lia|].
  set (n := ndigits (c / 10)) in *.
  replace (Z.to_N n) with (Z.to_N (n - 1) + 1)%N in Hdec by lia.
  replace (Z.to_N (1 + n - 1)) with (Z.to_N (n - 1) + 1)%N by lia.
  replace (Z.to_N (1 + n)) with (Z.to_N (n - 1) + 1 + 1)%N by lia.
  apply decade_step, Hdec.
Qed.

Lemma length_str_N_below (n : nat) : forall c : N,
  (c < 10 ^ N.of_nat (S n))%N -> Z.of_nat (String.length (str_N c)) = ndigits c.
Proof.
  induction n as [|n IH]; intros c Hc.
  - rewrite str_N_small, ndigits_small by exact Hc. reflexivity.
  - destruct (N.lt_ge_cases c 10) as [Hlt | Hge].
    + rewrite str_N_small, ndigits_small by exact Hlt. reflexivity.
    + rewrite str_N_step, ndigits_step, str_app_length by exact Hge.
      rewrite Nat2Z.inj_add, IH; [simpl; lia|].
      apply div10_below, Hc.
Qed.

Lemma length_str_N (c : N) : Z.of_nat (String.length (str_N c)) = ndigits c.
Proof. apply (length_str_N_below (N.to_nat (N.size c))), size_enough. Qed.

(** The last [k] digits of a number of more than [k] digits. *)
Lemma str_N_split (k : nat) : forall c : N,
  (10 ^ N.of_nat k <= c)%N ->
  str_N c = str_N (c / 10 ^ N.of_nat k) ++ digits k (c mod 10 ^ N.of_nat k).
Proof.
  induction k as [|k IH]; intros c Hc.
  - simpl. rewrite N.div_1_r, str_app_nil_r. reflexivity.
  - replace (N.of_nat (S k)) with (N.of_nat k + 1)%N in * by lia.
    rewrite pow10_succ in *. pose proof (pow10_pos (N.of_nat k)) as HT.
    assert (10 <= c)%N as H10 by lia.
    rewrite (str_N_step c H10). simpl digits.
    rewrite (IH (c / 10)%N).
    + rewrite N.Div0.div_div, str_app_assoc. f_equal. f_equal.
      * f_equal. rewrite N.Div0.mod_mul_r.
        rewrite (N.mul_comm 10), N.div_add by discriminate.
        rewrite (N.div_small (c mod 10) 10) by (apply N.mod_lt; discriminate).
        rewrite N.add_0_l. reflexivity.
      * f_equal. f_equal. rewrite N.Div0.mod_mul_r.
        rewrite (N.mul_comm 10), N.Div0.mod_add, N.Div0.mod_mod. reflexivity.
    + apply N.div_le_lower_bound; [discriminate | exact Hc].
Qed.

(** A number of at most [k] digits, padded to [k] digits. *)
Lemma str_N_pad (k : nat) : forall c : N,
  (1 <= k)%nat -> (c < 10 ^ N.of_nat k)%N ->
  zeros (Z.of_nat k - ndigits c) ++ str_N c = digits k c.
Proof.
  induction k as [|k IH]; intros c Hk Hc; [lia|].
  simpl digits. destruct (N.lt_ge_cases c 10) as [Hlt | Hge].
  - rewrite str_N_small, ndigits_small by exact Hlt.
    rewrite N.div_small, N.mod_small, digits_zero by exact Hlt.
    replace (Z.of_nat (S k) - 1) with (Z.of_nat k) by lia. reflexivity.
  - rewrite str_N_step, ndigits_step by exact Hge.
    replace (Z.of_nat (S k) - (1 + ndigits (c / 10)))
      with (Z.of_nat k - ndigits (c / 10)) by lia.
    pose proof (div10_below c k Hc) as Hc'.
    assert (1 <= c / 10)%N as H1.
    { apply N.div_le_lower_bound; [discriminate | lia]. }
    rewrite <- str_app_assoc, IH; [reflexivity | | exact Hc'].
    destruct k; [simpl in Hc'; lia | lia].
Qed.

Lemma digit_char_not_point (n : N) :
  (n < 10)%N -> Ascii.eqb "." (digit_char n) = false.
Proof.
  intros Hn. destruct n as [|p]; [reflexivity|].
  do 4 (destruct p as [p|p|]; try lia; try reflexivity).
Qed.

Lemma digits_no_point (k : nat) : forall m : N, any (Ascii.eqb ".") (digits k m) = false.
Proof.
  induction k as [|k IH]; intros m; [reflexivity|].
  simpl digits. rewrite any_app, IH. cbn [any orb].
  rewrite digit_char_not_point by (apply N.mod_lt; discriminate). reflexivity.
Qed.

(** A written number ends with a digit. *)
Lemma str_N_last (c : N) :
  exists p, str_N c = p ++ String (digit_char (c mod 10)) "".
Proof.
  destruct (N.lt_ge_cases c 10) as [Hlt | Hge].
  - exists "". rewrite str_N_small, N.mod_small by exact Hlt. reflexivity.
  - exists (str_N (c / 10)). apply str_N_step, Hge.
Qed.

(** *** What [str] writes for a value with 1 to 6 fractional digits *)

Lemma str_fixed_point (s : bool) (r : N) (k : nat) :
  (1 <= k <= 6)%nat ->
  Dec.str (Fin s r (- Z.of_nat k))
  = (if s then "-" else "") ++ str_N (r / 10 ^ N.of_nat k)
    ++ "." ++ digits k (r mod 10 ^ N.of_nat k).
Proof.
  intros Hk. unfold Dec.str. pose proof (ndigits_pos r) as Hn.
  destruct (Z.leb_spec (- Z.of_nat k) 0); [|lia].
  destruct (Z.ltb_spec (-6) (- Z.of_nat k + ndigits r)); [|lia].
  simpl andb. cbv iota. rewrite Z.eqb_refl.
  destruct (Z.leb_spec (- Z.of_nat k + ndigits r) 0) as [Hle | Hgt].
  - assert (r < 10 ^ N.of_nat k)%N as Hr.
    { destruct (N.lt_ge_cases r (10 ^ N.of_nat k)) as [Hlt | Hge]; [exact Hlt|].
      pose proof (ndigits_gt r (Z.of_nat k) ltac:(lia)) as Hg.
      rewrite <- nat_N_Z, N2Z.id in Hg. specialize (Hg Hge). lia. }
    rewrite N.div_small, N.mod_small by exact Hr.
    replace (- (- Z.of_nat k + ndigits r)) with (Z.of_nat k - ndigits r) by lia.
    rewrite str_N_pad by (lia || exact Hr). rewrite str_app_nil_r. reflexivity.
  - assert (10 ^ N.of_nat k <= r)%N as Hr.
    { destruct (N.lt_ge_cases r (10 ^ N.of_nat k)) as [Hlt | Hge]; [|exact Hge].
      pose proof (ndigits_le r (Z.of_nat k) ltac:(lia)) as Hg.
      rewrite <- nat_N_Z, N2Z.id in Hg. specialize (Hg Hlt). lia. }
    destruct (Z.leb_spec (ndigits r) (- Z.of_nat k + ndigits r)); [lia|].
    rewrite (str_N_split k r Hr) at 1 2.
    assert (- Z.of_nat k + ndigits r
            = Z.of_nat (String.length (str_N (r / 10 ^ N.of_nat k)))) as ->.
    { rewrite length_str_N.
      assert (10 <= r)%N as H10.
      { apply N.le_trans with (10 ^ N.of_nat k)%N; [|exact Hr].
        replace 10%N with (10 ^ 1)%N at 1 by reflexivity. apply pow10_le. lia. }
      assert (r <> 0%N) as Hne by lia.
      destruct (ndigits_div_pow r (N.of_nat k) Hne) as [Hlo Hhi].
      { rewrite nat_N_Z. lia. }
      symmetry. apply ndigits_unique; [lia|].
      rewrite nat_N_Z in Hlo, Hhi.
      replace (- Z.of_nat k + ndigits r - 1) with (ndigits r - 1 - Z.of_nat k) by lia.
      replace (- Z.of_nat k + ndigits r) with (ndigits r - Z.of_nat k) by lia.
      split; assumption. }
    rewrite take_append, drop_append, str_app_nil_r. reflexivity.
Qed.

(** The written value once its trailing zeros and a trailing point are
    removed. *)
Lemma strip_fixed_point (s : bool) (r : N) (k : Z) :
  1 <= k <= 6 ->
  rstrip "." (rstrip "0" (Dec.str (Fin s r (- k)))) = fmt_text s r k.
Proof.
  intros Hk. rewrite <- (Z2Nat.id k) at 1 by lia.
  rewrite str_fixed_point by lia.
  replace (N.of_nat (Z.to_nat k)) with (Z.to_N k) by lia.
  unfold fmt_text, rstrip.
  set (F := digits (Z.to_nat k) (r mod 10 ^ Z.to_N k)).
  set (X := (if s then "-" else "") ++ str_N (r / 10 ^ Z.to_N k)).
  assert (forall z,
            (if s then "-" else "") ++ str_N (r / 10 ^ Z.to_N k) ++ z = X ++ z) as HXz.
  { intros z. symmetry. apply str_app_assoc. }
  rewrite !HXz.
  assert (any (Ascii.eqb ".") F = false) as HF by apply digits_no_point.
  pose proof (any_rstrip_by (Ascii.eqb ".") (Ascii.eqb "0") F HF) as HF'.
  assert (rstrip_by (Ascii.eqb "0") ("." ++ F) = "." ++ rstrip_by (Ascii.eqb "0") F) as Hdot.
  { change ("." ++ F) with (String "." F). simpl.
    destruct (rstrip_by (Ascii.eqb "0") F); reflexivity. }
  assert (rstrip_by (Ascii.eqb ".") X = X) as HX.
  { unfold X. destruct (str_N_last (r / 10 ^ Z.to_N k)) as [p ->].
    rewrite <- str_app_assoc.
    assert (rstrip_by (Ascii.eqb ".") (String (digit_char (r / 10 ^ Z.to_N k mod 10)) "")
            = String (digit_char (r / 10 ^ Z.to_N k mod 10)) "") as Hd.
    { cbn [rstrip_by]. rewrite digit_char_not_point by (apply N.mod_lt; discriminate).
      reflexivity. }
    rewrite rstrip_by_append_keep; rewrite Hd; [reflexivity | discriminate]. }
  rewrite (rstrip_by_append_keep _ X); rewrite Hdot; [|discriminate].
  destruct (rstrip_by (Ascii.eqb "0") F) as [|a F'] eqn:EF.
  - rewrite rstrip_by_append_drop by reflexivity. rewrite HX, str_app_nil_r. reflexivity.
  - rewrite rstrip_by_append_keep;
      rewrite (rstrip_by_append_keep _ "." (String a F'));
      rewrite (rstrip_by_none _ (String a F') HF'); try discriminate.
    reflexivity.
Qed.

End TextFacts.

(** ** The two grammars *)

Module ParseFacts.
Import Str Dec Handler StrFacts.

Lemma read_sign_space s :
  any is_space s = true -> any is_space (snd (read_sign s)) = true.
Proof.
  destruct s as [|a r]; [discriminate|]. intros H. unfold read_sign.
  destruct (Ascii.eqb_spec a "-") as [->|]; [exact H|].
  destruct (Ascii.eqb_spec a "+") as [->|]; [exact H|]. exact H.
Qed.

Lemma of_special_space sign s :
  any is_space s = true -> of_special sign s = Raise InvalidOperation.
Proof.
  intros H. unfold of_special.
  assert (any is_space (lower s) = true) as Ht.
  { unfold lower. rewrite any_map_chars; [exact H | apply lower_space]. }
  destruct (String.eqb_spec (lower s) "inf") as [E|_].
  { rewrite E in Ht. discriminate. }
  destruct (String.eqb_spec (lower s) "infinity") as [E|_].
  { rewrite E in Ht. discriminate. }
  simpl orb. cbv iota.
  assert (forall g t, any is_space t = true ->
            match drop_prefix "nan" t with
            | Some diag =>
                match span is_digit diag with
                | (_, EmptyString) => Ok (NaN sign g)
                | _ => Raise InvalidOperation
                end
            | None => Raise InvalidOperation
            end = Raise InvalidOperation) as Hnan.
  { intros g t Hsp. destruct (drop_prefix "nan" t) as [diag|] eqn:E; [|reflexivity].
    pose proof (drop_prefix_any is_space _ _ _ E eq_refl Hsp) as Hd.
    destruct (span is_digit diag) as [x y] eqn:Es.
    pose proof (any_span_rest is_space is_digit _ _ _ digit_not_space Es Hd) as Hy.
    destruct y; [discriminate | reflexivity]. }
  destruct (drop_prefix "s" (lower s)) as [r|] eqn:E.
  - apply Hnan. eapply drop_prefix_any; eauto.
  - apply Hnan. exact Ht.
Qed.

(** A string with whitespace inside is not a decimal literal. *)
Lemma of_string_space v :
  any is_space (strip v) = true -> of_string v = Raise InvalidOperation.
Proof.
  intros H. unfold of_string.
  assert (any is_space (replace "_" "" (strip v)) = true) as H0.
  { rewrite any_delete_char; [exact H | reflexivity]. }
  pose proof (read_sign_space _ H0) as H1.
  destruct (read_sign (replace "_" "" (strip v))) as [sign s]. simpl in H1.
  destruct (span is_digit s) as [intpart s1] eqn:E1.
  pose proof (any_span_rest is_space is_digit _ _ _ digit_not_space E1 H1) as H2.
  assert (exists fracpart s2,
            match s1 with
            | String a r => if Ascii.eqb a "." then span is_digit r else ("", s1)
            | EmptyString => ("", s1)
            end = (fracpart, s2) /\ any is_space s2 = true) as (fracpart & s2 & -> & H3).
  { destruct s1 as [|a r]; [discriminate|].
    destruct (Ascii.eqb_spec a ".") as [->|].
    - destruct (span is_digit r) as [x y] eqn:E. exists x, y. split; [reflexivity|].
      eapply (any_span_rest is_space is_digit); [apply digit_not_space | exact E | exact H2].
    - eauto. }
  destruct (String.eqb_spec (intpart ++ fracpart) "").
  { apply of_special_space, H1. }
  destruct s2 as [|a r]; [discriminate|].
  destruct (Ascii.eqb_spec a "e") as [->|Ha]; simpl orb.
  - cbv iota. pose proof (read_sign_space r H3) as H4.
    destruct (read_sign r) as [esign r']. simpl in H4.
    destruct (span is_digit r') as [edigits rest] eqn:E5.
    pose proof (any_span_rest is_space is_digit _ _ _ digit_not_space E5 H4) as H5.
    destruct rest; [discriminate|]. simpl. rewrite orb_true_r. reflexivity.
  - destruct (Ascii.eqb_spec a "E") as [->|Ha']; [|reflexivity].
    pose proof (read_sign_space r H3) as H4.
    destruct (read_sign r) as [esign r']. simpl in H4.
    destruct (span is_digit r') as [edigits rest] eqn:E5.
    pose proof (any_span_rest is_space is_digit _ _ _ digit_not_space E5 H4) as H5.
    destruct rest; [discriminate|]. simpl. rewrite orb_true_r. reflexivity.
Qed.


Lemma spaces1_inv s r :
  spaces1 s = Some r ->
  exists w ws, s = String w (ws ++ r) /\ is_space w = true.
Proof.
  unfold spaces1. destruct (span is_space s) as [x y] eqn:E.
  destruct x as [|w ws]; [discriminate|]. intros H. injection H as ->.
  exists w, ws. split.
  - apply span_eq in E. exact E.
  - apply span_all in E. simpl in E. apply orb_false_iff in E as [E _].
    apply negb_false_iff in E. exact E.
Qed.

Lemma three_letters_inv s f r :
  three_letters s = Some (f, r) ->
  exists a rest, s = String a rest /\ is_alpha a = true.
Proof.
  unfold three_letters. destruct s as [|a [|b [|c s]]]; try discriminate.
  destruct (is_alpha a) eqn:Ea; [|discriminate]. intros _. eauto.
Qed.

Lemma subst_comma_space a : is_space (subst_char "," "." a) = is_space a.
Proof.
  unfold subst_char. destruct (Ascii.eqb_spec "," a) as [<-|]; reflexivity.
Qed.

(** A text of the explicit grammar has whitespace inside. *)
Lemma REQ_RE_inner_space text g :
  REQ_RE_match text = Some g -> inner_space (lstrip_by is_space text) = true.
Proof.
  unfold REQ_RE_match. generalize (lstrip_by is_space text). intros s0.
  assert (exists sign s1,
    match s0 with
    | String a r =>
        if (Ascii.eqb a "-" || Ascii.eqb a "+")%char
        then (String a EmptyString, r) else ("", s0)
    | EmptyString => ("", s0)
    end = (sign, s1) /\ s0 = sign ++ s1) as (sign & s1 & -> & ->).
  { destruct s0 as [|a r]; [exists "", ""; auto|].
    destruct (Ascii.eqb a "-" || Ascii.eqb a "+")%char; eauto. }
  destruct (span is_digit s1) as [intpart s2] eqn:E1.
  apply span_eq in E1 as ->.
  destruct (String.eqb intpart ""); [discriminate|].
  assert (exists frac s3,
    match s2 with
    | String sep r =>
        if (Ascii.eqb sep "." || Ascii.eqb sep ",")%char then
          match span is_digit r with
          | (EmptyString, _) => ("", s2)
          | (digits, r') => (String sep digits, r')
          end
        else ("", s2)
    | EmptyString => ("", s2)
    end = (frac, s3) /\ s2 = frac ++ s3) as (frac & s3 & -> & ->).
  { destruct s2 as [|sep r]; [exists "", ""; auto|].
    destruct (Ascii.eqb sep "." || Ascii.eqb sep ",")%char; [|eauto].
    destruct (span is_digit r) as [x y] eqn:E. destruct x as [|d x]; [eauto|].
    apply span_eq in E as ->. eauto. }
  destruct (spaces1 s3) as [s4|] eqn:E3; [|discriminate].
  simpl mbind. unfold option_bind at 1.
  destruct (three_letters s4) as [[cur_from s5]|] eqn:E4; [|discriminate].
  intros _.
  apply spaces1_inv in E3 as (w & ws & -> & Hw).
  apply three_letters_inv in E4 as (a & rest & -> & Ha).
  do 3 apply inner_space_app. simpl. rewrite Hw. simpl.
  rewrite any_app. simpl. unfold not_space at 2.
  rewrite (alpha_not_space a Ha). simpl. rewrite orb_true_r. reflexivity.
Qed.

Lemma explicit_is_not_a_number text g :
  REQ_RE_match text = Some g ->
  of_string (replace "," "." text) = Raise InvalidOperation.
Proof.
  intros H. apply of_string_space.
  rewrite replace_char, strip_map_chars by apply subst_comma_space.
  rewrite any_map_chars by apply subst_comma_space.
  unfold strip. apply rstrip_inner_space. eapply REQ_RE_inner_space, H.
Qed.

(** The explicit grammar is reached exactly by the texts it matches: the
    bare-number attempt raises on them. *)
Lemma parse_explicit text g :
  REQ_RE_match text = Some g -> parse text = explicit text.
Proof.
  intros H. unfold parse, quick. rewrite (explicit_is_not_a_number text g H).
  reflexivity.
Qed.

Lemma bare_number_not_explicit text d :
  of_string (replace "," "." text) = Ok d -> REQ_RE_match text = None.
Proof.
  intros H. destruct (REQ_RE_match text) as [g|] eqn:E; [|reflexivity].
  rewrite (explicit_is_not_a_number text g E) in H. discriminate.
Qed.

End ParseFacts.

(** ** Formatting *)

Module FmtFacts.
Import Dec Handler Spec DecFacts TextFacts.

Lemma fmt_finite (s : bool) (c : N) (e : Z) :
  fmt (Fin s c e) =
    let k := fmt_digits s c e in
    let r := half_up c (e + k) in
    if (r <? 10 ^ 28)%N
    then Ok (Str.rstrip "." (Str.rstrip "0" (Dec.str (Fin s r (- k)))))
    else Raise InvalidOperation.
Proof.
  unfold fmt, fmt_digits. rewrite ge_one. simpl mbind. unfold result_bind at 1.
  destruct (negb s && (10 ^ Z.to_N (- e) <=? c)%N).
  - rewrite quantize_half_up by (unfold Etiny, Emin, prec; lia).
    replace (e - -2) with (e + 2) by lia. simpl.
    destruct (half_up c (e + 2) <? 10 ^ 28)%N; reflexivity.
  - rewrite quantize_half_up by (unfold Etiny, Emin, prec; lia).
    replace (e - -6) with (e + 6) by lia. simpl.
    destruct (half_up c (e + 6) <? 10 ^ 28)%N; reflexivity.
Qed.

(** C3 (as amended): [fmt] rounds a finite decimal to 2 fractional digits
    when the value itself, with its sign, is at least 1, and to 6
    fractional digits otherwise (so every negative value gets 6); the
    rounding is to the nearest multiple of the unit, halves away from
    zero; the answer is the sign, the integer part of the rounded value
    and, when its fraction is not zero, a point and the fraction without
    its trailing zeros; a value whose rounded coefficient needs more than
    28 digits, an infinity or a NaN raises InvalidOperation. *)
Theorem fmt_rounds_half_up :
  (forall (s : bool) (c : N) (e : Z),
      fmt (Fin s c e) =
        let k := fmt_digits s c e in
        let r := half_up c (e + k) in
        if (r <? 10 ^ 28)%N then Ok (fmt_text s r k) else Raise InvalidOperation)
  /\ (forall (c : N) (p : positive),
        (2 * half_up c (Z.neg p) * 10 ^ N.pos p <= 2 * c + 10 ^ N.pos p
         /\ 2 * c + 10 ^ N.pos p < 2 * (half_up c (Z.neg p) + 1) * 10 ^ N.pos p)%N)
  /\ (forall (c n : N), half_up c (Z.of_N n) = (c * 10 ^ n)%N)
  /\ (forall s, fmt (Inf s) = Raise InvalidOperation)
  /\ (forall s g, fmt (NaN s g) = Raise InvalidOperation)
  /\ (d ← of_string "3.005"; fmt d) = Ok "3.01"
  /\ (d ← of_string "0.1234567"; fmt d) = Ok "0.123457"
  /\ (d ← of_string "5.00"; fmt d) = Ok "5"
  /\ (d ← of_string "-5.125"; fmt d) = Ok "-5.125"
  /\ (d ← of_string "5.125"; fmt d) = Ok "5.13".
Proof.
  split.
  { intros s c e. rewrite fmt_finite. cbv zeta.
    rewrite strip_fixed_point; [reflexivity|].
    unfold fmt_digits. destruct (negb s && (10 ^ Z.to_N (- e) <=? c)%N); lia. }
  split.
  { intros c p. pose proof (half_up_nearest c (Z.neg p) ltac:(lia)) as H.
    replace (Z.to_N (- Z.neg p)) with (N.pos p) in H by lia. exact H. }
  split.
  { intros c n. unfold half_up. destruct (Z.leb_spec 0 (Z.of_N n)); [|lia].
    rewrite N2Z.id. reflexivity. }
  split; [intros []; reflexivity|].
  split; [intros [] []; reflexivity|].
  repeat split; vm_compute; reflexivity.
Qed.

End FmtFacts.

(** ** The cache *)

Module CacheFacts.
Import Clock Cache.

Lemma date_gt_later (a b : date) : date_gt a b = true <-> later_day a b.
Proof.
  unfold date_gt, date_compare, later_day.
  destruct (Z.compare_spec (year a) (year b));
    destruct (Z.compare_spec (month a) (month b));
    destruct (Z.compare_spec (day a) (day b));
    split; intros; try discriminate; try reflexivity; lia.
Qed.

Lemma time_compare_us (a b : time) :
  valid_time a -> valid_time b ->
  time_compare a b = (us_of_day a ?= us_of_day b).
Proof.
  unfold valid_time, time_compare, us_of_day. intros Ha Hb.
  destruct (Z.compare_spec (hour a) (hour b));
    destruct (Z.compare_spec (minute a) (minute b));
    destruct (Z.compare_spec (second a) (second b));
    destruct (Z.compare_spec (microsecond a) (microsecond b));
    symmetry;
    first [ apply Z.compare_eq_iff | apply Z.compare_lt_iff | apply Z.compare_gt_iff ];
    nia.
Qed.

Lemma time_gt_us (a b : time) :
  valid_time a -> valid_time b ->
  time_gt a b = true <-> us_of_day b < us_of_day a.
Proof.
  intros Ha Hb. unfold time_gt. rewrite time_compare_us by assumption.
  destruct (Z.compare_spec (us_of_day a) (us_of_day b));
    split; intros; try discriminate; try reflexivity; lia.
Qed.

Lemma time_lt_us (a b : time) :
  valid_time a -> valid_time b ->
  time_lt a b = true <-> us_of_day a < us_of_day b.
Proof.
  intros Ha Hb. unfold time_lt. rewrite time_compare_us by assumption.
  destruct (Z.compare_spec (us_of_day a) (us_of_day b));
    split; intros; try discriminate; try reflexivity; lia.
Qed.

Lemma valid_cutoff : valid_time cutoff.
Proof. unfold valid_time, cutoff; simpl; lia. Qed.

(** The cache is well formed at start-up and every refresh keeps it so. *)
Lemma cache_wf_initial : cache_wf initial.
Proof. exact I. Qed.

Lemma cache_wf_count_fetch s : cache_wf s -> cache_wf (count_fetch s).
Proof. unfold cache_wf, count_fetch; simpl; auto. Qed.

Lemma cache_wf_refresh w s : cache_wf s -> cache_wf (refresh w s).
Proof.
  intros Hs. unfold refresh.
  destruct (resp w) as [|status [data|]]; try assumption;
    destruct (status =? 200); try assumption.
  destruct (build_table data ∅); try assumption.
  unfold cache_wf, store; simpl. rewrite length_app; simpl. split; [lia | eauto].
Qed.

Lemma cache_wf_get_rates w s : cache_wf s -> cache_wf (snd (get_rates w s)).
Proof.
  intros Hs. unfold get_rates.
  destruct (is_cache_expired (now_check w) s) as [[|]|]; simpl; try assumption.
  apply cache_wf_refresh, cache_wf_count_fetch, Hs.
Qed.

(** With a well-formed cache the staleness test never raises. *)
Lemma is_cache_expired_total now s :
  cache_wf s -> exists b, is_cache_expired now s = Ok b.
Proof.
  unfold cache_wf, is_cache_expired, truthy. intros Hs.
  destruct (cache_data s) as [l|]; simpl; [|eauto].
  destruct Hs as [Hl [last Hlast]]. rewrite Hlast.
  destruct (heap s !! l); simpl; [|eauto].
  destruct (negb (negb (bool_decide (g = ∅)))); [eauto|].
  destruct (date_gt _ _); [eauto|].
  destruct (time_gt _ _ && time_lt _ _); eauto.
Qed.

Lemma refresh_fails w s : fetch_fails (resp w) -> refresh w s = s.
Proof.
  unfold fetch_fails, refresh.
  destruct (resp w) as [|status body]; [reflexivity|].
  destruct (Z.eqb_spec status 200) as [->|Hne]; [|reflexivity].
  intros [H | H]; [contradiction|].
  destruct body as [data|]; [|reflexivity].
  destruct H as [e ->]. reflexivity.
Qed.

(** C2 (as amended): the staleness test answers true exactly when no
    non-empty table is cached, or today is a later day than the day of the
    last fetch, or the time of day is strictly after 11:05:00.000000 while
    the last fetch was strictly before it; otherwise it answers false. *)
Theorem is_cache_expired_exactly (now : datetime) (s : state) :
  cache_wf s ->
  valid_time (dt_time now) ->
  (forall last, cache_last_date s = Some last -> valid_time (dt_time last)) ->
  exists b, is_cache_expired now s = Ok b /\
    (b = true <->
       truthy (heap s) (cache_data s) = false
       \/ exists last, cache_last_date s = Some last /\
            (later_day (dt_date now) (dt_date last)
             \/ (us_of_day cutoff < us_of_day (dt_time now)
                 /\ us_of_day (dt_time last) < us_of_day cutoff))).
Proof.
  intros Hwf Hnow Hlast. unfold is_cache_expired.
  destruct (truthy (heap s) (cache_data s)) eqn:Ht; simpl.
  2:{ exists true. split; [reflexivity|]. split; auto. }
  assert (exists last, cache_last_date s = Some last) as [last Hl].
  { unfold truthy in Ht. unfold cache_wf in Hwf.
    destruct (cache_data s); [|discriminate]. destruct Hwf as [_ [x Hx]]. eauto. }
  rewrite Hl. specialize (Hlast _ Hl).
  pose proof (date_gt_later (dt_date now) (dt_date last)) as Hd.
  pose proof (time_gt_us (dt_time now) cutoff Hnow valid_cutoff) as Hg.
  pose proof (time_lt_us (dt_time last) cutoff Hlast valid_cutoff) as Hlt.
  destruct (date_gt (dt_date now) (dt_date last)).
  { exists true. split; [reflexivity|]. split; [|reflexivity].
    intros _. right. exists last. split; [reflexivity|]. left. apply Hd. reflexivity. }
  destruct (time_gt (dt_time now) cutoff); simpl.
  - destruct (time_lt (dt_time last) cutoff).
    + exists true. split; [reflexivity|]. split; [|reflexivity].
      intros _. right. exists last. split; [reflexivity|]. right.
      split; [apply Hg | apply Hlt]; reflexivity.
    + exists false. split; [reflexivity|]. split; [discriminate|].
      intros [H | [last' [Heq [H | [_ H]]]]]; try discriminate;
        injection Heq as <-.
      * apply Hd in H. discriminate.
      * apply Hlt in H. discriminate.
  - exists false. split; [reflexivity|]. split; [discriminate|].
    intros [H | [last' [Heq [H | [H _]]]]]; try discriminate;
      injection Heq as <-.
    + apply Hd in H. discriminate.
    + apply Hg in H. discriminate.
Qed.

(** C4: a failed fetch leaves the cached table, its time stamp and the
    heap as they were, raises nothing, and [get_rates] returns the
    previous table, or [None] when there is none. *)
Theorem get_rates_failed_fetch (w : world) (s : state) :
  cache_wf s ->
  fetch_fails (resp w) ->
  fst (get_rates w s) = Ok (cache_data s)
  /\ cache_data (snd (get_rates w s)) = cache_data s
  /\ cache_last_date (snd (get_rates w s)) = cache_last_date s
  /\ heap (snd (get_rates w s)) = heap s.
Proof.
  intros Hwf Hf. unfold get_rates.
  destruct (is_cache_expired_total (now_check w) s Hwf) as [b ->].
  destruct b; simpl; [|auto].
  rewrite refresh_fails by assumption. simpl. auto.
Qed.

End CacheFacts.
Module CacheExamples.
Import Clock Cache Sample CacheFacts.

(** The staleness examples of the specification. *)
Example stale_after_midnight :
  is_cache_expired (at_ today 0 1) (fetched (at_ yesterday 23 0)) = Ok true.
Proof. reflexivity. Qed.

Example stale_after_cutoff :
  is_cache_expired (at_ today 11 10) (fetched (at_ today 10 0)) = Ok true.
Proof. reflexivity. Qed.

Example fresh_in_the_evening :
  is_cache_expired (at_ today 23 0) (fetched (at_ today 11 10)) = Ok false.
Proof. reflexivity. Qed.

Example stale_when_empty :
  is_cache_expired (at_ today 10 0) initial = Ok true.
Proof. reflexivity. Qed.

(** An empty table counts as no table. *)
Example stale_when_table_empty :
  is_cache_expired (at_ today 10 1)
    (snd (get_rates (World (at_ today 10 0) (Response 200 (Some [])) (at_ today 10 0))
                    initial)) = Ok true.
Proof. reflexivity. Qed.

(** C2, counterexample: with the last fetch today at 10:00 and the clock
    at exactly 11:05:00 the code finds the cache fresh, where the rule
    "at or past 11:05" makes it stale. *)
Lemma fresh_at_the_cutoff_instant :
  is_cache_expired (at_ today 11 5) (fetched (at_ today 10 0)) = Ok false
  /\ Spec.stale (at_ today 11 5) (fetched (at_ today 10 0)) = true.
Proof. split; reflexivity. Qed.

Example stale_one_microsecond_later :
  is_cache_expired (Datetime today (Time 11 5 0 1)) (fetched (at_ today 10 0)) = Ok true.
Proof. reflexivity. Qed.

Lemma cache_wf_fetched now : cache_wf (fetched now).
Proof. apply cache_wf_get_rates, cache_wf_initial. Qed.

Lemma is_cache_expired_exactly_witness :
  exists b, is_cache_expired (at_ today 11 10) (fetched (at_ today 10 0)) = Ok b /\
    (b = true <->
       truthy (heap (fetched (at_ today 10 0))) (cache_data (fetched (at_ today 10 0))) = false
       \/ exists last, cache_last_date (fetched (at_ today 10 0)) = Some last /\
            (later_day (dt_date (at_ today 11 10)) (dt_date last)
             \/ (us_of_day cutoff < us_of_day (dt_time (at_ today 11 10))
                 /\ us_of_day (dt_time last) < us_of_day cutoff))).
Proof.
  apply is_cache_expired_exactly.
  - apply cache_wf_fetched.
  - unfold valid_time; simpl; lia.
  - intros last H. injection H as <-. unfold valid_time; simpl; lia.
Defined.

Lemma get_rates_failed_fetch_witness :
  fst (get_rates (down (at_ today 11 10)) (fetched (at_ today 10 0)))
    = Ok (cache_data (fetched (at_ today 10 0)))
  /\ cache_data (snd (get_rates (down (at_ today 11 10)) (fetched (at_ today 10 0))))
     = cache_data (fetched (at_ today 10 0))
  /\ cache_last_date (snd (get_rates (down (at_ today 11 10)) (fetched (at_ today 10 0))))
     = cache_last_date (fetched (at_ today 10 0))
  /\ heap (snd (get_rates (down (at_ today 11 10)) (fetched (at_ today 10 0))))
     = heap (fetched (at_ today 10 0)).
Proof.
  apply get_rates_failed_fetch.
  - apply cache_wf_fetched.
  - exact I.
Defined.

(** Without a previous table a failed fetch returns [None]. *)
Example failed_fetch_without_table :
  get_rates (World (at_ today 9 0) (Response 503 None) (at_ today 9 0)) initial
  = (Ok None, State [] None None 1).
Proof. reflexivity. Qed.

End CacheExamples.

(** ** The handlers *)

Module HandlerFacts.
Import Str Dec Clock Cache Handler Spec StrFacts DecFacts ParseFacts FmtFacts CacheFacts.

Lemma bind_Ok {A B : Type} (a : A) (f : A -> result B) : (Ok a ≫= f) = f a.
Proof. reflexivity. Qed.

Lemma bind_Raise {A B : Type} (x : exn) (f : A -> result B) :
  (Raise x ≫= f) = Raise x.
Proof. reflexivity. Qed.

Lemma eq_zero (s : bool) (c : N) (e : Z) :
  Dec.eq (Fin s c e) (of_Z 0) = Ok (c =? 0)%N.
Proof.
  unfold Dec.eq, cmp. change (of_Z 0) with (Fin false 0 0). simpl.
  destruct (c =? 0)%N; [reflexivity|]. destruct s; reflexivity.
Qed.

Lemma gt_zero (s : bool) (c : N) (e : Z) :
  c <> 0%N -> Dec.gt (Fin s c e) (of_Z 0) = Ok (negb s).
Proof.
  intros Hc. unfold Dec.gt, cmp. change (of_Z 0) with (Fin false 0 0). simpl.
  destruct (N.eqb_spec c 0); [contradiction|]. destruct s; reflexivity.
Qed.

Lemma quick_finite (text : string) (s : bool) (c : N) (e : Z) :
  of_string (replace "," "." text) = Ok (Fin s c e) ->
  quick text =
    if (c =? 0)%N then Ok ZeroAmount
    else if s then
      match fix_ (Fin false c e) with
      | Ok a => Ok (Request "RUB" "BYN" a)
      | Raise x => Raise x
      end
    else Ok (Request "BYN" "RUB" (Fin s c e)).
Proof.
  intros H. unfold quick. rewrite H, bind_Ok, eq_zero, bind_Ok.
  destruct (N.eqb_spec c 0) as [->|Hc]; [reflexivity|].
  rewrite gt_zero, bind_Ok by exact Hc.
  destruct s; [|reflexivity]. cbv [negb]. cbv iota. unfold Dec.abs.
  destruct (fix_ (Fin false c e)); reflexivity.
Qed.

(** [_fix] raises for a value of 10^(Emax+1) or more, and returns for every
    value below 10^Emax. *)
Lemma fix_overflow (s : bool) (c : N) (e : Z) :
  c <> 0%N -> Emax < adjusted c e -> fix_ (Fin s c e) = Raise Overflow.
Proof.
  intros Hc Hadj. unfold fix_. destruct (N.eqb_spec c 0); [contradiction|].
  destruct (Z.ltb_spec Etop (ndigits c + e - prec)); [reflexivity|].
  unfold adjusted, Etop, Emax, prec in *. lia.
Qed.

Lemma fix_returns (s : bool) (c : N) (e : Z) :
  adjusted c e < Emax -> exists a, fix_ (Fin s c e) = Ok a.
Proof.
  intros Hadj. unfold fix_. destruct (c =? 0)%N; [eauto|].
  destruct (Z.ltb_spec Etop (ndigits c + e - prec)) as [H|H0].
  { unfold adjusted, Etop, Emax, prec in *. lia. }
  cbv zeta.
  assert (Z.max (ndigits c + e - prec) Etiny < Etop) as Hm.
  { unfold adjusted, Etop, Etiny, Emin, Emax, prec in *. lia. }
  destruct (e <? Z.max (ndigits c + e - prec) Etiny); [|eauto].
  destruct (ndigits c + e - Z.max (ndigits c + e - prec) Etiny <? 0).
  - destruct (0 <? round_half_even 1 _).
    + destruct (prec <? ndigits _).
      * destruct (Z.ltb_spec Etop (Z.max (ndigits c + e - prec) Etiny + 1)); [lia | eauto].
      * destruct (Z.ltb_spec Etop (Z.max (ndigits c + e - prec) Etiny)); [lia | eauto].
    + destruct (Z.ltb_spec Etop (Z.max (ndigits c + e - prec) Etiny)); [lia | eauto].
  - destruct (0 <? round_half_even c _).
    + destruct (prec <? ndigits _).
      * destruct (Z.ltb_spec Etop (Z.max (ndigits c + e - prec) Etiny + 1)); [lia | eauto].
      * destruct (Z.ltb_spec Etop (Z.max (ndigits c + e - prec) Etiny)); [lia | eauto].
    + destruct (Z.ltb_spec Etop (Z.max (ndigits c + e - prec) Etiny)); [lia | eauto].
Qed.

(** C6 (as amended): a text of ASCII characters that reads as one finite
    decimal number is rejected when the number is zero, becomes a request
    from BYN to RUB when it is positive, and a request from RUB to BYN
    when it is negative, with the absolute value as the decimal context
    rounds it to 28 significant digits ([_fix]); the absolute value is
    exact when the number has at most 28 digits and its exponent is in
    the context's range.  A negative number below 10^999999 in magnitude
    always becomes such a request; for one of 10^1000000 or more,
    rounding the absolute value overflows, the exception is caught and
    the text is answered with the usage message. *)
Theorem bare_number_grammar (text : string) (s : bool) (c : N) (e : Z) :
  Grammar.ascii_text text = true ->
  of_string (replace "," "." text) = Ok (Fin s c e) ->
  parse text =
    Ok (if (c =? 0)%N then ZeroAmount
        else if s then
          match fix_ (Fin false c e) with
          | Ok a => Request "RUB" "BYN" a
          | Raise _ => Usage
          end
        else Request "BYN" "RUB" (Fin s c e))
  /\ (ndigits c <= prec -> Etiny <= e -> e + ndigits c - 1 <= Emax ->
      parse text = Ok (bare_number (Fin s c e)))
  /\ (s = true -> c <> 0%N -> adjusted c e < Emax ->
      exists a, fix_ (Fin false c e) = Ok a /\ parse text = Ok (Request "RUB" "BYN" a))
  /\ (s = true -> c <> 0%N -> Emax < adjusted c e -> parse text = Ok Usage).
Proof.
  intros _ H.
  assert (parse text =
    Ok (if (c =? 0)%N then ZeroAmount
        else if s then
          match fix_ (Fin false c e) with
          | Ok a => Request "RUB" "BYN" a
          | Raise _ => Usage
          end
        else Request "BYN" "RUB" (Fin s c e))) as Hparse.
  { unfold parse. rewrite (quick_finite text s c e H).
    destruct (c =? 0)%N; [reflexivity|]. destruct s; [|reflexivity].
    destruct (fix_ (Fin false c e)); [reflexivity|].
    unfold explicit. rewrite (bare_number_not_explicit text _ H). reflexivity. }
  split; [exact Hparse|]. split; [|split].
  - intros Hnd Hlo Hhi. rewrite Hparse. unfold bare_number.
    destruct (c =? 0)%N; [reflexivity|]. destruct s; [|reflexivity].
    rewrite fix_id by assumption. reflexivity.
  - intros -> Hc Hadj. destruct (fix_returns false c e Hadj) as [a Ha].
    exists a. split; [exact Ha|]. rewrite Hparse, Ha.
    destruct (N.eqb_spec c 0); [contradiction | reflexivity].
  - intros -> Hc Hadj. rewrite Hparse, (fix_overflow false c e Hc Hadj).
    destruct (N.eqb_spec c 0); [contradiction | reflexivity].
Qed.

(** *** The handler on a parsed request *)

Lemma truthy_lookup (h : list table) (l : ref) (t : table) :
  h !! l = Some t -> t <> ∅ -> truthy h (Some l) = true.
Proof.
  intros Hl Ht. unfold truthy. rewrite Hl.
  rewrite bool_decide_eq_false_2 by exact Ht. reflexivity.
Qed.

Lemma truthy_inv (h : list table) (rates : option ref) :
  truthy h rates = true -> exists l t, rates = Some l /\ h !! l = Some t /\ t <> ∅.
Proof.
  unfold truthy. destruct rates as [l|]; [|discriminate].
  destruct (h !! l) as [t|] eqn:E; [|discriminate]. intros H.
  exists l, t. split; [reflexivity|]. split; [exact E|].
  intros ->. rewrite bool_decide_eq_true_2 in H by reflexivity.
  discriminate.
Qed.

Lemma heap_set_item (l : ref) (key : string) (v : rate_record) (s : state) (t : table) :
  heap s !! l = Some t ->
  heap (set_item l key v s) !! l = Some (<[key := v]> t).
Proof.
  intros H. unfold set_item. cbn [heap]. rewrite list_lookup_alter_eq, H. reflexivity.
Qed.

(** The handler once the text is parsed to a request for two different
    codes and a non-empty table is at hand. *)
Lemma convert_handler_lookup message_text cur_from cur_to amount w s s1 l t :
  strip (replace "/convert" "" message_text) <> "" ->
  parse (strip (replace "/convert" "" message_text)) = Ok (Request cur_from cur_to amount) ->
  cur_from <> cur_to ->
  get_rates w s = (Ok (Some l), s1) ->
  heap s1 !! l = Some t -> t <> ∅ ->
  convert_handler message_text w s =
    (conversion (<["BYN" := base_record]> t) cur_from cur_to amount,
     set_item l "BYN" base_record s1).
Proof.
  intros Htext Hparse Hne Hget Hl Ht. unfold convert_handler.
  destruct (String.eqb_spec (strip (replace "/convert" "" message_text)) "");
    [contradiction|].
  rewrite Hparse. destruct (String.eqb_spec cur_from cur_to); [contradiction|].
  rewrite Hget. rewrite (truthy_lookup _ _ _ Hl Ht).
  rewrite (heap_set_item _ _ _ _ _ Hl). reflexivity.
Qed.

(** The handler's arithmetic is that of the formulas, each operation in
    the decimal context. *)
Lemma conversion_spec (rates : table) cur_from cur_to amount :
  is_Some (rates !! cur_from) -> is_Some (rates !! cur_to) ->
  conversion rates cur_from cur_to amount =
    (res ← convertedAmount rates amount cur_from cur_to;
     a ← fmt amount;
     b ← fmt res;
     rate ← crossRate rates cur_from cur_to;
     c ← fmt rate;
     Ok (ReplyConverted a cur_from b cur_to c)).
Proof.
  intros [rf Hf] [rt Ht]. unfold conversion, convertedAmount, crossRate, unitValue.
  rewrite Hf, Ht. fold (unit_value rf). fold (unit_value rt).
  unfold convert.
  destruct (unit_value rf) as [vf|]; [|reflexivity]. rewrite !bind_Ok.
  destruct (unit_value rt) as [vt|]; [|reflexivity]. rewrite !bind_Ok.
  destruct (mul amount vf) as [p|]; [|reflexivity]. rewrite !bind_Ok.
  destruct (div p vt) as [res|]; reflexivity.
Qed.

(** *** The formatter on small and on zero values *)

Lemma fmt_digits_cases s c e : fmt_digits s c e = 2 \/ fmt_digits s c e = 6.
Proof. unfold fmt_digits. destruct (negb s && _); auto. Qed.

(** [fmt] returns for every finite value below 10^21 in magnitude. *)
Lemma fmt_total (s : bool) (c : N) (e : Z) :
  ndigits c + e <= 21 -> exists a, fmt (Fin s c e) = Ok a.
Proof.
  intros H. rewrite fmt_finite. cbv zeta.
  assert (half_up c (e + fmt_digits s c e) <= 10 ^ 27)%N as Hr.
  { apply (half_up_upper c (e + fmt_digits s c e) 27); [lia|].
    destruct (fmt_digits_cases s c e) as [-> | ->]; lia. }
  assert (10 ^ 27 < 10 ^ 28)%N as Hp by (apply pow10_lt; lia).
  destruct (N.ltb_spec (half_up c (e + fmt_digits s c e)) (10 ^ 28)); [eauto | lia].
Qed.

Lemma fmt_zero (s : bool) (e : Z) :
  fmt (Fin s 0 e) = Ok (if s then "-0" else "0").
Proof.
  rewrite fmt_finite. cbv zeta.
  assert (fmt_digits s 0 e = 6) as ->.
  { unfold fmt_digits. pose proof (pow10_pos (Z.to_N (- e))).
    destruct (N.leb_spec (10 ^ Z.to_N (- e)) 0); [lia|].
    rewrite andb_false_r. reflexivity. }
  rewrite half_up_zero. destruct s; vm_compute; reflexivity.
Qed.

Lemma fix_zero (s : bool) (e : Z) : exists e', fix_ (Fin s 0 e) = Ok (Fin s 0 e').
Proof. eexists. reflexivity. Qed.

(** Converting the amount zero with finite unit values, the target's not
    zero, gives a zero. *)
Lemma convert_of_zero (sf : bool) (cf : N) (ef : Z) (st : bool) (ct : N) (et : Z)
    (sg : bool) (e : Z) :
  ct <> 0%N ->
  exists er, convert (Fin sf cf ef) (Fin st ct et) (Fin sg 0 e)
             = Ok (Fin (xorb (xorb sg sf) st) 0 er).
Proof.
  intros Hct. unfold convert, mul. simpl check_nans. cbv iota.
  replace (0 * cf)%N with 0%N by lia.
  destruct (fix_zero (xorb sg sf) (e + ef)) as [e1 ->]. rewrite bind_Ok.
  unfold div. simpl check_nans. cbv iota.
  destruct (N.eqb_spec ct 0); [contradiction|].
  change (0 =? 0)%N with true. cbv iota.
  destruct (fix_zero (xorb (xorb sg sf) st) (e1 - et)) as [e2 ->]. eauto.
Qed.

Lemma REQ_RE_nonempty text g : REQ_RE_match text = Some g -> text <> "".
Proof. intros H ->. discriminate. Qed.

(** The handler on a text of the explicit grammar. *)
Lemma parse_explicit_request text amount cur_from cur_to d :
  REQ_RE_match text = Some (amount, cur_from, cur_to) ->
  of_string (replace "," "." amount) = Ok d ->
  parse text = Ok (Request (upper cur_from) (upper cur_to) d).
Proof.
  intros Hm Hd. rewrite (parse_explicit text _ Hm). unfold explicit.
  rewrite Hm, Hd. reflexivity.
Qed.

(** C7 (as amended): a request of the explicit grammar whose two codes are
    equal is answered from the amount alone: the cache, the heap and the
    count of requests sent are untouched, whatever the cache holds and
    whether or not the code is a currency; the answer is the formatted
    amount in that currency whenever [fmt] returns, which it does for
    every finite amount below 10^21 in magnitude. *)
Theorem equal_codes_shortcut message_text amount cur_from cur_to d w s :
  REQ_RE_match (strip (replace "/convert" "" message_text))
    = Some (amount, cur_from, cur_to) ->
  of_string (replace "," "." amount) = Ok d ->
  upper cur_from = upper cur_to ->
  convert_handler message_text w s
    = (a ← fmt d; Ok (ReplySame a (upper cur_to)), s)
  /\ (forall sg c e, d = Fin sg c e -> ndigits c + e <= 21 ->
        exists a, convert_handler message_text w s
                  = (Ok (ReplySame a (upper cur_to)), s)).
Proof.
  intros Hm Hd Heq.
  assert (convert_handler message_text w s
          = (a ← fmt d; Ok (ReplySame a (upper cur_to)), s)) as Hh.
  { unfold convert_handler.
    destruct (String.eqb_spec (strip (replace "/convert" "" message_text)) "") as [E|_].
    { exfalso. eapply REQ_RE_nonempty; eauto. }
    rewrite (parse_explicit_request _ _ _ _ _ Hm Hd). rewrite Heq.
    rewrite String.eqb_refl. reflexivity. }
  split; [exact Hh|].
  intros sg c e -> Hsmall. destruct (fmt_total sg c e Hsmall) as [a Ha].
  exists a. rewrite Hh, Ha. reflexivity.
Qed.

(** The handler keeps the cache well formed. *)
Lemma cache_wf_set_item l key v s : cache_wf s -> cache_wf (set_item l key v s).
Proof.
  unfold cache_wf, set_item. simpl. destruct (cache_data s); [|auto].
  rewrite length_alter. auto.
Qed.

Lemma cache_wf_convert_handler message_text w s :
  cache_wf s -> cache_wf (snd (convert_handler message_text w s)).
Proof.
  intros Hs. unfold convert_handler.
  destruct (String.eqb _ ""); [exact Hs|].
  destruct (parse _) as [[| |cur_from cur_to amount]|]; try exact Hs.
  destruct (String.eqb cur_from cur_to); [exact Hs|].
  pose proof (cache_wf_get_rates w s Hs) as Hs1.
  destruct (get_rates w s) as [[rates|] s1]; simpl in Hs1; [|exact Hs1].
  destruct rates as [l|]; [|exact Hs1].
  destruct (truthy (heap s1) (Some l)); [|exact Hs1].
  pose proof (cache_wf_set_item l "BYN" base_record s1 Hs1) as Hs2.
  destruct (heap (set_item l "BYN" base_record s1) !! l); exact Hs2.
Qed.

(** Every cross-currency request that finds a table writes the record for
    BYN into the cached table itself. *)
Lemma convert_handler_writes_cache message_text cur_from cur_to amount w s s1 l t :
  strip (replace "/convert" "" message_text) <> "" ->
  parse (strip (replace "/convert" "" message_text)) = Ok (Request cur_from cur_to amount) ->
  cur_from <> cur_to ->
  get_rates w s = (Ok (Some l), s1) ->
  heap s1 !! l = Some t -> t <> ∅ ->
  let s2 := snd (convert_handler message_text w s) in
  cache_data s2 = cache_data s1
  /\ heap s2 !! l = Some (<["BYN" := base_record]> t).
Proof.
  intros Htext Hparse Hne Hget Hl Ht.
  rewrite (convert_handler_lookup _ _ _ _ _ _ _ _ _ Htext Hparse Hne Hget Hl Ht).
  simpl snd. split; [reflexivity|]. apply heap_set_item, Hl.
Qed.

End HandlerFacts.

Module HandlerExamples.
Import Str Dec Clock Cache Handler Spec Sample HandlerFacts.

(** The parsing examples of the specification. *)
Example parse_100 : parse "100" = Ok (Request "BYN" "RUB" (Fin false 100 0)).
Proof. reflexivity. Qed.

Example parse_minus_50 : parse "-50" = Ok (Request "RUB" "BYN" (Fin false 50 0)).
Proof. reflexivity. Qed.

Example parse_0 : parse "0" = Ok ZeroAmount.
Proof. reflexivity. Qed.

Example parse_explicit_lower :
  parse "10 usd to eur" = Ok (Request "USD" "EUR" (Fin false 10 0)).
Proof. reflexivity. Qed.

Example parse_abc : parse "abc" = Ok Usage.
Proof. reflexivity. Qed.

Example parse_comma : parse "-12,50" = Ok (Request "RUB" "BYN" (Fin false 1250 (-2))).
Proof. reflexivity. Qed.

Lemma sample_table_not_empty : sample_table <> ∅.
Proof.
  intros H. apply (f_equal (λ m : table, m !! "USD")) in H.
  vm_compute in H. discriminate.
Qed.

Lemma heap_fetched now : heap (fetched now) !! 0%nat = Some sample_table.
Proof. reflexivity. Qed.

(** C1: the record for BYN goes into the cached table itself.  After one
    cross-currency request served from the cache (no fetch happens), the
    table the cache holds has an entry for BYN that the fetched table did
    not have, and the listing of currencies, which reads the name of every
    entry of the cached table, raises KeyError from then on. *)
Theorem cached_table_gains_BYN :
  let s0 := fetched (at_ today 10 0) in
  let w := down (at_ today 10 30) in
  let s1 := snd (convert_handler "1 USD to EUR" w s0) in
  cache_data s1 = cache_data s0
  /\ fetches s1 = fetches s0
  /\ (deref s0 (cache_data s0) ≫= (λ t : table, t !! "BYN")) = None
  /\ (deref s1 (cache_data s1) ≫= (λ t : table, t !! "BYN")) = Some base_record
  /\ fst (cmd_currencies w s0)
     = Ok (ReplyListing [("EUR", "Euro"); ("RUB", "Russian Ruble"); ("USD", "US Dollar")])
  /\ fst (cmd_currencies w s1) = Raise (KeyError "Cur_Name").
Proof. vm_compute. repeat split. Qed.

(** C3, counterexample: -5.125 has absolute value at least 1, and [fmt]
    rounds it to 6 fractional digits, not to 2. *)
Lemma fmt_negative_uses_six_digits :
  fmt (Fin true 5125 (-3)) = Ok "-5.125"
  /\ fmt_by_absolute_value (Fin true 5125 (-3)) = Ok "-5.13".
Proof. split; vm_compute; reflexivity. Qed.

Example convert_usd_eur :
  fst (convert_handler "1 USD to EUR" (down (at_ today 10 30)) (fetched (at_ today 10 0)))
  = Ok (ReplyConverted "1" "USD" "0.929424" "EUR" "0.929424").
Proof. vm_compute. reflexivity. Qed.

Example convert_bare_100 :
  fst (convert_handler "/convert 100" (down (at_ today 10 30)) (fetched (at_ today 10 0)))
  = Ok (ReplyConverted "100" "BYN" "2799.71" "RUB" "28").
Proof. vm_compute. reflexivity. Qed.

(** C6, counterexample: a negative number of 29 digits is not converted
    with its absolute value but with that value rounded to 28 digits. *)
Lemma long_negative_amount_is_rounded :
  of_string (replace "," "." "-10000000000000000000000000001")
    = Ok (Fin true 10000000000000000000000000001 0)
  /\ bare_number (Fin true 10000000000000000000000000001 0)
     = Request "RUB" "BYN" (Fin false 10000000000000000000000000001 0)
  /\ parse "-10000000000000000000000000001"
     = Ok (Request "RUB" "BYN" (Fin false 1000000000000000000000000000 1))
  /\ parse "-10000000000000000000000000001"
     <> Ok (bare_number (Fin true 10000000000000000000000000001 0)).
Proof.
  split; [vm_compute; reflexivity|].
  split; [vm_compute; reflexivity|].
  split; [vm_compute; reflexivity|].
  vm_compute. discriminate.
Qed.

Lemma bare_number_grammar_witness :
  parse "-12,50" =
    Ok (if (1250 =? 0)%N then ZeroAmount
        else if true then
          match fix_ (Fin false 1250 (-2)) with
          | Ok a => Request "RUB" "BYN" a
          | Raise _ => Usage
          end
        else Request "BYN" "RUB" (Fin true 1250 (-2)))
  /\ (ndigits 1250 <= prec -> Etiny <= -2 -> -2 + ndigits 1250 - 1 <= Emax ->
      parse "-12,50" = Ok (bare_number (Fin true 1250 (-2))))
  /\ (true = true -> 1250%N <> 0%N -> adjusted 1250 (-2) < Emax ->
      exists a, fix_ (Fin false 1250 (-2)) = Ok a
                /\ parse "-12,50" = Ok (Request "RUB" "BYN" a))
  /\ (true = true -> 1250%N <> 0%N -> Emax < adjusted 1250 (-2) ->
      parse "-12,50" = Ok Usage).
Proof.
  apply (bare_number_grammar "-12,50" true 1250 (-2)).
  - reflexivity.
  - vm_compute. reflexivity.
Defined.

(** A negative amount beyond the exponent range falls through to the
    usage answer. *)
Example parse_negative_overflow : parse "-1e1000000" = Ok Usage.
Proof. vm_compute. reflexivity. Qed.

(** C7, counterexample: with an amount of 27 digits the handler raises
    instead of answering, although the codes are equal. *)
Lemma equal_codes_large_amount_raises :
  REQ_RE_match "100000000000000000000000000 USD to USD"
    = Some ("100000000000000000000000000", "USD", "USD")
  /\ convert_handler "100000000000000000000000000 USD to USD"
       (down (at_ today 10 30)) initial
     = (Raise InvalidOperation, initial).
Proof. split; vm_compute; reflexivity. Qed.

Lemma equal_codes_shortcut_witness :
  convert_handler "10 usd to USD" (served (at_ today 10 30)) initial
    = (a ← fmt (Fin false 10 0); Ok (ReplySame a (upper "USD")), initial)
  /\ (forall sg c e, Fin false 10 0 = Fin sg c e -> ndigits c + e <= 21 ->
        exists a, convert_handler "10 usd to USD" (served (at_ today 10 30)) initial
                  = (Ok (ReplySame a (upper "USD")), initial)).
Proof.
  apply (equal_codes_shortcut "10 usd to USD" "10" "usd" "USD" (Fin false 10 0)
           (served (at_ today 10 30)) initial).
  - vm_compute. reflexivity.
  - vm_compute. reflexivity.
  - vm_compute. reflexivity.
Defined.

(** The example of the specification: no request is sent. *)
Example equal_codes_no_fetch :
  convert_handler "10 USD to USD" (served (at_ today 10 30)) initial
  = (Ok (ReplySame "10" "USD"), initial).
Proof. vm_compute. reflexivity. Qed.

(** An unknown code is answered all the same. *)
Example equal_codes_unknown :
  convert_handler "7,5 xyz to XYZ" (served (at_ today 10 30)) initial
  = (Ok (ReplySame "7.5" "XYZ"), initial).
Proof. vm_compute. reflexivity. Qed.

Example zero_amount_answer :
  fst (convert_handler "0 USD to EUR" (down (at_ today 10 30)) (fetched (at_ today 10 0)))
  = Ok (ReplyConverted "0" "USD" "0" "EUR" "0.929424").
Proof. vm_compute. reflexivity. Qed.

(** The bare number zero is turned away. *)
Example zero_amount_bare :
  fst (convert_handler "/convert 0" (down (at_ today 10 30)) (fetched (at_ today 10 0)))
  = Ok ReplyZero.
Proof. vm_compute. reflexivity. Qed.

End HandlerExamples.

(** ** Rounding errors and the round trip *)

Module RoundFacts.
Import Dec Spec Real DecFacts.

(** [_fix] on a value in the normal range: the result is finite with the
    same sign, has at most 28 digits, an exponent not below the given one,
    and differs from the given value by at most one part in 10^27. *)
Lemma fix_normal (s : bool) (c : N) (e : Z) :
  normal c e ->
  exists (c' : N) (j : N),
    fix_ (Fin s c e) = Ok (Fin s c' (e + Z.of_N j))
    /\ c' <> 0%N
    /\ ndigits c' <= prec
    /\ adjusted c e <= adjusted c' (e + Z.of_N j) <= adjusted c e + 1
    /\ (c' * 10 ^ j <= c + c / 10 ^ 27 /\ c <= c' * 10 ^ j + c / 10 ^ 27)%N
    /\ (ndigits c <= prec -> c' = c /\ j = 0%N).
Proof.
  intros [Hc [Hlo Hhi]]. unfold adjusted in *.
  destruct (ndigits_spec c Hc) as [H1 [Hclo Hchi]].
  unfold fix_. destruct (N.eqb_spec c 0) as [|_]; [contradiction|].
  destruct (Z.ltb_spec Etop (ndigits c + e - prec)) as [H | _].
  { unfold Etop, Emax, prec in *. lia. }
  replace (Z.max (ndigits c + e - prec) Etiny) with (ndigits c + e - prec)
    by (unfold Etiny, Emin, prec in *; lia).
  destruct (Z.ltb_spec e (ndigits c + e - prec)) as [Hround | Hfit].
  2:{ exists c, 0%N. rewrite Z.add_0_r, N.pow_0_r, N.mul_1_r.
      split; [reflexivity|]. split; [exact Hc|]. split; [lia|]. split; [lia|].
      split; [split; generalize (c / 10 ^ 27)%N; lia|]. intros _. split; reflexivity. }
  destruct (Z.ltb_spec (ndigits c + e - (ndigits c + e - prec)) 0) as [H | _].
  { unfold prec in H. lia. }
  set (j := Z.to_N (ndigits c + e - prec - e)).
  assert (Z.of_N j = ndigits c - prec) as Hj by (unfold j; lia).
  destruct (ndigits_div_pow c j Hc ltac:(unfold prec in *; lia)) as [Hqlo Hqhi].
  replace (Z.to_N (ndigits c - 1 - Z.of_N j)) with 27%N in Hqlo by (unfold prec in *; lia).
  replace (Z.to_N (ndigits c - Z.of_N j)) with 28%N in Hqhi by (unfold prec in *; lia).
  pose proof (pow10_pos j) as HT.
  destruct (div_mod_N c (10 ^ j)) as [Hdm Hm]; [lia|].
  (* one unit of the kept digits is at most c / 10^27 *)
  assert (10 ^ j <= c / 10 ^ 27)%N as Hulp.
  { apply N.div_le_lower_bound; [pose proof (pow10_pos 27); lia|].
    rewrite <- N.pow_add_r.
    replace (27 + j)%N with (Z.to_N (ndigits c - 1)) by (unfold prec in *; lia).
    exact Hclo. }
  assert (ndigits (c / 10 ^ j) = 28) as Hndq.
  { apply ndigits_unique; [lia|]. change (Z.to_N (28 - 1)) with 27%N.
    change (Z.to_N 28) with 28%N. lia. }
  destruct (Z.ltb_spec 0 (round_half_even c j)) as [Hup | Hdown].
  - destruct (Z.ltb_spec prec (ndigits (c / 10 ^ j + 1))) as [Hbump | Hnobump].
    + (* the coefficient became 10^28 *)
      assert (c / 10 ^ j + 1 = 10 ^ 28)%N as Hq.
      { assert (10 ^ 28 <= c / 10 ^ j + 1)%N; [|lia].
        destruct (N.le_gt_cases (10 ^ 28) (c / 10 ^ j + 1)) as [Hle | Hgt]; [exact Hle|].
        exfalso. assert (ndigits (c / 10 ^ j + 1) <= 28); [|unfold prec in *; lia].
        apply ndigits_le; [lia|]. exact Hgt. }
      destruct (Z.ltb_spec Etop (ndigits c + e - prec + 1)) as [H | _].
      { unfold Etop, Emax, prec in *. lia. }
      exists (10 ^ 27)%N, (j + 1)%N.
      rewrite Hq. change (10 ^ 28 / 10)%N with (10 ^ 27)%N.
      replace (e + Z.of_N (j + 1)) with (ndigits c + e - prec + 1) by lia.
      split; [reflexivity|]. split; [discriminate|].
      change (ndigits (10 ^ 27)) with 28.
      split; [unfold prec; lia|]. split; [unfold prec in *; lia|].
      split.
      * rewrite pow10_succ.
        replace (10 ^ 27 * (10 * 10 ^ j))%N with (10 ^ 28 * 10 ^ j)%N by lia.
        rewrite <- Hq. revert Hdm Hm Hulp.
        generalize (c / 10 ^ 27)%N (10 ^ j)%N (c / 10 ^ j)%N (c mod 10 ^ j)%N. intros; nia.
      * unfold prec in *. lia.
    + destruct (Z.ltb_spec Etop (ndigits c + e - prec)) as [H | _].
      { unfold Etop, Emax, prec in *. lia. }
      exists (c / 10 ^ j + 1)%N, j.
      replace (e + Z.of_N j) with (ndigits c + e - prec) by lia.
      split; [reflexivity|]. split; [lia|]. split; [lia|].
      assert (ndigits (c / 10 ^ j + 1) = 28) as Hnd'.
      { apply ndigits_unique; [lia|]. change (Z.to_N (28 - 1)) with 27%N.
        change (Z.to_N 28) with 28%N. split; [lia|].
        destruct (N.lt_ge_cases (c / 10 ^ j + 1) (10 ^ 28)) as [Hlt | Hge]; [exact Hlt|].
        exfalso. assert (28 < ndigits (c / 10 ^ j + 1)); [|unfold prec in *; lia].
        apply ndigits_gt; [lia|]. exact Hge. }
      split; [rewrite Hnd'; unfold prec in *; lia|].
      split.
      * revert Hdm Hm Hulp.
        generalize (c / 10 ^ 27)%N (10 ^ j)%N (c / 10 ^ j)%N (c mod 10 ^ j)%N. intros; nia.
      * unfold prec in *. lia.
  - destruct (Z.ltb_spec Etop (ndigits c + e - prec)) as [H | _].
    { unfold Etop, Emax, prec in *. lia. }
    exists (c / 10 ^ j)%N, j.
    replace (e + Z.of_N j) with (ndigits c + e - prec) by lia.
    split; [reflexivity|]. split; [pose proof (pow10_pos 27); lia|].
    split; [rewrite Hndq; unfold prec; lia|].
    split; [rewrite Hndq; unfold prec in *; lia|].
    split.
    + revert Hdm Hm Hulp.
      generalize (c / 10 ^ 27)%N (10 ^ j)%N (c / 10 ^ j)%N (c mod 10 ^ j)%N. intros; nia.
    + unfold prec in *. lia.
Qed.

End RoundFacts.

Module RealFacts.
Import Dec Spec Real DecFacts RoundFacts.
Local Open Scope R_scope.

Lemma NR_add a b : NR (a + b) = NR a + NR b.
Proof. unfold NR. rewrite N2Z.inj_add. apply plus_IZR. Qed.

Lemma NR_mul a b : NR (a * b) = NR a * NR b.
Proof. unfold NR. rewrite N2Z.inj_mul. apply mult_IZR. Qed.

Lemma NR_le a b : (a <= b)%N -> NR a <= NR b.
Proof. intros H. unfold NR. apply IZR_le. lia. Qed.

Lemma NR_lt a b : (a < b)%N -> NR a < NR b.
Proof. intros H. unfold NR. apply IZR_lt. lia. Qed.

Lemma NR_nonneg a : 0 <= NR a.
Proof. unfold NR. apply IZR_le. lia. Qed.

Lemma NR_pos a : a <> 0%N -> 0 < NR a.
Proof. intros H. unfold NR. apply IZR_lt. lia. Qed.

Lemma p10_pos (e : Z) : 0 < powerRZ 10 e.
Proof. apply powerRZ_lt. lra. Qed.

Lemma p10_add (a b : Z) : powerRZ 10 (a + b) = powerRZ 10 a * powerRZ 10 b.
Proof. apply powerRZ_add. lra. Qed.

Lemma NR_pow10 (j : N) : NR (10 ^ j) = powerRZ 10 (Z.of_N j).
Proof.
  unfold NR. rewrite N2Z.inj_pow. destruct j as [|p]; [reflexivity|].
  simpl Z.of_N. change (10 ^ Z.pos p)%Z with (Z.pow_pos 10 p).
  apply Zpower_pos_powerRZ.
Qed.

Lemma mag_pos c e : c <> 0%N -> 0 < mag c e.
Proof.
  intros H. unfold mag. apply Rmult_lt_0_compat; [apply NR_pos, H | apply p10_pos].
Qed.

Lemma mag_shift c (j : N) e : mag c (e + Z.of_N j) = mag (c * 10 ^ j) e.
Proof.
  unfold mag. rewrite p10_add, NR_mul, NR_pow10. ring.
Qed.

Lemma mag_mul c1 e1 c2 e2 : mag (c1 * c2) (e1 + e2) = mag c1 e1 * mag c2 e2.
Proof. unfold mag. rewrite p10_add, NR_mul. ring. Qed.

Lemma NR_div27 c : NR (c / 10 ^ 27) <= eps * NR c.
Proof.
  pose proof (NR_le (10 ^ 27 * (c / 10 ^ 27)) c) as H.
  rewrite NR_mul in H.
  change (NR (10 ^ 27)) with (IZR 1000000000000000000000000000) in H.
  assert (10 ^ 27 * (c / 10 ^ 27) <= c)%N as Hle.
  { apply N.Div0.mul_div_le. }
  specialize (H Hle). unfold eps. lra.
Qed.

Lemma fix_error_R c c' j e :
  (c' * 10 ^ j <= c + c / 10 ^ 27 /\ c <= c' * 10 ^ j + c / 10 ^ 27)%N ->
  within (1 - eps) (1 + eps) (mag c e) (mag c' (e + Z.of_N j)).
Proof.
  intros [H1 H2]. rewrite mag_shift. unfold within, mag.
  apply NR_le in H1. apply NR_le in H2. rewrite NR_add in H1, H2.
  pose proof (NR_div27 c) as Hd. pose proof (p10_pos e) as Hp.
  pose proof (NR_nonneg (c / 10 ^ 27)) as Hn.
  split.
  - replace ((1 - eps) * (NR c * powerRZ 10 e))
      with ((NR c - eps * NR c) * powerRZ 10 e) by ring.
    apply Rmult_le_compat_r; lra.
  - replace ((1 + eps) * (NR c * powerRZ 10 e))
      with ((NR c + eps * NR c) * powerRZ 10 e) by ring.
    apply Rmult_le_compat_r; lra.
Qed.


Lemma eps_bounds : 0 < eps < 1.
Proof. unfold eps. lra. Qed.

Lemma within_trans lo1 hi1 lo2 hi2 x y z :
  0 <= lo1 -> 0 <= lo2 -> 0 <= hi2 -> 0 <= x ->
  within lo1 hi1 x y -> within lo2 hi2 y z ->
  within (lo1 * lo2) (hi1 * hi2) x z.
Proof.
  unfold within. intros Hl1 Hl2 Hh2 Hx [H1 H2] [H3 H4]. split.
  - apply Rle_trans with (lo2 * y); [|exact H3].
    replace (lo1 * lo2 * x) with (lo2 * (lo1 * x)) by ring.
    apply Rmult_le_compat_l; assumption.
  - apply Rle_trans with (hi2 * y); [exact H4|].
    replace (hi1 * hi2 * x) with (hi2 * (hi1 * x)) by ring.
    apply Rmult_le_compat_l; assumption.
Qed.

Lemma within_weaken lo hi lo' hi' x y :
  0 <= x -> lo' <= lo -> hi <= hi' ->
  within lo hi x y -> within lo' hi' x y.
Proof.
  unfold within. intros Hx Hl Hh [H1 H2]. split.
  - apply Rle_trans with (lo * x); [|exact H1]. apply Rmult_le_compat_r; assumption.
  - apply Rle_trans with (hi * x); [exact H2|]. apply Rmult_le_compat_r; assumption.
Qed.

Lemma within_scale lo hi x y k :
  0 <= k -> within lo hi x y -> within lo hi (x * k) (y * k).
Proof.
  unfold within. intros Hk [H1 H2]. split.
  - replace (lo * (x * k)) with (lo * x * k) by ring.
    apply Rmult_le_compat_r; assumption.
  - replace (hi * (x * k)) with (hi * x * k) by ring.
    apply Rmult_le_compat_r; assumption.
Qed.

Lemma within_refl x : within 1 1 x x.
Proof. unfold within. lra. Qed.

End RealFacts.

Module ArithFacts.
Import Dec Spec Real DecFacts RoundFacts RealFacts.

Lemma ndigits_mul (c1 c2 : N) :
  c1 <> 0%N -> c2 <> 0%N ->
  ndigits c1 + ndigits c2 - 1 <= ndigits (c1 * c2) <= ndigits c1 + ndigits c2.
Proof.
  intros H1 H2.
  destruct (ndigits_spec c1 H1) as [Hp1 [Hlo1 Hhi1]].
  destruct (ndigits_spec c2 H2) as [Hp2 [Hlo2 Hhi2]].
  split.
  - assert (ndigits c1 + ndigits c2 - 2 < ndigits (c1 * c2)); [|lia].
    apply ndigits_gt; [lia|].
    replace (Z.to_N (ndigits c1 + ndigits c2 - 2))
      with (Z.to_N (ndigits c1 - 1) + Z.to_N (ndigits c2 - 1))%N by lia.
    rewrite N.pow_add_r. apply N.mul_le_mono; assumption.
  - apply ndigits_le; [lia|].
    replace (Z.to_N (ndigits c1 + ndigits c2))
      with (Z.to_N (ndigits c1) + Z.to_N (ndigits c2))%N by lia.
    rewrite N.pow_add_r. apply N.mul_lt_mono; assumption.
Qed.

Lemma ndigits_mul_pow10 (c k : N) :
  c <> 0%N -> ndigits (c * 10 ^ k) = ndigits c + Z.of_N k.
Proof.
  intros Hc. destruct (ndigits_spec c Hc) as [Hp [Hlo Hhi]].
  pose proof (pow10_pos k) as Hk.
  apply ndigits_unique; [lia|].
  replace (Z.to_N (ndigits c + Z.of_N k - 1)) with (Z.to_N (ndigits c - 1) + k)%N by lia.
  replace (Z.to_N (ndigits c + Z.of_N k)) with (Z.to_N (ndigits c) + k)%N by lia.
  rewrite !N.pow_add_r. split.
  - apply N.mul_le_mono_r. exact Hlo.
  - apply N.mul_lt_mono_pos_r; [lia | exact Hhi].
Qed.

(** Multiplication in the normal range. *)
Lemma mul_normal s1 c1 e1 s2 c2 e2 :
  c1 <> 0%N -> c2 <> 0%N ->
  Emin <= adjusted c1 e1 + adjusted c2 e2 ->
  adjusted c1 e1 + adjusted c2 e2 + 1 <= Emax - 1 ->
  exists c e,
    mul (Fin s1 c1 e1) (Fin s2 c2 e2) = Ok (Fin (xorb s1 s2) c e)
    /\ c <> 0%N
    /\ adjusted c1 e1 + adjusted c2 e2 <= adjusted c e
         <= adjusted c1 e1 + adjusted c2 e2 + 2
    /\ within (1 - eps) (1 + eps) (mag c1 e1 * mag c2 e2) (mag c e).
Proof.
  intros H1 H2 Hlo Hhi. unfold mul. simpl check_nans. cbv iota.
  pose proof (ndigits_mul c1 c2 H1 H2) as Hnd.
  assert (normal (c1 * c2) (e1 + e2)) as Hn.
  { split; [lia|]. unfold adjusted in *. lia. }
  destruct (fix_normal (xorb s1 s2) _ _ Hn) as (c & j & Hfix & Hc & _ & Hadj & Herr & _).
  exists c, (e1 + e2 + Z.of_N j). split; [exact Hfix|]. split; [exact Hc|].
  split; [unfold adjusted in *; lia|].
  rewrite <- mag_mul. apply fix_error_R, Herr.
Qed.


Lemma strip_to_ideal_spec (fuel : nat) : forall (c : N) (e ideal : Z),
  c <> 0%N ->
  exists (c' k : N),
    strip_to_ideal fuel c e ideal = (c', e + Z.of_N k)
    /\ c = (c' * 10 ^ k)%N /\ c' <> 0%N.
Proof.
  induction fuel as [|fuel IH]; intros c e ideal Hc.
  - exists c, 0%N. simpl. rewrite Z.add_0_r, N.mul_1_r. auto.
  - simpl. destruct ((e <? ideal) && (c mod 10 =? 0)%N) eqn:E.
    + apply andb_true_iff in E as [_ E]. apply N.eqb_eq in E.
      destruct (div_mod_N c 10) as [Hdm _]; [discriminate|].
      destruct (IH (c / 10)%N (e + 1) ideal) as (c' & k & Hs & Hq & Hc'); [lia|].
      exists c', (k + 1)%N. rewrite Hs. split; [f_equal; lia|].
      split; [|exact Hc']. rewrite pow10_succ. lia.
    + exists c, 0%N. rewrite Z.add_0_r, N.mul_1_r. auto.
Qed.

Lemma div_eucl_pair (a b : N) : N.div_eucl a b = ((a / b)%N, (a mod b)%N).
Proof. unfold N.div, N.modulo. destruct (N.div_eucl a b). reflexivity. Qed.

Lemma quotient_bounds (c1 c2 a b : N) :
  c1 <> 0%N -> c2 <> 0%N ->
  Z.of_N a - Z.of_N b = ndigits c2 - ndigits c1 + 29 ->
  (10 ^ 28 * (c2 * 10 ^ b) <= c1 * 10 ^ a
   /\ c1 * 10 ^ a < 10 ^ 30 * (c2 * 10 ^ b))%N.
Proof.
  intros H1 H2 Hab.
  destruct (ndigits_spec c1 H1) as [Hp1 [Hlo1 Hhi1]].
  destruct (ndigits_spec c2 H2) as [Hp2 [Hlo2 Hhi2]].
  pose proof (pow10_pos a) as Ha. pose proof (pow10_pos b) as Hb.
  split.
  - apply N.le_trans with (10 ^ 28 * (10 ^ Z.to_N (ndigits c2) * 10 ^ b))%N.
    + apply N.mul_le_mono_l, N.mul_le_mono_r. lia.
    + rewrite <- !N.pow_add_r.
      replace (28 + (Z.to_N (ndigits c2) + b))%N
        with (Z.to_N (ndigits c1 - 1) + a)%N by lia.
      rewrite N.pow_add_r. apply N.mul_le_mono_r. exact Hlo1.
  - apply N.lt_le_trans with (10 ^ Z.to_N (ndigits c1) * 10 ^ a)%N.
    + apply N.mul_lt_mono_pos_r; [lia | exact Hhi1].
    + rewrite <- N.pow_add_r.
      replace (Z.to_N (ndigits c1) + a)%N
        with (30 + (Z.to_N (ndigits c2 - 1) + b))%N by lia.
      rewrite !N.pow_add_r. apply N.mul_le_mono_l, N.mul_le_mono_r. exact Hlo2.
Qed.

Local Open Scope R_scope.

Lemma exact_quotient c1 e1 c2 e2 (a b : N) (exp : Z) :
  c2 <> 0%N ->
  exp = (e1 - e2 - (Z.of_N a - Z.of_N b))%Z ->
  mag c1 e1 / mag c2 e2 = NR (c1 * 10 ^ a) / NR (c2 * 10 ^ b) * powerRZ 10 exp.
Proof.
  intros H2 Hexp. unfold mag. rewrite !NR_mul, !NR_pow10.
  replace e1 with (exp + e2 + Z.of_N a + - Z.of_N b)%Z by lia.
  rewrite !p10_add, powerRZ_neg'.
  pose proof (NR_pos c2 H2). pose proof (p10_pos e2). pose proof (p10_pos (Z.of_N b)).
  field. repeat split; lra.
Qed.

(** The quotient with its sticky last digit is within one part in 10^28
    of the exact quotient. *)
Lemma sticky_quotient (n d q' : N) :
  d <> 0%N -> (10 ^ 28 * d <= n)%N ->
  (n / d <= q' <= n / d + 1)%N ->
  within (1 - eps28) (1 + eps28) (NR n / NR d) (NR q').
Proof.
  intros Hd Hbig [Hq1 Hq2].
  destruct (div_mod_N n d Hd) as [Hdm Hm].
  pose proof (NR_pos d Hd) as Hdpos.
  set (Q := NR n / NR d).
  assert (Q * NR d = NR n) as HQ by (unfold Q; field; lra).
  assert (NR n = NR d * NR (n / d) + NR (n mod d)) as HdmR.
  { rewrite <- NR_mul, <- NR_add. f_equal. exact Hdm. }
  assert (IZR 10000000000000000000000000000 <= Q) as HQbig.
  { apply Rmult_le_reg_r with (NR d); [exact Hdpos|]. rewrite HQ.
    apply NR_le in Hbig. rewrite NR_mul in Hbig. exact Hbig. }
  assert (NR (n / d) <= Q) as HqQ.
  { apply Rmult_le_reg_r with (NR d); [exact Hdpos|]. rewrite HQ, HdmR.
    pose proof (NR_nonneg (n mod d)). lra. }
  assert (Q <= NR (n / d) + 1) as HQq.
  { apply Rmult_le_reg_r with (NR d); [exact Hdpos|]. rewrite HQ, HdmR.
    apply NR_lt in Hm. lra. }
  apply NR_le in Hq1. apply NR_le in Hq2. rewrite NR_add in Hq2.
  change (NR 1) with 1 in Hq2.
  unfold within, eps28. split; lra.
Qed.


Local Open Scope Z_scope.

(** Division in the normal range. *)
Lemma div_normal s1 c1 e1 s2 c2 e2 :
  c1 <> 0%N -> c2 <> 0%N ->
  Emin <= adjusted c1 e1 - adjusted c2 e2 - 1 ->
  adjusted c1 e1 - adjusted c2 e2 + 1 <= Emax - 1 ->
  exists c e,
    div (Fin s1 c1 e1) (Fin s2 c2 e2) = Ok (Fin (xorb s1 s2) c e)
    /\ c <> 0%N
    /\ adjusted c1 e1 - adjusted c2 e2 - 1 <= adjusted c e
         <= adjusted c1 e1 - adjusted c2 e2 + 1
    /\ within ((1 - eps28) * (1 - eps)) ((1 + eps28) * (1 + eps))
              (mag c1 e1 / mag c2 e2)%R (mag c e).
Proof.
  intros H1 H2 Hlo Hhi. unfold div. simpl check_nans. cbv iota.
  destruct (N.eqb_spec c2 0) as [|_]; [contradiction|].
  destruct (N.eqb_spec c1 0) as [|_]; [contradiction|].
  cbv zeta.
  set (shift := ndigits c2 - ndigits c1 + prec + 1).
  set (a := Z.to_N shift). set (b := Z.to_N (- shift)).
  set (n := (c1 * 10 ^ a)%N). set (d := (c2 * 10 ^ b)%N).
  assert ((if 0 <=? shift
           then N.div_eucl n c2
           else N.div_eucl c1 d) = ((n / d)%N, (n mod d)%N)) as Hpair.
  { unfold n, d. destruct (Z.leb_spec 0 shift).
    - replace b with 0%N by (unfold b; lia).
      rewrite N.pow_0_r, N.mul_1_r. apply div_eucl_pair.
    - replace a with 0%N by (unfold a; lia).
      rewrite N.pow_0_r, N.mul_1_r. apply div_eucl_pair. }
  assert (Z.of_N a - Z.of_N b = ndigits c2 - ndigits c1 + 29) as Hab
    by (unfold a, b, shift, prec; lia).
  destruct (quotient_bounds c1 c2 a b H1 H2 Hab) as [Hbig Hsmall].
  fold n d in Hbig, Hsmall.
  pose proof (pow10_pos b) as Hb.
  assert (d <> 0%N) as Hd by (unfold d; lia).
  assert (10 ^ 28 <= n / d)%N as Hqlo.
  { apply N.div_le_lower_bound; [exact Hd|]. lia. }
  assert (n / d < 10 ^ 30)%N as Hqhi.
  { apply N.Div0.div_lt_upper_bound. lia. }
  set (exp := e1 - e2 - shift).
  (* whichever coefficient goes to [_fix]: its value is within the sticky
     bound of the exact quotient, and it has 29 or 30 digits' worth of
     adjusted exponent *)
  assert (exists c' e',
    (if (n mod d =? 0)%N
     then strip_to_ideal (N.to_nat (N.size (n / d))) (n / d) exp (e1 - e2)
     else ((if (n / d mod 5 =? 0)%N then n / d + 1 else n / d)%N, exp)) = (c', e')
    /\ c' <> 0%N
    /\ adjusted c1 e1 - adjusted c2 e2 - 1 <= adjusted c' e'
         <= adjusted c1 e1 - adjusted c2 e2
    /\ within (1 - eps28) (1 + eps28) (mag c1 e1 / mag c2 e2)%R (mag c' e'))
    as (c' & e' & Heq & Hc' & Hadj' & Hw').
  { assert (forall q', (n / d <= q' <= n / d + 1)%N -> (q' < 10 ^ 30)%N ->
              q' <> 0%N
              /\ adjusted c1 e1 - adjusted c2 e2 - 1 <= adjusted q' exp
                   <= adjusted c1 e1 - adjusted c2 e2
              /\ within (1 - eps28) (1 + eps28) (mag c1 e1 / mag c2 e2)%R (mag q' exp))
      as Hgen.
    { intros q' Hq' Hq30.
      assert (q' <> 0%N) as Hne by (pose proof (pow10_pos 28); lia).
      split; [exact Hne|]. split.
      - assert (28 < ndigits q') by (apply ndigits_gt; [lia|]; change (Z.to_N 28) with 28%N; lia).
        assert (ndigits q' <= 30) by (apply ndigits_le; [lia|]; exact Hq30).
        unfold adjusted, exp, shift, prec. lia.
      - rewrite (exact_quotient c1 e1 c2 e2 a b exp H2) by (unfold exp; lia).
        fold n d. unfold mag at 1. apply within_scale; [apply Rlt_le, p10_pos|].
        apply sticky_quotient; [exact Hd | exact Hbig | exact Hq']. }
    destruct (N.eqb_spec (n mod d) 0) as [Hz | Hnz].
    - destruct (strip_to_ideal_spec (N.to_nat (N.size (n / d))) (n / d) exp (e1 - e2))
        as (c' & k & Hs & Hq & Hc'); [pose proof (pow10_pos 28); lia|].
      exists c', (exp + Z.of_N k). split; [exact Hs|]. split; [exact Hc'|].
      destruct (Hgen (n / d)%N ltac:(lia) Hqhi) as (_ & Hadj & Hw).
      split.
      + unfold adjusted in *. rewrite Hq, ndigits_mul_pow10 in Hadj by exact Hc'. lia.
      + rewrite mag_shift, <- Hq. exact Hw.
    - destruct (N.eqb_spec (n / d mod 5) 0) as [H5 | H5].
      + exists (n / d + 1)%N, exp. split; [reflexivity|].
        apply Hgen; [lia|].
        destruct (div_mod_N (n / d) 5) as [Hdm5 _]; [discriminate|].
        change (10 ^ 30)%N with (5 * 200000000000000000000000000000)%N in *.
        lia.
      + exists (n / d)%N, exp. split; [reflexivity|]. apply Hgen; [lia | exact Hqhi]. }
  assert (normal c' e') as Hn.
  { split; [exact Hc'|]. lia. }
  destruct (fix_normal (xorb s1 s2) _ _ Hn) as (c & j & Hfix & Hc & _ & Hadj & Herr & _).
  exists c, (e' + Z.of_N j).
  split; [rewrite Hpair; cbv iota beta; rewrite Heq; exact Hfix|].
  split; [exact Hc|].
  split; [lia|].
  pose proof eps_bounds as He.
  apply within_trans with (y := mag c' e').
  - unfold eps28. lra.
  - lra.
  - lra.
  - apply Rlt_le, Rdiv_lt_0_compat; apply mag_pos; assumption.
  - exact Hw'.
  - apply fix_error_R, Herr.
Qed.

End ArithFacts.

Module RoundTrip.
Import Dec Cache Handler Spec Real DecFacts RoundFacts RealFacts ArithFacts HandlerFacts.

Lemma positive_within_inv bound d :
  positive_within bound d ->
  exists c e, d = Fin false c e /\ c <> 0%N /\ - bound <= adjusted c e <= bound.
Proof.
  destruct d as [[|] c e | s | s g]; simpl; try contradiction.
  intros [H1 H2]. eauto.
Qed.

Lemma unit_value_usable (r : rate_record) :
  usable r ->
  exists c e, unit_value r = Ok (Fin false c e) /\ c <> 0%N
              /\ -101 <= adjusted c e <= 101.
Proof.
  unfold usable, unit_value.
  destruct (Cur_OfficialRate r) as [rate|]; [|contradiction].
  destruct (Cur_Scale r) as [scale|]; [|contradiction].
  intros [Hr Hs].
  apply positive_within_inv in Hr as (c1 & e1 & -> & H1 & Ha1).
  apply positive_within_inv in Hs as (c2 & e2 & -> & H2 & Ha2).
  simpl item. rewrite !bind_Ok.
  destruct (div_normal false c1 e1 false c2 e2 H1 H2) as (c & e & Hd & Hc & Hadj & _).
  - unfold Emin. lia.
  - unfold Emax. lia.
  - exists c, e. split; [exact Hd|]. split; [exact Hc|]. lia.
Qed.

(** One conversion with positive unit values in the normal range. *)
Lemma convert_normal ca ea cb eb sx cx ex :
  ca <> 0%N -> cb <> 0%N -> cx <> 0%N ->
  -101 <= adjusted ca ea <= 101 -> -101 <= adjusted cb eb <= 101 ->
  -990000 <= adjusted cx ex <= 990000 ->
  exists c e,
    convert (Fin false ca ea) (Fin false cb eb) (Fin sx cx ex) = Ok (Fin sx c e)
    /\ c <> 0%N
    /\ adjusted cx ex - 203 <= adjusted c e <= adjusted cx ex + 205
    /\ within ((1 - eps) * ((1 - eps28) * (1 - eps)))
              ((1 + eps) * ((1 + eps28) * (1 + eps)))
              (mag cx ex * mag ca ea / mag cb eb)%R (mag c e).
Proof.
  intros Ha Hb Hx Hadja Hadjb Hadjx. unfold convert.
  destruct (mul_normal sx cx ex false ca ea Hx Ha) as (c1 & e1 & Hm & Hc1 & Hadj1 & Hw1).
  { unfold Emin. lia. } { unfold Emax. lia. }
  rewrite Hm, bind_Ok. rewrite xorb_false_r.
  destruct (div_normal sx c1 e1 false cb eb Hc1 Hb) as (c & e & Hd & Hc & Hadj & Hw).
  { unfold Emin. lia. } { unfold Emax. lia. }
  rewrite xorb_false_r in Hd.
  exists c, e. split; [exact Hd|]. split; [exact Hc|]. split; [lia|].
  pose proof eps_bounds as He.
  pose proof (mag_pos cx ex Hx) as HX. pose proof (mag_pos ca ea Ha) as HA.
  pose proof (mag_pos cb eb Hb) as HB.
  apply within_trans with (y := (mag c1 e1 / mag cb eb)%R).
  - lra.
  - unfold eps28. apply Rmult_le_pos; lra.
  - unfold eps28. apply Rmult_le_pos; lra.
  - apply Rlt_le, Rdiv_lt_0_compat; [apply Rmult_lt_0_compat|]; assumption.
  - unfold Rdiv. apply within_scale; [apply Rlt_le, Rinv_0_lt_compat, HB | exact Hw1].
  - exact Hw.
Qed.


Local Open Scope R_scope.

Lemma p10_ge_1 (k : Z) : (0 <= k)%Z -> 1 <= powerRZ 10 k.
Proof.
  intros Hk. destruct k as [|p|p]; [simpl; lra | | lia].
  simpl. apply pow_R1_Rle. lra.
Qed.

Lemma p10_le (a b : Z) : (a <= b)%Z -> powerRZ 10 a <= powerRZ 10 b.
Proof.
  intros H. replace b with (a + (b - a))%Z by lia. rewrite p10_add.
  pose proof (p10_pos a). pose proof (p10_ge_1 (b - a) ltac:(lia)).
  replace (powerRZ 10 a) with (powerRZ 10 a * 1) at 1 by ring.
  apply Rmult_le_compat_l; lra.
Qed.

Lemma mag_lt (c : N) (e : Z) : c <> 0%N -> mag c e < powerRZ 10 (adjusted c e + 1).
Proof.
  intros Hc. destruct (ndigits_spec c Hc) as [H1 [_ Hhi]].
  unfold mag, adjusted.
  replace (e + ndigits c - 1 + 1)%Z with (Z.of_N (Z.to_N (ndigits c)) + e)%Z by lia.
  rewrite p10_add, <- NR_pow10.
  apply Rmult_lt_compat_r; [apply p10_pos | apply NR_lt, Hhi].
Qed.

Lemma p10_m26 : powerRZ 10 (-26) = / 100000000000000000000000000.
Proof. simpl. f_equal. lra. Qed.

Lemma round_trip_factor :
  1 - 5 / 1000000000000000000000000000
    <= ((1 - eps) * ((1 - eps28) * (1 - eps))) * ((1 - eps) * ((1 - eps28) * (1 - eps)))
  /\ ((1 + eps) * ((1 + eps28) * (1 + eps))) * ((1 + eps) * ((1 + eps28) * (1 + eps)))
    <= 1 + 5 / 1000000000000000000000000000.
Proof. unfold eps, eps28. split; lra. Qed.

Lemma convertedAmount_usable (rates : table) (a b : string) (ra rb : rate_record) x :
  rates !! a = Some ra -> rates !! b = Some rb ->
  forall ca ea cb eb,
    unit_value ra = Ok (Fin false ca ea) -> unit_value rb = Ok (Fin false cb eb) ->
    convertedAmount rates x a b = convert (Fin false ca ea) (Fin false cb eb) x.
Proof.
  intros Ha Hb ca ea cb eb Hua Hub. unfold convertedAmount, unitValue.
  rewrite Ha, Hb. fold (unit_value ra). fold (unit_value rb).
  rewrite Hua, Hub, !bind_Ok. reflexivity.
Qed.

Section Pair.

Context (rates : table) (a b : string) (ra rb : rate_record).
Hypothesis Ha : rates !! a = Some ra.
Hypothesis Hb : rates !! b = Some rb.
Hypothesis Hra : usable ra.
Hypothesis Hrb : usable rb.

(** The round trip of a non-zero amount in the normal range. *)
Lemma round_trip_nonzero (sx : bool) (cx : N) (ex : Z) :
  cx <> 0%N ->
  (-900000 <= adjusted cx ex)%Z ->
  (adjusted cx ex + fmt_digits sx cx ex <= 25)%Z ->
  exists c e,
    round_trip rates a b (Fin sx cx ex) = Ok (Fin sx c e)
    /\ Rabs (valR (Fin sx c e) - valR (Fin sx cx ex)) <= fmt_tolerance sx cx ex.
Proof.
  intros Hx Hlo Hhi.
  destruct (unit_value_usable ra Hra) as (ca & ea & Hua & Hca & Hadja).
  destruct (unit_value_usable rb Hrb) as (cb & eb & Hub & Hcb & Hadjb).
  assert (fmt_digits sx cx ex = 2 \/ fmt_digits sx cx ex = 6)%Z as Hk.
  { unfold fmt_digits. destruct (negb sx && _); auto. }
  destruct (convert_normal ca ea cb eb sx cx ex Hca Hcb Hx Hadja Hadjb)
    as (c1 & e1 & Hc1eq & Hc1 & Hadj1 & Hw1); [lia|].
  destruct (convert_normal cb eb ca ea sx c1 e1 Hcb Hca Hc1 Hadjb Hadja)
    as (c2 & e2 & Hc2eq & Hc2 & Hadj2 & Hw2); [lia|].
  exists c2, e2. split.
  { unfold round_trip.
    rewrite (convertedAmount_usable rates a b ra rb _ Ha Hb ca ea cb eb Hua Hub).
    rewrite Hc1eq, bind_Ok.
    rewrite (convertedAmount_usable rates b a rb ra _ Hb Ha cb eb ca ea Hub Hua).
    exact Hc2eq. }
  pose proof (mag_pos cx ex Hx) as HX. pose proof (mag_pos ca ea Hca) as HA.
  pose proof (mag_pos cb eb Hcb) as HB. pose proof eps_bounds as He.
  assert (within
            (((1 - eps) * ((1 - eps28) * (1 - eps))) * ((1 - eps) * ((1 - eps28) * (1 - eps))))
            (((1 + eps) * ((1 + eps28) * (1 + eps))) * ((1 + eps) * ((1 + eps28) * (1 + eps))))
            (mag cx ex) (mag c2 e2)) as Hw.
  { replace (mag cx ex)
      with (mag cx ex * mag ca ea / mag cb eb * (mag cb eb / mag ca ea))
      by (field; split; lra).
    apply within_trans with (y := mag c1 e1 * mag cb eb / mag ca ea).
    - unfold eps28. repeat apply Rmult_le_pos; lra.
    - unfold eps28. repeat apply Rmult_le_pos; lra.
    - unfold eps28. repeat apply Rmult_le_pos; lra.
    - apply Rlt_le. apply Rmult_lt_0_compat.
      + apply Rdiv_lt_0_compat; [apply Rmult_lt_0_compat|]; assumption.
      + apply Rdiv_lt_0_compat; assumption.
    - replace (mag c1 e1 * mag cb eb / mag ca ea)
        with (mag c1 e1 * (mag cb eb / mag ca ea)) by (field; lra).
      apply within_scale; [|exact Hw1].
      apply Rlt_le, Rdiv_lt_0_compat; assumption.
    - exact Hw2. }
  destruct round_trip_factor as [Hflo Hfhi].
  apply (within_weaken _ _ (1 - 5 / 1000000000000000000000000000)
           (1 + 5 / 1000000000000000000000000000)) in Hw; [|lra|exact Hflo|exact Hfhi].
  destruct Hw as [Hw_lo Hw_hi].
  assert (Rabs (mag c2 e2 - mag cx ex)
          <= 5 / 1000000000000000000000000000 * mag cx ex) as Habs.
  { apply Rabs_le. split; lra. }
  assert (Rabs (valR (Fin sx c2 e2) - valR (Fin sx cx ex))
          = Rabs (mag c2 e2 - mag cx ex)) as ->.
  { simpl. destruct sx; [|reflexivity].
    replace (- mag c2 e2 - - mag cx ex) with (- (mag c2 e2 - mag cx ex)) by ring.
    apply Rabs_Ropp. }
  apply Rle_trans with (5 / 1000000000000000000000000000 * mag cx ex); [exact Habs|].
  pose proof (mag_lt cx ex Hx) as Hmag.
  pose proof (p10_le (adjusted cx ex + 1) (26 - fmt_digits sx cx ex) ltac:(lia)) as Hp.
  unfold fmt_tolerance.
  replace (- fmt_digits sx cx ex)%Z with (-26 + (26 - fmt_digits sx cx ex))%Z by lia.
  rewrite p10_add, p10_m26.
  pose proof (p10_pos (26 - fmt_digits sx cx ex)) as Hpp.
  lra.
Qed.

(** The round trip of zero is zero. *)
Lemma round_trip_zero (sx : bool) (ex : Z) :
  exists e, round_trip rates a b (Fin sx 0 ex) = Ok (Fin sx 0 e).
Proof.
  destruct (unit_value_usable ra Hra) as (ca & ea & Hua & Hca & _).
  destruct (unit_value_usable rb Hrb) as (cb & eb & Hub & Hcb & _).
  unfold round_trip.
  rewrite (convertedAmount_usable rates a b ra rb _ Ha Hb ca ea cb eb Hua Hub).
  destruct (convert_of_zero false ca ea false cb eb sx ex Hcb) as [e1 ->].
  rewrite bind_Ok, !xorb_false_r.
  rewrite (convertedAmount_usable rates b a rb ra _ Hb Ha cb eb ca ea Hub Hua).
  destruct (convert_of_zero false cb eb false ca ea sx e1 Hca) as [e2 ->].
  rewrite !xorb_false_r. eauto.
Qed.

End Pair.

Lemma fmt_tolerance_pos (s : bool) (c : N) (e : Z) : 0 < fmt_tolerance s c e.
Proof.
  unfold fmt_tolerance. pose proof (p10_pos (- fmt_digits s c e)). lra.
Qed.

(** C8 (as amended): over a table whose two entries hold positive rates
    and scales between 10^-50 and 10^51, converting an amount from A to B
    and the result back from B to A gives an amount of the same sign that
    differs from the original by at most half a unit of the digit [fmt]
    rounds the original to (0.005 for an amount of at least 1, 0.0000005
    otherwise), as long as the amount, when it is not zero, is of
    magnitude at least 10^-900000, below 10^24 when it is at least 1 and
    of magnitude below 10^20 otherwise. *)
Theorem round_trip_within_tolerance (rates : table) (a b : string)
    (ra rb : rate_record) (sx : bool) (cx : N) (ex : Z) :
  rates !! a = Some ra -> rates !! b = Some rb ->
  usable ra -> usable rb ->
  (cx <> 0%N ->
   (-900000 <= adjusted cx ex)%Z
   /\ (adjusted cx ex + fmt_digits sx cx ex <= 25)%Z) ->
  exists c e,
    round_trip rates a b (Fin sx cx ex) = Ok (Fin sx c e)
    /\ Rabs (valR (Fin sx c e) - valR (Fin sx cx ex)) <= fmt_tolerance sx cx ex.
Proof.
  intros Ha Hb Hra Hrb Hx.
  destruct (N.eq_dec cx 0%N) as [-> | Hne].
  - destruct (round_trip_zero rates a b ra rb Ha Hb Hra Hrb sx ex) as [e He].
    exists 0%N, e. split; [exact He|].
    assert (valR (Fin sx 0 e) - valR (Fin sx 0 ex) = 0) as ->.
    { unfold valR, mag, NR. simpl Z.of_N. destruct sx; ring. }
    rewrite Rabs_R0. apply Rlt_le, fmt_tolerance_pos.
  - destruct (Hx Hne) as [Hlo Hhi].
    apply (round_trip_nonzero rates a b ra rb); assumption.
Qed.

End RoundTrip.

Module RoundTripExamples.
Import Dec Cache Handler Spec Real Sample RoundTrip.

(** C8, counterexample: 3 * 10^25 USD converted to EUR and back come out
    0.01 higher, twice the tolerance of 0.005; the amount itself can be
    formatted. *)
Lemma round_trip_of_large_amount_drifts :
  round_trip sample_table "USD" "EUR" (Fin false 30000000000000000000000000 0)
    = Ok (Fin false 3000000000000000000000000001 (-2))
  /\ fmt (Fin false 30000000000000000000000000 0) = Ok "30000000000000000000000000"
  /\ (fmt_tolerance false 30000000000000000000000000 0
      < Rabs (valR (Fin false 3000000000000000000000000001 (-2))
              - valR (Fin false 30000000000000000000000000 0)))%R.
Proof.
  split; [vm_compute; reflexivity|]. split; [vm_compute; reflexivity|].
  unfold fmt_tolerance. change (fmt_digits false 30000000000000000000000000 0) with 2.
  unfold valR, mag, NR. simpl Z.of_N. simpl powerRZ.
  rewrite Rabs_pos_eq; lra.
Qed.

Lemma usable_usd : usable usd.
Proof.
  unfold usable; simpl. repeat split; try discriminate; vm_compute; discriminate.
Qed.

Lemma usable_eur : usable eur.
Proof.
  unfold usable; simpl. repeat split; try discriminate; vm_compute; discriminate.
Qed.

Lemma round_trip_within_tolerance_witness :
  exists c e,
    round_trip sample_table "USD" "EUR" (Fin false 100 0) = Ok (Fin false c e)
    /\ (Rabs (valR (Fin false c e) - valR (Fin false 100 0))
        <= fmt_tolerance false 100 0)%R.
Proof.
  apply (round_trip_within_tolerance sample_table "USD" "EUR" usd eur false 100 0).
  - reflexivity.
  - reflexivity.
  - apply usable_usd.
  - apply usable_eur.
  - intros _. split; vm_compute; discriminate.
Defined.

Example round_trip_100 :
  round_trip sample_table "USD" "EUR" (Fin false 100 0)
  = Ok (Fin false 100000000000000000000000 (-21)).
Proof. vm_compute. reflexivity. Qed.

End RoundTripExamples.

(** ** The formulas in exact arithmetic *)

Module FormulaFacts.
Import Str Dec Cache Handler Spec Real.
Import DecFacts RoundFacts RealFacts ArithFacts HandlerFacts RoundTrip.

Local Open Scope R_scope.







Local Open Scope Z_scope.




Section Request.

Context (rates : table) (cur_from cur_to : string) (rec_from rec_to : rate_record).
Hypothesis Hfrom : rates !! cur_from = Some rec_from.
Hypothesis Hto : rates !! cur_to = Some rec_to.
Hypothesis Hufrom : usable rec_from.
Hypothesis Huto : usable rec_to.


End Request.


End FormulaFacts.

Module FormulaExamples.
Import Str Dec Cache Handler Spec Real Sample.
Import HandlerFacts HandlerExamples RoundTripExamples FormulaFacts.



End FormulaExamples.

(** ** The amount zero in the explicit grammar *)

Module ZeroFacts.
Import Str Dec Cache Handler Spec Real.
Import DecFacts RoundFacts RealFacts ArithFacts ParseFacts HandlerFacts RoundTrip.

Lemma unit_value_order (r : rate_record) :
  usable r ->
  exists c e,
    unit_value r = Ok (Fin false c e) /\ c <> 0%N
    /\ unit_order r - 1 <= adjusted c e <= unit_order r + 1
    /\ -101 <= adjusted c e <= 101.
Proof.
  unfold usable, unit_value, unit_order.
  destruct (Cur_OfficialRate r) as [rate|]; [|contradiction].
  destruct (Cur_Scale r) as [scale|]; [|contradiction].
  intros [Hr Hs].
  apply positive_within_inv in Hr as (c1 & e1 & -> & H1 & Ha1).
  apply positive_within_inv in Hs as (c2 & e2 & -> & H2 & Ha2).
  simpl item. rewrite !bind_Ok.
  destruct (div_normal false c1 e1 false c2 e2 H1 H2) as (c & e & Hd & Hc & Hadj & _).
  - unfold Emin. lia.
  - unfold Emax. lia.
  - exists c, e. split; [exact Hd|]. split; [exact Hc|]. lia.
Qed.

(** The answers [conversion] can give. *)
Lemma conversion_replies (rates : table) cur_from cur_to amount r :
  conversion rates cur_from cur_to amount = Ok r ->
  r = ReplyNotFound \/ exists a b c, r = ReplyConverted a cur_from b cur_to c.
Proof.
  unfold conversion.
  destruct (rates !! cur_from) as [rf|]; [|intros H; injection H as <-; auto].
  destruct (rates !! cur_to) as [rt|]; [|intros H; injection H as <-; auto].
  destruct (unit_value rf) as [vf|]; [|discriminate]. rewrite bind_Ok.
  destruct (unit_value rt) as [vt|]; [|discriminate]. rewrite bind_Ok.
  destruct (convert vf vt amount) as [res|]; [|discriminate]. rewrite bind_Ok.
  destruct (fmt amount) as [a|]; [|discriminate]. rewrite bind_Ok.
  destruct (fmt res) as [b|]; [|discriminate]. rewrite bind_Ok.
  destruct (div vf vt) as [q|]; [|discriminate]. rewrite bind_Ok.
  destruct (fmt q) as [c|]; [|discriminate]. rewrite bind_Ok.
  intros H. injection H as <-. right. eauto.
Qed.

(** The answers the handler can give to a parsed request. *)
Lemma request_replies message_text cur_from cur_to amount w s r :
  strip (replace "/convert" "" message_text) <> "" ->
  parse (strip (replace "/convert" "" message_text)) = Ok (Request cur_from cur_to amount) ->
  fst (convert_handler message_text w s) = Ok r ->
  r <> ReplyFormat /\ r <> ReplyZero /\ r <> ReplyUsage.
Proof.
  intros Htext Hparse. unfold convert_handler.
  destruct (String.eqb_spec (strip (replace "/convert" "" message_text)) "");
    [contradiction|].
  rewrite Hparse. destruct (cur_from =? cur_to)%string.
  { cbn [fst]. destruct (fmt amount) as [a|]; [|discriminate]. rewrite bind_Ok.
    intros H. injection H as <-. repeat split; discriminate. }
  destruct (get_rates w s) as [[rates|x] s1]; [|discriminate].
  assert (forall r0 : reply, r0 = ReplyNoRates ->
            r0 <> ReplyFormat /\ r0 <> ReplyZero /\ r0 <> ReplyUsage) as Hno
    by (intros r0 ->; repeat split; discriminate).
  destruct rates as [l|]; [|cbn [fst]; intros H; injection H as <-; auto].
  destruct (truthy (heap s1) (Some l)); [|cbn [fst]; intros H; injection H as <-; auto].
  destruct (heap (set_item l "BYN" base_record s1) !! l) as [t|];
    [|cbn [fst]; intros H; injection H as <-; auto].
  cbn [fst]. intros H. apply conversion_replies in H as [-> | (a & b & c & ->)];
    repeat split; discriminate.
Qed.

(** Zero converted between two positive unit values not too far apart. *)
Lemma conversion_of_zero (rates : table) cur_from cur_to rec_from rec_to (sg : bool) (e : Z) :
  rates !! cur_from = Some rec_from -> rates !! cur_to = Some rec_to ->
  usable rec_from -> usable rec_to -> unit_order rec_from - unit_order rec_to <= 17 ->
  exists rate,
    conversion rates cur_from cur_to (Fin sg 0 e)
    = Ok (ReplyConverted (if sg then "-0" else "0") cur_from
                         (if sg then "-0" else "0") cur_to rate).
Proof.
  intros Hf Ht Huf Hut Hord. unfold conversion. rewrite Hf, Ht.
  destruct (unit_value_order rec_from Huf) as (ca & ea & -> & Hca & Hadja & Hra).
  destruct (unit_value_order rec_to Hut) as (cb & eb & -> & Hcb & Hadjb & Hrb).
  rewrite !bind_Ok.
  destruct (convert_of_zero false ca ea false cb eb sg e Hcb) as [er ->].
  rewrite bind_Ok, !fmt_zero, !bind_Ok, !xorb_false_r.
  destruct (div_normal false ca ea false cb eb Hca Hcb) as (c3 & e3 & -> & Hc3 & Hadj3 & _).
  { unfold Emin. lia. } { unfold Emax. lia. }
  rewrite bind_Ok.
  destruct (fmt_total (xorb false false) c3 e3) as [c ->]; [unfold adjusted in *; lia|].
  rewrite bind_Ok. eauto.
Qed.

(** C10 (as amended): a text of the explicit grammar with the amount zero
    is never turned away as a zero amount, nor answered with the usage or
    the format message.  With two equal codes the answer is the amount
    itself, shown as 0 (or -0), and the cache is left alone.  With two
    different codes that are both in the table (with the record for BYN
    put in), positive rates and scales between 10^-50 and 10^51 and a
    unit value of the source at most 17 decimal orders above that of
    the target, the answer is a conversion result whose amount and
    converted amount are both shown as 0 (or -0). *)
Theorem zero_amount_explicit message_text amount cur_from cur_to sg e w s :
  REQ_RE_match (strip (replace "/convert" "" message_text))
    = Some (amount, cur_from, cur_to) ->
  of_string (replace "," "." amount) = Ok (Fin sg 0 e) ->
  (forall r, fst (convert_handler message_text w s) = Ok r ->
     r <> ReplyFormat /\ r <> ReplyZero /\ r <> ReplyUsage)
  /\ (upper cur_from = upper cur_to ->
      convert_handler message_text w s
      = (Ok (ReplySame (if sg then "-0" else "0") (upper cur_to)), s))
  /\ (forall s1 l t rec_from rec_to,
        upper cur_from <> upper cur_to ->
        get_rates w s = (Ok (Some l), s1) ->
        heap s1 !! l = Some t -> t <> ∅ ->
        <["BYN" := base_record]> t !! upper cur_from = Some rec_from ->
        <["BYN" := base_record]> t !! upper cur_to = Some rec_to ->
        usable rec_from -> usable rec_to -> unit_order rec_from - unit_order rec_to <= 17 ->
        exists rate,
          fst (convert_handler message_text w s)
          = Ok (ReplyConverted (if sg then "-0" else "0") (upper cur_from)
                               (if sg then "-0" else "0") (upper cur_to) rate)).
Proof.
  intros Hm Hd.
  pose proof (REQ_RE_nonempty _ _ Hm) as Htext.
  pose proof (parse_explicit_request _ _ _ _ _ Hm Hd) as Hparse.
  split; [|split].
  - intros r. apply (request_replies _ _ _ _ _ _ _ Htext Hparse).
  - intros Heq. unfold convert_handler.
    destruct (String.eqb_spec (strip (replace "/convert" "" message_text)) "");
      [contradiction|].
    rewrite Hparse, Heq, String.eqb_refl, fmt_zero. reflexivity.
  - intros s1 l t rec_from rec_to Hne Hget Hl Ht Hf Hto Huf Hut Hord.
    rewrite (convert_handler_lookup _ _ _ _ _ _ _ _ _ Htext Hparse Hne Hget Hl Ht).
    cbn [fst]. apply (conversion_of_zero _ _ _ rec_from rec_to); assumption.
Qed.

End ZeroFacts.

Module ZeroExamples.
Import Str Dec Clock Cache Handler Spec Real Sample Cases.
Import HandlerFacts HandlerExamples RoundTripExamples ZeroFacts.

(** C10, counterexample: with a currency whose official rate is zero in
    the table, zero units of another currency converted to it are not
    answered: the unit value of the target is zero and 0 / 0 raises
    InvalidOperation. *)
Lemma zero_amount_to_halted_currency_raises :
  let w := World (at_ today 10 0) (Response 200 (Some (body ++ [halted])%list)) (at_ today 10 0) in
  let s1 := snd (get_rates w initial) in
  REQ_RE_match "0 USD to XXX" = Some ("0", "USD", "XXX")
  /\ (deref s1 (cache_data s1) ≫= (λ t : table, t !! "USD")) = Some usd
  /\ (deref s1 (cache_data s1) ≫= (λ t : table, t !! "XXX")) = Some halted
  /\ fst (convert_handler "0 USD to XXX" w initial) = Raise InvalidOperation.
Proof. vm_compute. repeat split. Qed.

Lemma zero_amount_explicit_witness :
  (forall r, fst (convert_handler "0 USD to EUR" (down (at_ today 10 30))
                    (fetched (at_ today 10 0))) = Ok r ->
     r <> ReplyFormat /\ r <> ReplyZero /\ r <> ReplyUsage)
  /\ (upper "USD" = upper "EUR" ->
      convert_handler "0 USD to EUR" (down (at_ today 10 30)) (fetched (at_ today 10 0))
      = (Ok (ReplySame (if false then "-0" else "0") (upper "EUR")),
         fetched (at_ today 10 0)))
  /\ (exists rate,
        fst (convert_handler "0 USD to EUR" (down (at_ today 10 30))
               (fetched (at_ today 10 0)))
        = Ok (ReplyConverted "0" "USD" "0" "EUR" rate)).
Proof.
  destruct (zero_amount_explicit "0 USD to EUR" "0" "USD" "EUR" false 0
              (down (at_ today 10 30)) (fetched (at_ today 10 0)))
    as (H1 & H2 & H3).
  - vm_compute. reflexivity.
  - vm_compute. reflexivity.
  - split; [exact H1|]. split; [exact H2|].
    apply (H3 (fetched (at_ today 10 0)) 0%nat sample_table usd eur).
    + vm_compute. discriminate.
    + reflexivity.
    + apply heap_fetched.
    + apply sample_table_not_empty.
    + vm_compute. reflexivity.
    + vm_compute. reflexivity.
    + apply usable_usd.
    + apply usable_eur.
    + vm_compute. discriminate.
Defined.

End ZeroExamples.

(** ** Overlapping and successive calls *)

Module TasksFacts.
Import Clock Cache Tasks CacheFacts.
Local Close Scope string_scope.

(** The staleness test reads the cache, not the counter of requests. *)
Lemma is_cache_expired_count_fetch now s :
  is_cache_expired now (count_fetch s) = is_cache_expired now s.
Proof. reflexivity. Qed.

Lemma fetches_refresh w s : fetches (refresh w s) = fetches s.
Proof.
  unfold refresh. destruct (resp w) as [|status [data|]]; try reflexivity;
    destruct (status =? 200); try reflexivity.
  destruct (build_table data ∅); reflexivity.
Qed.

(** One call of [get_rates] is its two parts run back to back. *)
Lemma get_rates_as_steps w s :
  let '(t1, s1) := step (Run (now_check w)) Start s in
  let '(t2, s2) := step (Resume (resp w) (now_store w)) t1 s1 in
  (t2, s2) = (Finished (fst (get_rates w s)), snd (get_rates w s)).
Proof.
  unfold get_rates; simpl.
  destruct (is_cache_expired (now_check w) s) as [[|]|]; reflexivity.
Qed.

Lemma run_app sched1 sched2 ps :
  run (sched1 ++ sched2) ps = run sched2 (run sched1 ps).
Proof. unfold run. apply foldl_app. Qed.

(** Starting [m] calls in a row on a stale cache sends [m] requests. *)
Lemma run_all_start now s (Hs : is_cache_expired now s = Ok true) m : forall k s',
  heap s' = heap s -> cache_data s' = cache_data s ->
  cache_last_date s' = cache_last_date s ->
  exists s'',
    run (map (λ i, (i, Run now)) (seq k m))
        (replicate k Requested ++ replicate m Start, s')
    = (replicate (k + m) Requested, s'')
    /\ heap s'' = heap s /\ cache_data s'' = cache_data s
    /\ cache_last_date s'' = cache_last_date s
    /\ fetches s'' = (fetches s' + m)%nat.
Proof.
  induction m as [|m IH]; intros k s' Hh Hd Hl.
  - exists s'. simpl. rewrite app_nil_r, Nat.add_0_r. auto with lia.
  - simpl. unfold step_pool at 1; simpl.
    rewrite lookup_app_r by (rewrite length_replicate; lia).
    rewrite length_replicate, Nat.sub_diag; simpl.
    assert (is_cache_expired now s' = Ok true) as ->.
    { unfold is_cache_expired. rewrite Hh, Hd, Hl. exact Hs. }
    rewrite insert_app_r_alt by (rewrite length_replicate; lia).
    rewrite length_replicate, Nat.sub_diag; simpl.
    replace (replicate k Requested ++ Requested :: replicate m Start)
      with (replicate (S k) Requested ++ replicate m Start).
    2:{ rewrite (replicate_S_end k). rewrite <- app_assoc. reflexivity. }
    destruct (IH (S k) (count_fetch s')) as (s'' & Hrun & H1 & H2 & H3 & H4);
      try assumption.
    exists s''. fold (run (map (λ i, (i, Run now)) (seq (S k) m))
                          (replicate (S k) Requested ++ replicate m Start, count_fetch s')).
    rewrite Hrun. replace (k + S m)%nat with (S k + m)%nat by lia.
    simpl in H4. repeat split; try assumption. lia.
Qed.

(** Resuming calls sends no request. *)
Lemma run_resumes_fetches (sched : list (nat * event)) : forall ps,
  Forall (λ x, exists r now, snd x = Resume r now) sched ->
  fetches (snd (run sched ps)) = fetches (snd ps).
Proof.
  induction sched as [|[i ev] sched IH]; intros ps Hall; [reflexivity|].
  inversion Hall as [|? ? [r [now Hev]] Hrest]; subst. simpl in Hev; subst ev.
  simpl. fold (run sched (step_pool ps (i, Resume r now))).
  rewrite IH by assumption.
  unfold step_pool; simpl. destruct (fst ps !! i) as [t|]; [|reflexivity].
  destruct t; simpl; try reflexivity. apply fetches_refresh.
Qed.

Lemma all_resume_Forall r now n :
  Forall (λ x, exists r now, snd x = Resume r now) (all_resume r now n).
Proof.
  unfold all_resume. apply Forall_forall. intros x Hx.
  apply list_elem_of_fmap in Hx as (i & -> & _). simpl. eauto.
Qed.

(** A fresh cache is left alone. *)
Lemma get_rates_fresh w s :
  is_cache_expired (now_check w) s = Ok false -> snd (get_rates w s) = s.
Proof. unfold get_rates. intros ->. reflexivity. Qed.

Lemma run_calls_fresh ws : forall s,
  Forall (λ w, is_cache_expired (now_check w) s = Ok false) ws ->
  run_calls ws s = s.
Proof.
  induction ws as [|w ws IH]; intros s Hall; [reflexivity|].
  inversion Hall as [|? ? Hw Hrest]; subst.
  unfold run_calls; simpl. rewrite get_rates_fresh by assumption.
  apply IH, Hrest.
Qed.

(** After a successful refresh the cache is fresh throughout the window. *)
Lemma fresh_after_store t last now s :
  t <> ∅ -> same_window last now ->
  is_cache_expired now (store t last s) = Ok false.
Proof.
  intros Ht [Hd Hc]. unfold is_cache_expired, truthy, store; simpl.
  rewrite lookup_app_r by lia. rewrite Nat.sub_diag; simpl.
  rewrite bool_decide_eq_false_2 by assumption. simpl.
  rewrite Hd, Hc. reflexivity.
Qed.

(** C9 (as amended): calls that overlap each send their own request when
    they find the cache stale, so [n] calls started before any of them is
    resumed send [n]; calls made one after another within one staleness
    window send exactly one, provided it brings a non-empty table. *)
Theorem fetches_per_staleness_window :
  (forall (n : nat) (now now' : datetime) (r : response) (s : state),
      is_cache_expired now s = Ok true ->
      fetches (snd (run (all_start now n ++ all_resume r now' n)
                        (replicate n Start, s))) = (fetches s + n)%nat)
  /\ (forall (w : world) (ws : list world) (s : state),
      is_cache_expired (now_check w) s = Ok true ->
      fetch_succeeds (resp w) ->
      Forall (λ w', same_window (now_store w) (now_check w')) ws ->
      fetches (run_calls (w :: ws) s) = (fetches s + 1)%nat).
Proof.
  split.
  - intros n now now' r s Hs. rewrite run_app.
    rewrite run_resumes_fetches by apply all_resume_Forall.
    destruct (run_all_start now s Hs n 0%nat s) as (s'' & Hrun & _ & _ & _ & Hf);
      try reflexivity.
    simpl in Hrun. unfold all_start. rewrite Hrun. exact Hf.
  - intros w ws s Hs (data & t & Hr & Hb & Ht) Hall.
    unfold run_calls; simpl. fold (run_calls ws (snd (get_rates w s))).
    assert (snd (get_rates w s) = store t (now_store w) (count_fetch s)) as ->.
    { unfold get_rates. rewrite Hs. simpl. unfold refresh. rewrite Hr. simpl.
      rewrite Hb. reflexivity. }
    rewrite run_calls_fresh.
    + simpl. lia.
    + eapply Forall_impl; [exact Hall|]. intros w' Hw'. simpl in Hw'.
      apply fresh_after_store; assumption.
Qed.

End TasksFacts.

Module TasksExamples.
Import Clock Cache Tasks Sample TasksFacts.
Local Close Scope string_scope.

(** C9, counterexample: two calls that both start on the empty cache
    before either is resumed send two requests, and each stores its own
    table. *)
Lemma two_overlapping_calls_fetch_twice :
  let ok := Response 200 (Some body) in
  let schedule := [(0, Run (at_ today 9 0)); (1, Run (at_ today 9 0));
                   (0, Resume ok (at_ today 9 0)); (1, Resume ok (at_ today 9 0))]%nat in
  let '(pool, s) := run schedule ([Start; Start], initial) in
  pool = [Finished (Ok (Some 0%nat)); Finished (Ok (Some 1%nat))]
  /\ fetches s = 2%nat
  /\ is_cache_expired (at_ today 9 0) initial = Ok true.
Proof. vm_compute. repeat split. Qed.

Lemma fetches_per_staleness_window_witness :
  fetches (snd (run (all_start (at_ today 9 0) 3
                       ++ all_resume (Response 200 (Some body)) (at_ today 9 1) 3)
                    (replicate 3 Start, initial))) = 3%nat
  /\ fetches (run_calls [served (at_ today 9 0); served (at_ today 9 5);
                         down (at_ today 10 40)] initial) = 1%nat.
Proof.
  destruct fetches_per_staleness_window as [Hoverlap Hseq]. split.
  - apply (Hoverlap 3%nat (at_ today 9 0) (at_ today 9 1)
             (Response 200 (Some body)) initial).
    reflexivity.
  - apply (Hseq (served (at_ today 9 0))
             [served (at_ today 9 5); down (at_ today 10 40)] initial).
    + reflexivity.
    + exists body. eexists. split; [reflexivity|]. split; [vm_compute; reflexivity|].
      intros H. apply (f_equal (λ m : table, m !! "USD"%string)) in H.
      vm_compute in H. discriminate.
    + repeat constructor.
Defined.

End TasksExamples.

(** ** Refreshing the cache *)

Module RefreshFacts.
Import Clock Cache Handler Session CacheFacts HandlerFacts.
Local Close Scope string_scope.

Lemma build_table_acc (data : list rate_record) : forall (acc t : table) (code : string),
  build_table data acc = Ok t ->
  t !! code = match last (with_code code data) with
              | Some r => Some r
              | None => acc !! code
              end.
Proof.
  induction data as [|i rest IH]; intros acc t code H.
  - injection H as <-. reflexivity.
  - simpl in H. destruct (Cur_Abbreviation i) as [c|] eqn:Ec; [|discriminate].
    rewrite (IH _ _ code H). unfold with_code.
    destruct (decide (c = code)) as [->|Hne].
    + rewrite filter_cons_True by exact Ec. rewrite last_cons.
      destruct (last (filter _ rest)); [reflexivity|]. apply lookup_insert_eq.
    + rewrite filter_cons_False by congruence.
      destruct (last (filter _ rest)); [reflexivity|]. apply lookup_insert_ne, Hne.
Qed.

(** X1: the dict comprehension keeps, for every code, the last object of the
    response that carries it. *)
Theorem build_table_last_wins (data : list rate_record) (t : table) (code : string) :
  build_table data ∅ = Ok t -> t !! code = last (with_code code data).
Proof.
  intros H. rewrite (build_table_acc data ∅ t code H).
  destruct (last (with_code code data)); [reflexivity | apply lookup_empty].
Qed.

Lemma build_table_raises (data : list rate_record) : forall acc : table,
  Exists (λ r, Cur_Abbreviation r = None) data ->
  build_table data acc = Raise (KeyError "Cur_Abbreviation"%string).
Proof.
  induction data as [|i rest IH]; intros acc H.
  - inversion H.
  - simpl. destruct (Cur_Abbreviation i) as [c|] eqn:Ec; [|reflexivity].
    apply IH. inversion H as [? ? Hi|]; [congruence | assumption].
Qed.

Lemma build_table_returns (data : list rate_record) : forall acc : table,
  Forall (λ r, is_Some (Cur_Abbreviation r)) data ->
  exists t, build_table data acc = Ok t.
Proof.
  induction data as [|i rest IH]; intros acc H; [eauto|].
  inversion H as [|? ? [c Hc] Hrest]; subst. simpl. rewrite Hc. apply IH, Hrest.
Qed.

(** X2: a response is stored whole or not at all: when every object carries
    its code the table built from all of them becomes the cached one,
    and one object without a code leaves the cache as it was. *)
Theorem response_stored_whole_or_not (w : world) (s : state) (data : list rate_record) :
  resp w = Response 200 (Some data) ->
  (Forall (λ r, is_Some (Cur_Abbreviation r)) data ->
   exists t, build_table data ∅ = Ok t /\ refresh w s = store t (now_store w) s)
  /\ (Exists (λ r, Cur_Abbreviation r = None) data -> refresh w s = s).
Proof.
  intros Hr. unfold refresh. rewrite Hr. simpl. split.
  - intros Hall. destruct (build_table_returns data ∅ Hall) as [t Ht].
    exists t. rewrite Ht. auto.
  - intros Hex. rewrite (build_table_raises data ∅ Hex). reflexivity.
Qed.

Lemma heap_refresh (w : world) (s : state) :
  heap (refresh w s) = heap s \/ exists t, heap (refresh w s) = heap s ++ [t].
Proof.
  unfold refresh. destruct (resp w) as [|status [data|]]; auto.
  - destruct (status =? 200); auto. destruct (build_table data ∅); eauto.
  - destruct (status =? 200); auto.
Qed.

Lemma heap_get_rates (w : world) (s : state) :
  heap (snd (get_rates w s)) = heap s
  \/ exists t, heap (snd (get_rates w s)) = heap s ++ [t].
Proof.
  unfold get_rates. destruct (is_cache_expired (now_check w) s) as [[|]|]; simpl; auto.
  apply (heap_refresh w (count_fetch s)).
Qed.

(** X3: [get_rates] never changes a dict it has handed out: whatever the
    response, every object of the heap is after the call what it was
    before, and a refresh puts a new object in the cache. *)
Theorem get_rates_keeps_old_tables (w : world) (s : state) (l : ref) (t0 : table) :
  heap s !! l = Some t0 -> heap (snd (get_rates w s)) !! l = Some t0.
Proof.
  intros Hl. destruct (heap_get_rates w s) as [-> | [t ->]]; [exact Hl|].
  apply lookup_app_l_Some, Hl.
Qed.

Lemma truthy_empty_table (h : list table) (l : ref) :
  h !! l = Some ∅ -> truthy h (Some l) = false.
Proof.
  intros H. unfold truthy. rewrite H. rewrite bool_decide_eq_true_2 by reflexivity.
  reflexivity.
Qed.

(** X4: a response with status 200 and an empty array is stored, time stamp
    included, and yet the cache counts as expired at every later moment:
    each following call sends a request again. *)
Theorem empty_response_keeps_cache_expired (w w' : world) (s : state) :
  is_cache_expired (now_check w) s = Ok true ->
  resp w = Response 200 (Some []) ->
  let s1 := snd (get_rates w s) in
  cache_last_date s1 = Some (now_store w)
  /\ deref s1 (cache_data s1) = Some ∅
  /\ (forall now, is_cache_expired now s1 = Ok true)
  /\ fetches (snd (get_rates w' s1)) = S (fetches s1).
Proof.
  intros Hexp Hr.
  assert (snd (get_rates w s) = store ∅ (now_store w) (count_fetch s)) as ->.
  { unfold get_rates. rewrite Hexp. cbn [snd]. unfold refresh. rewrite Hr. reflexivity. }
  set (s0 := count_fetch s). cbv zeta.
  assert (heap (store ∅ (now_store w) s0) !! length (heap s0) = Some (∅ : table)) as Hl.
  { unfold store. cbn [heap]. apply list_lookup_middle. reflexivity. }
  assert (forall now, is_cache_expired now (store ∅ (now_store w) s0) = Ok true) as Hstale.
  { intros now. unfold is_cache_expired.
    change (cache_data (store ∅ (now_store w) s0)) with (Some (length (heap s0))).
    rewrite (truthy_empty_table _ _ Hl). reflexivity. }
  split; [reflexivity|]. split; [exact Hl|]. split; [exact Hstale|].
  unfold get_rates. rewrite Hstale. cbn [snd].
  unfold refresh. destruct (resp w') as [|status [data|]]; try reflexivity;
    destruct (status =? 200); try reflexivity.
  destruct (build_table data ∅); reflexivity.
Qed.

End RefreshFacts.

(** ** The cache over many calls *)

Module SessionFacts.
Import Clock Cache Handler Session CacheFacts HandlerFacts TasksFacts.
Local Close Scope string_scope.

Lemma fetches_get_rates (w : world) (s : state) :
  (fetches (snd (get_rates w s)) <= S (fetches s))%nat.
Proof.
  unfold get_rates. destruct (is_cache_expired (now_check w) s) as [[|]|]; simpl; try lia.
  rewrite fetches_refresh. simpl. lia.
Qed.

Lemma fetches_convert_handler (message_text : string) (w : world) (s : state) :
  (fetches (snd (convert_handler message_text w s)) <= S (fetches s))%nat.
Proof.
  unfold convert_handler.
  destruct (String.eqb _ ""); [simpl; lia|].
  destruct (parse _) as [[| |cur_from cur_to amount]|]; try (simpl; lia).
  destruct (String.eqb cur_from cur_to); [simpl; lia|].
  pose proof (fetches_get_rates w s) as H.
  destruct (get_rates w s) as [[rates|] s1]; simpl in H; [|exact H].
  destruct rates as [l|]; [|exact H].
  destruct (truthy (heap s1) (Some l)); [|exact H].
  destruct (heap (set_item l "BYN" base_record s1) !! l); exact H.
Qed.

Lemma cmd_currencies_state (w : world) (s : state) :
  snd (cmd_currencies w s) = snd (get_rates w s).
Proof.
  unfold cmd_currencies. destruct (get_rates w s) as [[rates|] s1]; [|reflexivity].
  destruct (truthy (heap s1) rates); [|reflexivity].
  destruct (deref s1 rates); reflexivity.
Qed.

Lemma cache_wf_handle (c : call) (s : state) : cache_wf s -> cache_wf (snd (handle c s)).
Proof.
  destruct c as [message_text w | w]; simpl.
  - apply cache_wf_convert_handler.
  - rewrite cmd_currencies_state. apply cache_wf_get_rates.
Qed.

Lemma fetches_handle (c : call) (s : state) :
  (fetches (snd (handle c s)) <= S (fetches s))%nat.
Proof.
  destruct c as [message_text w | w]; simpl.
  - apply fetches_convert_handler.
  - rewrite cmd_currencies_state. apply fetches_get_rates.
Qed.

Lemma serve_from (cs : list call) : forall s : state,
  cache_wf s ->
  cache_wf (serve cs s) /\ (fetches (serve cs s) <= fetches s + length cs)%nat.
Proof.
  induction cs as [|c cs IH]; intros s Hs; [simpl; split; [exact Hs | lia]|].
  destruct (IH (snd (handle c s)) (cache_wf_handle c s Hs)) as [Hwf Hf].
  pose proof (fetches_handle c s) as Hc.
  change (serve (c :: cs) s) with (serve cs (snd (handle c s))).
  split; [exact Hwf|]. simpl length. lia.
Qed.

(** X5: from start-up on, whatever the messages and the responses: a cached
    table always comes with its time stamp, so the staleness test never
    fails on [None.date()], and no handler call sends more than one
    request. *)
Theorem serve_keeps_cache_well_formed (cs : list call) :
  cache_wf (serve cs initial)
  /\ (forall now, exists b, is_cache_expired now (serve cs initial) = Ok b)
  /\ (fetches (serve cs initial) <= length cs)%nat.
Proof.
  destruct (serve_from cs initial cache_wf_initial) as [Hwf Hf].
  split; [exact Hwf|]. split; [|exact Hf].
  intros now. apply is_cache_expired_total, Hwf.
Qed.

(** *** Staleness and the passing of time *)

Lemma date_compare_eq (a b : date) : date_compare a b = Eq -> a = b.
Proof.
  unfold date_compare. destruct a as [y m d], b as [y' m' d']; simpl.
  destruct (Z.compare_spec y y'); try discriminate.
  destruct (Z.compare_spec m m'); try discriminate.
  destruct (Z.compare_spec d d'); try discriminate. congruence.
Qed.

Lemma date_compare_refl (a : date) : date_compare a a = Eq.
Proof. unfold date_compare. rewrite !Z.compare_refl. reflexivity. Qed.

Lemma date_compare_later (a b : date) : date_compare a b = Gt <-> later_day a b.
Proof.
  rewrite <- date_gt_later. unfold date_gt.
  destruct (date_compare a b); split; intros; try discriminate; reflexivity.
Qed.

Lemma date_compare_earlier (a b : date) : date_compare a b = Lt <-> later_day b a.
Proof.
  unfold date_compare, later_day.
  destruct (Z.compare_spec (year a) (year b));
    destruct (Z.compare_spec (month a) (month b));
    destruct (Z.compare_spec (day a) (day b));
    split; intros; try discriminate; try reflexivity; lia.
Qed.

Lemma time_gt_later (a b : time) : time_gt a b = true <-> later_time a b.
Proof.
  unfold time_gt, time_compare, later_time.
  destruct (Z.compare_spec (hour a) (hour b));
    destruct (Z.compare_spec (minute a) (minute b));
    destruct (Z.compare_spec (second a) (second b));
    destruct (Z.compare_spec (microsecond a) (microsecond b));
    split; intros; try discriminate; try reflexivity; lia.
Qed.

Lemma time_gt_trans (a b c : time) :
  time_gt a b = false -> time_gt a c = true -> time_gt b c = true.
Proof.
  intros Hab Hac. apply time_gt_later. apply time_gt_later in Hac.
  assert (~ later_time a b) as Hn.
  { intros H. apply time_gt_later in H. congruence. }
  unfold later_time in *. lia.
Qed.

(** X6: waiting does not make an expired cache fresh: when the clock does
    not run backwards, a cache that is expired stays expired until a
    response is stored. *)
Theorem expired_stays_expired (now now' last : datetime) (s : state) :
  cache_last_date s = Some last ->
  datetime_le last now = true -> datetime_le now now' = true ->
  is_cache_expired now s = Ok true -> is_cache_expired now' s = Ok true.
Proof.
  intros Hlast Hln Hnn. unfold is_cache_expired. rewrite Hlast.
  destruct (negb (truthy (heap s) (cache_data s))); [reflexivity|].
  unfold datetime_le in Hln, Hnn.
  destruct (date_gt (dt_date now) (dt_date last)) eqn:Hd.
  - intros _.
    assert (date_gt (dt_date now') (dt_date last) = true) as ->; [|reflexivity].
    apply date_gt_later. apply date_gt_later in Hd.
    destruct (date_compare (dt_date now) (dt_date now')) eqn:Hc; [| |discriminate].
    + apply date_compare_eq in Hc. rewrite <- Hc. exact Hd.
    + apply date_compare_earlier in Hc. unfold later_day in *. lia.
  - destruct (time_gt (dt_time now) cutoff && time_lt (dt_time last) cutoff) eqn:Ht;
      [|discriminate].
    intros _. apply andb_true_iff in Ht as [Ht1 Ht2].
    assert (dt_date last = dt_date now) as Hsame.
    { destruct (date_compare (dt_date last) (dt_date now)) eqn:Hc; [| |discriminate].
      - apply date_compare_eq, Hc.
      - apply date_compare_earlier, date_gt_later in Hc. congruence. }
    destruct (date_compare (dt_date now) (dt_date now')) eqn:Hc; [| |discriminate].
    + apply date_compare_eq in Hc. rewrite <- Hc, Hd.
      apply negb_true_iff in Hnn.
      rewrite (time_gt_trans _ _ _ Hnn Ht1), Ht2. reflexivity.
    + apply date_compare_earlier, date_gt_later in Hc.
      rewrite Hsame, Hc. reflexivity.
Qed.

End SessionFacts.

Module DayFacts.
Import Clock Cache Tasks Session CacheFacts TasksFacts SessionFacts.
Local Close Scope string_scope.

Lemma date_gt_irrefl (d : date) : date_gt d d = false.
Proof. unfold date_gt, date_compare. rewrite !Z.compare_refl. reflexivity. Qed.

Lemma time_gt_not_lt (a b : time) : time_gt a b = true -> time_lt a b = false.
Proof. unfold time_gt, time_lt. destruct (time_compare a b); congruence. Qed.

Lemma get_rates_stores (w : world) (s : state) :
  is_cache_expired (now_check w) s = Ok true -> fetch_succeeds (resp w) ->
  exists t, t <> ∅ /\ snd (get_rates w s) = store t (now_store w) (count_fetch s).
Proof.
  intros He (data & t & Hr & Ht & Hne). exists t. split; [exact Hne|].
  unfold get_rates. rewrite He. cbn [snd]. unfold refresh. rewrite Hr.
  change (200 =? 200) with true. cbv iota. rewrite Ht. reflexivity.
Qed.

(** After a store past the cutoff nothing is requested for the rest of
    the day. *)
Lemma run_calls_after_cutoff (d : date) (ws : list world) (t : table) (last : datetime)
    (s : state) :
  t <> ∅ -> dt_date last = d -> time_lt (dt_time last) cutoff = false ->
  Forall (served_on d) ws ->
  run_calls ws (store t last s) = store t last s.
Proof.
  intros Ht Hd Hl Hall. apply run_calls_fresh.
  eapply Forall_impl; [exact Hall|]. intros w (Hc & _).
  apply fresh_after_store; [exact Ht|]. split.
  - rewrite Hc, Hd. apply date_gt_irrefl.
  - rewrite Hl. apply andb_false_r.
Qed.

Lemma expired_after_store (t : table) (last now : datetime) (s : state) :
  t <> ∅ -> dt_date now = dt_date last ->
  is_cache_expired now (store t last s)
  = Ok (time_gt (dt_time now) cutoff && time_lt (dt_time last) cutoff).
Proof.
  intros Ht Hd. unfold is_cache_expired, truthy, store; simpl.
  rewrite lookup_app_r by lia. rewrite Nat.sub_diag; simpl.
  rewrite bool_decide_eq_false_2 by assumption. simpl.
  rewrite Hd, date_gt_irrefl.
  destruct (time_gt (dt_time now) cutoff && time_lt (dt_time last) cutoff); reflexivity.
Qed.

(** After a store on the day, at most one more request that day. *)
Lemma run_calls_after_store (d : date) (ws : list world) : forall (t : table)
    (last : datetime) (s : state),
  t <> ∅ -> dt_date last = d -> Forall (served_on d) ws ->
  (fetches (run_calls ws (store t last s)) <= S (fetches (store t last s)))%nat.
Proof.
  induction ws as [|w ws IH]; intros t last s Ht Hd Hall; [simpl; lia|].
  inversion Hall as [|? ? Hw Hrest]; subst.
  destruct Hw as (Hc & Hst & Hmono & Hok).
  change (run_calls (w :: ws) (store t last s))
    with (run_calls ws (snd (get_rates w (store t last s)))).
  pose proof (expired_after_store t last (now_check w) s Ht ltac:(congruence)) as He.
  destruct (time_gt (dt_time (now_check w)) cutoff && time_lt (dt_time last) cutoff) eqn:Eb.
  - destruct (get_rates_stores w _ He Hok) as (t' & Ht' & ->).
    apply andb_true_iff in Eb as [Egt _].
    rewrite (run_calls_after_cutoff (dt_date last) ws t' (now_store w)); try assumption.
    + simpl. lia.
    + apply time_gt_not_lt. apply (time_gt_trans _ _ _ Hmono Egt).
  - rewrite (get_rates_fresh w _ He). apply IH; solve [assumption | reflexivity].
Qed.

(** X7: calls made one after another on one day, each bringing a non-empty
    table when it asks for one, send at most two requests that day,
    whatever the cache held before: one when the table of the day
    before is found, and one more after 11:05. *)
Theorem at_most_two_requests_a_day (d : date) (ws : list world) (s : state) :
  Forall (served_on d) ws ->
  (fetches (run_calls ws s) <= fetches s + 2)%nat.
Proof.
  revert s. induction ws as [|w ws IH]; intros s Hall; [simpl; lia|].
  inversion Hall as [|? ? Hw Hrest]; subst.
  change (run_calls (w :: ws) s) with (run_calls ws (snd (get_rates w s))).
  destruct (is_cache_expired (now_check w) s) as [[|]|x] eqn:He.
  - destruct Hw as (Hc & Hst & Hmono & Hok).
    destruct (get_rates_stores w s He Hok) as (t & Ht & ->).
    pose proof (run_calls_after_store d ws t (now_store w)
                  (count_fetch s) Ht Hst Hrest) as H.
    simpl in H. lia.
  - rewrite (get_rates_fresh w s He). apply IH, Hrest.
  - unfold get_rates. rewrite He. apply IH, Hrest.
Qed.

End DayFacts.

Module PoolFacts.
Import Clock Cache Tasks Pool CacheFacts TasksFacts.
Local Close Scope string_scope.

Lemma step_budget (ev : event) (t : task) (s : state) :
  (fetches (snd (step ev t s)) + not_started (fst (step ev t s))
   <= fetches s + not_started t)%nat.
Proof.
  destruct t, ev; cbn [step fst snd not_started]; try lia.
  - destruct (is_cache_expired now s) as [[|]|]; simpl; lia.
  - cbv zeta. cbn [fst snd not_started]. rewrite fetches_refresh. lia.
Qed.

Lemma cache_wf_step (ev : event) (t : task) (s : state) :
  cache_wf s -> cache_wf (snd (step ev t s)).
Proof.
  intros Hs. destruct t, ev; cbn [step fst snd]; try exact Hs.
  - destruct (is_cache_expired now s) as [[|]|]; simpl; try exact Hs.
  - cbv zeta. cbn [fst snd]. apply cache_wf_refresh, Hs.
Qed.

Lemma waiting_insert (ts : list task) : forall (i : nat) (t t' : task),
  ts !! i = Some t ->
  (waiting (<[i := t']> ts) + not_started t = waiting ts + not_started t')%nat.
Proof.
  unfold waiting. induction ts as [|a ts IH]; intros i t t' Hi; [discriminate|].
  destruct i as [|i]; simpl in *.
  - injection Hi as ->. lia.
  - specialize (IH i t t' Hi). lia.
Qed.

Lemma step_pool_budget (ps : list task * state) (sched : nat * event) :
  let ps' := step_pool ps sched in
  (fetches (snd ps') + waiting (fst ps') <= fetches (snd ps) + waiting (fst ps))%nat
  /\ length (fst ps') = length (fst ps)
  /\ (cache_wf (snd ps) -> cache_wf (snd ps')).
Proof.
  unfold step_pool. destruct (fst ps !! fst sched) as [t|] eqn:E; [|simpl; auto with lia].
  pose proof (step_budget (snd sched) t (snd ps)) as Hb.
  pose proof (cache_wf_step (snd sched) t (snd ps)) as Hwf.
  destruct (step (snd sched) t (snd ps)) as [t' s']. simpl in *.
  pose proof (waiting_insert (fst ps) (fst sched) t t' E) as Hw.
  split; [lia|]. split; [apply length_insert | exact Hwf].
Qed.

Lemma run_budget (sched : list (nat * event)) : forall ps : list task * state,
  (fetches (snd (run sched ps)) + waiting (fst (run sched ps))
   <= fetches (snd ps) + waiting (fst ps))%nat
  /\ length (fst (run sched ps)) = length (fst ps)
  /\ (cache_wf (snd ps) -> cache_wf (snd (run sched ps))).
Proof.
  induction sched as [|x sched IH]; intros ps; [simpl; auto with lia|].
  change (run (x :: sched) ps) with (run sched (step_pool ps x)).
  destruct (IH (step_pool ps x)) as (H1 & H2 & H3).
  destruct (step_pool_budget ps x) as (K1 & K2 & K3).
  split; [lia|]. split; [congruence | auto].
Qed.

Lemma waiting_le_length (ts : list task) : (waiting ts <= length ts)%nat.
Proof.
  unfold waiting. induction ts as [|t ts IH]; [simpl; lia|].
  destruct t; simpl in *; lia.
Qed.

(** X8: whatever the order in which the event loop runs and resumes them,
    the calls of a pool send at most one request each, and leave a
    well-formed cache well formed. *)
Theorem any_schedule_one_request_per_call (sched : list (nat * event))
    (ts : list task) (s : state) :
  cache_wf s ->
  cache_wf (snd (run sched (ts, s)))
  /\ (fetches (snd (run sched (ts, s))) <= fetches s + length ts)%nat.
Proof.
  intros Hs. destruct (run_budget sched (ts, s)) as (H1 & H2 & H3). simpl in *.
  split; [auto|]. pose proof (waiting_le_length ts). lia.
Qed.

End PoolFacts.

(** ** The listing *)

Module MessagesFacts.
Import Messages.
Local Close Scope string_scope.
Local Open Scope nat_scope.

(** The pieces, read off the text from its front. *)
Lemma pieces_from {A : Type} (n : nat) (text : list A) (fuel : nat) : forall i : nat,
  map (λ i, slice i (i + n) text) (range_from fuel i (length text) n)
  = match fuel with
    | O => []
    | S f =>
        if i <? length text
        then take n (drop i text)
               :: map (λ i, slice i (i + n) text) (range_from f (i + n) (length text) n)
        else []
    end.
Proof.
  intros i. destruct fuel as [|f]; [reflexivity|]. simpl.
  destruct (i <? length text); [|reflexivity]. simpl. unfold slice at 1.
  replace (i + n - i) with n by lia. reflexivity.
Qed.

Lemma concat_pieces_from {A : Type} (n : nat) (text : list A) (fuel : nat) : forall i : nat,
  1 <= n -> length text <= i + fuel ->
  concat (map (λ i, slice i (i + n) text) (range_from fuel i (length text) n))
  = drop i text.
Proof.
  induction fuel as [|f IH]; intros i Hn Hlen.
  - simpl. rewrite drop_ge by lia. reflexivity.
  - rewrite pieces_from. destruct (Nat.ltb_spec i (length text)) as [Hlt | Hge].
    + simpl. rewrite IH by lia. rewrite <- drop_drop. apply take_drop.
    + rewrite drop_ge by lia. reflexivity.
Qed.

Lemma Forall_pieces_from {A : Type} (n : nat) (text : list A) (fuel : nat) : forall i : nat,
  1 <= n ->
  Forall (λ m, 1 <= length m <= n)
    (map (λ i, slice i (i + n) text) (range_from fuel i (length text) n)).
Proof.
  induction fuel as [|f IH]; intros i Hn; [constructor|].
  rewrite pieces_from. destruct (Nat.ltb_spec i (length text)) as [Hlt | Hge];
    [|constructor].
  constructor; [|apply IH, Hn].
  rewrite length_take, length_drop. lia.
Qed.

Lemma length_pieces_from {A : Type} (n : nat) (text : list A) (fuel : nat) : forall i : nat,
  1 <= n -> length text <= i + fuel ->
  length (map (λ i, slice i (i + n) text) (range_from fuel i (length text) n))
  = (length text - i + (n - 1)) / n.
Proof.
  induction fuel as [|f IH]; intros i Hn Hlen.
  - simpl. replace (length text - i) with 0 by lia.
    symmetry. apply Nat.div_small. lia.
  - rewrite pieces_from. destruct (Nat.ltb_spec i (length text)) as [Hlt | Hge].
    + simpl. rewrite IH by lia.
      destruct (Nat.le_gt_cases (i + n) (length text)) as [Hfull | Hlast].
      * replace (length text - i + (n - 1))
          with (length text - (i + n) + (n - 1) + 1 * n) by lia.
        rewrite Nat.div_add by lia. lia.
      * replace (length text - (i + n)) with 0 by lia.
        replace (length text - i + (n - 1)) with (length text - i - 1 + 1 * n) by lia.
        rewrite Nat.div_add by lia.
        rewrite !Nat.div_small by lia. reflexivity.
    + simpl. replace (length text - i) with 0 by lia.
      symmetry. apply Nat.div_small. lia.
Qed.

Lemma lookup_pieces_from {A : Type} (n : nat) (text : list A) (fuel : nat) :
  forall (i k : nat) (m : list A),
  map (λ i, slice i (i + n) text) (range_from fuel i (length text) n) !! k = Some m ->
  m = take n (drop (i + k * n) text) /\ i + k * n < length text.
Proof.
  induction fuel as [|f IH]; intros i k m H; [discriminate|].
  rewrite pieces_from in H. destruct (Nat.ltb_spec i (length text)) as [Hlt | Hge];
    [|discriminate].
  destruct k as [|k]; simpl in H.
  - injection H as <-. rewrite Nat.add_0_r. auto.
  - apply IH in H. replace (i + S k * n) with (i + n + k * n) by lia. exact H.
Qed.

(** X9: cutting the listing into messages loses nothing and respects the
    limit: the messages, put end to end, are the text; each one has
    between 1 and 4096 characters; and there are as many as the length
    of the text divided by 4096, rounded up. *)
Theorem messages_cover_the_text {A : Type} (text : list A) :
  concat (messages text) = text
  /\ Forall (λ m, 1 <= length m <= 4096) (messages text)
  /\ length (messages text) = (length text + 4095) / 4096
  /\ (forall k m, messages text !! k = Some m ->
        m = take 4096 (drop (k * 4096) text)).
Proof.
  unfold messages, pieces, range, limit. split; [|split; [|split]].
  - rewrite concat_pieces_from by lia. reflexivity.
  - apply Forall_pieces_from. lia.
  - rewrite length_pieces_from by lia. rewrite Nat.sub_0_r. reflexivity.
  - intros k m H. apply lookup_pieces_from in H as [-> _]. reflexivity.
Qed.

End MessagesFacts.

Module ListingFacts.
Import Clock Cache Handler CacheFacts HandlerFacts.
Local Close Scope string_scope.

#[local] Instance leb_total : Total (λ a b : string, String.leb a b = true).
Proof. intros a b. apply String.leb_total. Qed.

Lemma sorted_keys_Sorted (t : table) :
  Sorted (λ a b : string, String.leb a b = true) (sorted_keys t).
Proof. unfold sorted_keys. apply Sorted_merge_sort, _. Qed.

Lemma sorted_keys_NoDup (t : table) : NoDup (sorted_keys t).
Proof.
  unfold sorted_keys. rewrite merge_sort_Permutation. apply NoDup_fst_map_to_list.
Qed.

Lemma elem_of_sorted_keys (t : table) (code : string) :
  code ∈ sorted_keys t <-> is_Some (t !! code).
Proof.
  unfold sorted_keys. rewrite merge_sort_Permutation.
  rewrite list_elem_of_fmap. split.
  - intros ([c r] & -> & H). apply elem_of_map_to_list in H. simpl. eauto.
  - intros [r H]. exists (code, r). split; [reflexivity|].
    apply elem_of_map_to_list, H.
Qed.

Lemma listing_codes (t : table) (codes : list string) : forall lines,
  listing t codes = Ok lines ->
  map fst lines = codes
  /\ Forall (λ ln, exists r, t !! fst ln = Some r /\ Cur_Name r = Some (snd ln)) lines.
Proof.
  induction codes as [|code rest IH]; intros lines H.
  - injection H as <-. split; [reflexivity | constructor].
  - simpl in H. destruct (t !! code) as [r|] eqn:Er; [|discriminate].
    destruct (Cur_Name r) as [name|] eqn:En; [|discriminate].
    destruct (listing t rest) as [ls|]; [|discriminate].
    injection H as <-. destruct (IH ls eq_refl) as [Hc Hl].
    split; [simpl; congruence|]. constructor; [|exact Hl]. simpl. eauto.
Qed.

Lemma listing_returns (t : table) (codes : list string) :
  Forall (λ code, exists r name, t !! code = Some r /\ Cur_Name r = Some name) codes ->
  exists lines, listing t codes = Ok lines.
Proof.
  induction codes as [|code rest IH]; intros H; [eexists; reflexivity|].
  inversion H as [|? ? (r & name & Hr & Hn) Hrest]; subst.
  destruct (IH Hrest) as [ls Hls]. simpl. rewrite Hr, Hn, Hls. eauto.
Qed.

(** X10: with a table at hand all of whose records carry a name,
    [cmd_currencies] answers with one line for each code of the table
    and no other, in ascending order of the codes, each with the name
    its record holds. *)
Theorem cmd_currencies_lists_every_code (w : world) (s s1 : state) (l : ref) (t : table) :
  get_rates w s = (Ok (Some l), s1) ->
  heap s1 !! l = Some t -> t <> ∅ ->
  (forall code r, t !! code = Some r -> is_Some (Cur_Name r)) ->
  exists lines,
    cmd_currencies w s = (Ok (ReplyListing lines), s1)
    /\ Sorted (λ a b : string, String.leb a b = true) (map fst lines)
    /\ NoDup (map fst lines)
    /\ (forall code name,
          (code, name) ∈ lines <-> exists r, t !! code = Some r /\ Cur_Name r = Some name).
Proof.
  intros Hget Hl Ht Hnames.
  assert (exists lines, listing t (sorted_keys t) = Ok lines) as [lines Hlines].
  { apply listing_returns, Forall_forall. intros code Hc.
    apply elem_of_sorted_keys in Hc as [r Hr].
    destruct (Hnames code r Hr) as [name Hn]. eauto. }
  exists lines. destruct (listing_codes _ _ _ Hlines) as [Hcodes Hall].
  split.
  { unfold cmd_currencies. rewrite Hget, (truthy_lookup _ _ _ Hl Ht).
    unfold deref. simpl. rewrite Hl. simpl. rewrite Hlines. reflexivity. }
  rewrite Hcodes. split; [apply sorted_keys_Sorted|]. split; [apply sorted_keys_NoDup|].
  intros code name. split.
  - intros Hin. rewrite Forall_forall in Hall. apply (Hall _ Hin).
  - intros (r & Hr & Hn).
    assert (code ∈ map fst lines) as Hc.
    { rewrite Hcodes. apply elem_of_sorted_keys. eauto. }
    apply list_elem_of_fmap in Hc as ([c n] & -> & Hin). simpl in *.
    rewrite Forall_forall in Hall. destruct (Hall _ Hin) as (r' & Hr' & Hn').
    simpl in *. assert (n = name) as -> by congruence. exact Hin.
Qed.

End ListingFacts.

(** ** The pattern and what the handler reads *)

Module GrammarFacts.
Import Str Dec Handler Grammar StrFacts DecFacts TextFacts ParseFacts HandlerFacts.

Lemma all_cons p a s : all p (String a s) = p a && all p s.
Proof. unfold all. simpl. rewrite negb_orb, negb_involutive. reflexivity. Qed.

Lemma all_app p x y : all p (x ++ y) = all p x && all p y.
Proof. unfold all. rewrite any_app, negb_orb. reflexivity. Qed.

Lemma lstrip_by_app p x y :
  all p x = true -> starts_outside p y -> lstrip_by p (x ++ y) = y.
Proof.
  induction x as [|a x IH]; intros Hx Hy.
  - rewrite app_nil. destruct y as [|b y]; [reflexivity|]. simpl in *. rewrite Hy. reflexivity.
  - rewrite all_cons in Hx. apply andb_true_iff in Hx as [Ha Hx].
    rewrite app_cons. simpl. rewrite Ha. apply IH; assumption.
Qed.

Lemma lstrip_by_all p x : all p x = true -> lstrip_by p x = "".
Proof.
  intros H. rewrite <- (str_app_nil_r x). apply lstrip_by_app; [exact H | exact I].
Qed.

Lemma lstrip_by_all_inv p x : lstrip_by p x = "" -> all p x = true.
Proof.
  induction x as [|a x IH]; [reflexivity|]. simpl. rewrite all_cons.
  destruct (p a); [exact IH | discriminate].
Qed.

Lemma span_app p x y :
  all p x = true -> starts_outside p y -> span p (x ++ y) = (x, y).
Proof.
  induction x as [|a x IH]; intros Hx Hy.
  - rewrite app_nil. destruct y as [|b y]; [reflexivity|]. simpl in *. rewrite Hy. reflexivity.
  - rewrite all_cons in Hx. apply andb_true_iff in Hx as [Ha Hx].
    rewrite app_cons. simpl. rewrite Ha, IH by assumption. reflexivity.
Qed.

Lemma span_all_true p s x y : span p s = (x, y) -> all p x = true.
Proof. intros H. unfold all. rewrite (span_all _ _ _ _ H). reflexivity. Qed.

Lemma span_starts_outside p s x y : span p s = (x, y) -> starts_outside p y.
Proof. intros H. pose proof (span_rest _ _ _ _ H) as Hr. destruct y; exact Hr. Qed.

(** *** The character classes are disjoint *)

Ltac classes :=
  unfold is_sep, is_digit, is_space, is_alpha, is_upper, is_lower, code in *;
  repeat match goal with
         | H : _ && _ = true |- _ => apply andb_true_iff in H as [? ?]
         | H : _ || _ = true |- _ => apply orb_true_iff in H as [? | ?]
         | H : (_ <=? _)%N = true |- _ => apply N.leb_le in H
         | H : Ascii.eqb _ _ = true |- _ => apply Ascii.eqb_eq in H; subst
         end;
  simpl in *;
  repeat match goal with
         | |- context [(?x <=? ?y)%N] => destruct (N.leb_spec x y)
         end;
  try reflexivity; try lia.

Lemma space_not_digit a : is_space a = true -> is_digit a = false.
Proof. intros H. classes. Qed.

Lemma sep_not_digit a : is_sep a = true -> is_digit a = false.
Proof. intros H. classes. Qed.

Lemma space_not_sep a : is_space a = true -> is_sep a = false.
Proof.
  intros H. unfold is_sep.
  destruct (Ascii.eqb_spec a ".") as [->|]; [discriminate|].
  destruct (Ascii.eqb_spec a ",") as [->|]; [discriminate|]. reflexivity.
Qed.

Lemma digit_not_sign a :
  is_digit a = true -> (Ascii.eqb a "-" || Ascii.eqb a "+")%char = false.
Proof.
  intros H.
  destruct (Ascii.eqb_spec a "-") as [->|]; [discriminate|].
  destruct (Ascii.eqb_spec a "+") as [->|]; [discriminate|]. reflexivity.
Qed.

Lemma lower_t_not_space a c :
  is_lower c = true -> lower_char a = c -> is_space a = false.
Proof.
  intros Hc <-. rewrite <- lower_space.
  apply alpha_not_space. unfold is_alpha. rewrite Hc. apply orb_true_r.
Qed.

(** *** The parts, taken apart *)

Lemma gap_inv s :
  gap s = true -> exists w ws, s = String w ws /\ is_space w = true /\ all is_space ws = true.
Proof.
  unfold gap. destruct s as [|w ws]; [discriminate|]. rewrite all_cons. simpl.
  intros H. apply andb_true_iff in H as [H1 H2]. eauto.
Qed.

Lemma digits1_inv s :
  digits1 s = true -> exists d ds, s = String d ds /\ is_digit d = true /\ all is_digit ds = true.
Proof.
  unfold digits1. destruct s as [|d ds]; [discriminate|]. rewrite all_cons. simpl.
  intros H. apply andb_true_iff in H as [H1 H2]. eauto.
Qed.

Lemma frac_part_inv s :
  frac_part s = true ->
  s = "" \/ exists sep f fs, s = String sep (String f fs) /\ is_sep sep = true
                            /\ is_digit f = true /\ all is_digit fs = true.
Proof.
  destruct s as [|sep r]; [auto|]. simpl. intros H.
  apply andb_true_iff in H as [H1 H2].
  apply digits1_inv in H2 as (f & fs & -> & Hf & Hfs). right. eauto 8.
Qed.

Lemma code_part_inv s :
  code_part s = true ->
  exists a b c, s = String a (String b (String c "")) /\ is_alpha a = true
                /\ is_alpha b = true /\ is_alpha c = true.
Proof.
  destruct s as [|a [|b [|c [|]]]]; try discriminate. simpl. intros H.
  apply andb_true_iff in H as [H Hc]. apply andb_true_iff in H as [Ha Hb]. eauto 8.
Qed.

Lemma to_part_inv s :
  to_part s = true ->
  exists t o, s = String t (String o "") /\ lower_char t = "t"%char /\ lower_char o = "o"%char.
Proof.
  unfold to_part. intros H. apply String.eqb_eq in H.
  destruct s as [|t [|o [|]]]; try discriminate. simpl in H.
  injection H as Ht Ho. eauto.
Qed.

Lemma sign_part_inv s : sign_part s = true -> s = "" \/ s = "-" \/ s = "+".
Proof.
  unfold sign_part. intros H.
  apply orb_true_iff in H as [H | H]; [apply orb_true_iff in H as [H | H]|];
    apply String.eqb_eq in H; auto.
Qed.

Lemma spaces1_app w ws r :
  is_space w = true -> all is_space ws = true -> starts_outside is_space r ->
  spaces1 (String w (ws ++ r)) = Some r.
Proof.
  intros Hw Hws Hr. unfold spaces1.
  pose proof (span_app is_space (String w ws) r) as H. rewrite app_cons in H.
  rewrite H; [reflexivity | rewrite all_cons, Hw; exact Hws | exact Hr].
Qed.

Lemma three_letters_app a b c r :
  is_alpha a = true -> is_alpha b = true -> is_alpha c = true ->
  three_letters (String a (String b (String c r)))
  = Some (String a (String b (String c "")), r).
Proof. intros Ha Hb Hc. unfold three_letters. rewrite Ha, Hb, Hc. reflexivity. Qed.

Lemma after_amount_accepts amount gap1 cur_from gap2 to gap3 cur_to trail :
  gap gap1 = true -> code_part cur_from = true -> gap gap2 = true ->
  to_part to = true -> gap gap3 = true -> code_part cur_to = true ->
  blank trail = true ->
  after_amount amount (gap1 ++ cur_from ++ gap2 ++ to ++ gap3 ++ cur_to ++ trail)
  = Some (amount, cur_from, cur_to).
Proof.
  intros H1 Hf H2 Hto H3 Ht Htr.
  apply gap_inv in H1 as (w1 & ws1 & -> & Hw1 & Hws1).
  apply gap_inv in H2 as (w2 & ws2 & -> & Hw2 & Hws2).
  apply gap_inv in H3 as (w3 & ws3 & -> & Hw3 & Hws3).
  apply code_part_inv in Hf as (a & b & c & -> & Ha & Hb & Hc).
  apply code_part_inv in Ht as (a' & b' & c' & -> & Ha' & Hb' & Hc').
  apply to_part_inv in Hto as (t & o & -> & Hlt & Hlo).
  unfold after_amount. rewrite !app_cons, !app_nil.
  rewrite spaces1_app; [|assumption|assumption|simpl; apply alpha_not_space, Ha].
  cbn [mbind option_bind]. rewrite three_letters_app by assumption.
  cbn [mbind option_bind]. rewrite spaces1_app; [|assumption|assumption|].
  2:{ simpl. apply (lower_t_not_space t "t"); [reflexivity | exact Hlt]. }
  cbn [mbind option_bind]. rewrite Hlt, Hlo. cbn [Ascii.eqb Bool.eqb andb].
  rewrite spaces1_app; [|assumption|assumption|simpl; apply alpha_not_space, Ha'].
  cbn [mbind option_bind]. rewrite three_letters_app by assumption.
  cbn [mbind option_bind]. rewrite (lstrip_by_all _ _ Htr). reflexivity.
Qed.

Lemma REQ_RE_match_parts text :
  REQ_RE_match text =
    match read_amount (lstrip_by is_space text) with
    | Some (amount, s) => after_amount amount s
    | None => None
    end.
Proof.
  unfold REQ_RE_match, read_amount, after_amount.
  destruct (match lstrip_by is_space text with
            | String a r =>
                if (Ascii.eqb a "-" || Ascii.eqb a "+")%char
                then (String a EmptyString, r)
                else ("", lstrip_by is_space text)
            | EmptyString => ("", lstrip_by is_space text)
            end) as [sign s1].
  destruct (span is_digit s1) as [intpart s2].
  destruct (intpart =? "")%string; [reflexivity|].
  destruct (match s2 with
            | String sep r =>
                if (Ascii.eqb sep "." || Ascii.eqb sep ",")%char then
                  match span is_digit r with
                  | (EmptyString, _) => ("", s2)
                  | (digits, r') => (String sep digits, r')
                  end
                else ("", s2)
            | EmptyString => ("", s2)
            end) as [frac s3].
  reflexivity.
Qed.

Lemma read_amount_accepts sign int frac w r :
  sign_part sign = true -> digits1 int = true -> frac_part frac = true ->
  is_space w = true ->
  read_amount (sign ++ int ++ frac ++ String w r)
  = Some (sign ++ int ++ frac, String w r).
Proof.
  intros Hs Hi Hf Hw.
  apply digits1_inv in Hi as (d & ds & -> & Hd & Hds).
  assert (span is_digit (String d (ds ++ frac ++ String w r))
          = (String d ds, frac ++ String w r)) as Hint.
  { pose proof (span_app is_digit (String d ds) (frac ++ String w r)) as H.
    rewrite app_cons in H. apply H; [rewrite all_cons, Hd; exact Hds|].
    apply frac_part_inv in Hf as [-> | (sep & f & fs & -> & Hsep & _)]; simpl.
    - apply space_not_digit, Hw.
    - apply sep_not_digit, Hsep. }
  assert (match frac ++ String w r with
          | String sep r0 =>
              if (Ascii.eqb sep "." || Ascii.eqb sep ",")%char then
                match span is_digit r0 with
                | (EmptyString, _) => ("", frac ++ String w r)
                | (digits, r') => (String sep digits, r')
                end
              else ("", frac ++ String w r)
          | EmptyString => ("", frac ++ String w r)
          end = (frac, String w r)) as Hfrac.
  { apply frac_part_inv in Hf as [-> | (sep & f & fs & -> & Hsep & Hf0 & Hfs)].
    - rewrite app_nil. pose proof (space_not_sep w Hw) as Hn. unfold is_sep in Hn.
      rewrite Hn. reflexivity.
    - rewrite !app_cons. unfold is_sep in Hsep. rewrite Hsep.
      pose proof (span_app is_digit (String f fs) (String w r)) as H.
      rewrite app_cons in H. rewrite H; [reflexivity | rewrite all_cons, Hf0; exact Hfs|].
      simpl. apply space_not_digit, Hw. }
  unfold read_amount.
  apply sign_part_inv in Hs as [-> | [-> | ->]].
  - rewrite app_nil, app_cons. rewrite (digit_not_sign d Hd).
    rewrite Hint. cbn [String.eqb]. rewrite Hfrac. reflexivity.
  - rewrite !app_cons, app_nil. cbn [Ascii.eqb Bool.eqb orb andb].
    rewrite Hint. cbn [String.eqb]. rewrite Hfrac. reflexivity.
  - rewrite !app_cons, app_nil. cbn [Ascii.eqb Bool.eqb orb andb].
    rewrite Hint. cbn [String.eqb]. rewrite Hfrac. reflexivity.
Qed.

Lemma REQ_RE_match_built (lead sign int frac gap1 cur_from gap2 to gap3 cur_to trail : string) :
  blank lead = true -> sign_part sign = true -> digits1 int = true ->
  frac_part frac = true -> gap gap1 = true -> code_part cur_from = true ->
  gap gap2 = true -> to_part to = true -> gap gap3 = true ->
  code_part cur_to = true -> blank trail = true ->
  REQ_RE_match (lead ++ sign ++ int ++ frac ++ gap1 ++ cur_from ++ gap2 ++ to
                ++ gap3 ++ cur_to ++ trail)
  = Some (sign ++ int ++ frac, cur_from, cur_to).
Proof.
  intros Hl Hs Hi Hf H1 Hcf H2 Hto H3 Hct Htr.
  rewrite REQ_RE_match_parts.
  destruct (gap_inv _ H1) as (w1 & ws1 & E1 & Hw1 & Hws1).
  assert (lstrip_by is_space
            (lead ++ sign ++ int ++ frac ++ gap1 ++ cur_from ++ gap2 ++ to
             ++ gap3 ++ cur_to ++ trail)
          = sign ++ int ++ frac ++ gap1 ++ cur_from ++ gap2 ++ to
             ++ gap3 ++ cur_to ++ trail) as ->.
  { apply lstrip_by_app; [exact Hl|].
    destruct (digits1_inv _ Hi) as (d & ds & -> & Hd & _).
    destruct (sign_part_inv _ Hs) as [-> | [-> | ->]]; simpl; try reflexivity.
    apply digit_not_space, Hd. }
  rewrite E1 at 1. rewrite app_cons.
  rewrite read_amount_accepts by assumption.
  rewrite <- app_cons, <- E1.
  apply after_amount_accepts; assumption.
Qed.

(** *** Reading the parts back *)

Lemma lstrip_by_split p s :
  exists lead, s = lead ++ lstrip_by p s /\ all p lead = true.
Proof.
  induction s as [|a s IH]; [exists ""; auto|]. simpl.
  destruct (p a) eqn:Ea.
  - destruct IH as (lead & E & Hl). exists (String a lead).
    rewrite app_cons, <- E, all_cons, Ea. auto.
  - exists "". auto.
Qed.

Lemma spaces1_gap s r : spaces1 s = Some r -> exists g, s = g ++ r /\ gap g = true.
Proof.
  unfold spaces1. destruct (span is_space s) as [x y] eqn:E.
  destruct x as [|w ws]; [discriminate|]. intros H. injection H as ->.
  exists (String w ws). split; [apply (span_eq _ _ _ _ E)|].
  unfold gap. apply (span_all_true _ _ _ _ E).
Qed.

Lemma three_letters_code s f r :
  three_letters s = Some (f, r) -> s = f ++ r /\ code_part f = true.
Proof.
  unfold three_letters. destruct s as [|a [|b [|c s]]]; try discriminate.
  destruct (is_alpha a && is_alpha b && is_alpha c) eqn:E; [|discriminate].
  intros H. injection H as <- <-. split; [reflexivity | exact E].
Qed.

Lemma after_amount_inv amount s g :
  after_amount amount s = Some g ->
  exists gap1 cur_from gap2 to gap3 cur_to trail,
    g = (amount, cur_from, cur_to)
    /\ s = gap1 ++ cur_from ++ gap2 ++ to ++ gap3 ++ cur_to ++ trail
    /\ gap gap1 = true /\ code_part cur_from = true /\ gap gap2 = true
    /\ to_part to = true /\ gap gap3 = true /\ code_part cur_to = true
    /\ blank trail = true.
Proof.
  unfold after_amount.
  destruct (spaces1 s) as [s1|] eqn:E1; [|discriminate]. cbn [mbind option_bind].
  destruct (three_letters s1) as [[cur_from s2]|] eqn:E2; [|discriminate].
  cbn [mbind option_bind].
  destruct (spaces1 s2) as [s3|] eqn:E3; [|discriminate]. cbn [mbind option_bind].
  destruct s3 as [|t [|o s4]]; try discriminate.
  destruct (Ascii.eqb (lower_char t) "t" && Ascii.eqb (lower_char o) "o")%char eqn:Eto;
    [|discriminate].
  destruct (spaces1 s4) as [s5|] eqn:E5; [|discriminate]. cbn [mbind option_bind].
  destruct (three_letters s5) as [[cur_to s6]|] eqn:E6; [|discriminate].
  cbn [mbind option_bind].
  destruct (String.eqb_spec (lstrip_by is_space s6) "") as [E7|]; [|discriminate].
  intros H. injection H as <-.
  apply spaces1_gap in E1 as (gap1 & -> & H1).
  apply three_letters_code in E2 as [-> Hf].
  apply spaces1_gap in E3 as (gap2 & -> & H2).
  apply spaces1_gap in E5 as (gap3 & -> & H3).
  apply three_letters_code in E6 as [-> Ht].
  apply lstrip_by_all_inv in E7.
  exists gap1, cur_from, gap2, (String t (String o "")), gap3, cur_to, s6.
  assert (to_part (String t (String o "")) = true) as Hto.
  { unfold to_part. simpl. apply andb_true_iff in Eto as [Et Eo].
    apply Ascii.eqb_eq in Et, Eo. rewrite Et, Eo. reflexivity. }
  repeat (split; [first [reflexivity | assumption]|]). exact E7.
Qed.

Lemma read_amount_inv s amount rest :
  read_amount s = Some (amount, rest) ->
  exists sign int frac,
    amount = sign ++ int ++ frac /\ s = amount ++ rest
    /\ sign_part sign = true /\ digits1 int = true /\ frac_part frac = true.
Proof.
  unfold read_amount.
  assert (exists sign s1,
    match s with
    | String a r =>
        if (Ascii.eqb a "-" || Ascii.eqb a "+")%char
        then (String a EmptyString, r) else ("", s)
    | EmptyString => ("", s)
    end = (sign, s1) /\ s = sign ++ s1 /\ sign_part sign = true)
    as (sign & s1 & -> & -> & Hs).
  { destruct s as [|a r]; [exists "", ""; auto|].
    destruct (Ascii.eqb_spec a "-") as [->|]; [exists "-", r; auto|].
    destruct (Ascii.eqb_spec a "+") as [->|]; [exists "+", r; auto|].
    exists "", (String a r). auto. }
  destruct (span is_digit s1) as [int s2] eqn:E1.
  pose proof (span_all_true _ _ _ _ E1) as Hint.
  apply span_eq in E1 as ->.
  destruct (String.eqb_spec int "") as [|Hne]; [discriminate|].
  assert (exists frac s3,
    match s2 with
    | String sep r =>
        if (Ascii.eqb sep "." || Ascii.eqb sep ",")%char then
          match span is_digit r with
          | (EmptyString, _) => ("", s2)
          | (digits, r') => (String sep digits, r')
          end
        else ("", s2)
    | EmptyString => ("", s2)
    end = (frac, s3) /\ s2 = frac ++ s3 /\ frac_part frac = true)
    as (frac & s3 & -> & -> & Hf).
  { destruct s2 as [|sep r]; [exists "", ""; auto|].
    destruct (Ascii.eqb sep "." || Ascii.eqb sep ",")%char eqn:Esep;
      [|exists "", (String sep r); auto].
    destruct (span is_digit r) as [x y] eqn:E.
    destruct x as [|d x]; [exists "", (String sep r); auto|].
    pose proof (span_all_true _ _ _ _ E) as Hx.
    apply span_eq in E as ->. exists (String sep (String d x)), y.
    split; [reflexivity|]. split; [reflexivity|].
    simpl. unfold is_sep. rewrite Esep. exact Hx. }
  intros H. injection H as <- <-. exists sign, int, frac.
  split; [reflexivity|]. split; [rewrite !str_app_assoc; reflexivity|].
  split; [exact Hs|]. split; [|exact Hf].
  unfold digits1. rewrite Hint. destruct int; [contradiction | reflexivity].
Qed.

Lemma REQ_RE_match_inv (text amount cur_from cur_to : string) :
  REQ_RE_match text = Some (amount, cur_from, cur_to) ->
  exists lead sign int frac gap1 gap2 to gap3 trail,
    text = lead ++ sign ++ int ++ frac ++ gap1 ++ cur_from ++ gap2 ++ to
           ++ gap3 ++ cur_to ++ trail
    /\ amount = sign ++ int ++ frac
    /\ blank lead = true /\ sign_part sign = true /\ digits1 int = true
    /\ frac_part frac = true /\ gap gap1 = true /\ code_part cur_from = true
    /\ gap gap2 = true /\ to_part to = true /\ gap gap3 = true
    /\ code_part cur_to = true /\ blank trail = true.
Proof.
  rewrite REQ_RE_match_parts. intros H.
  destruct (lstrip_by_split is_space text) as (lead & Etext & Hlead).
  destruct (read_amount (lstrip_by is_space text)) as [[amount' rest]|] eqn:Ea;
    [|discriminate].
  apply read_amount_inv in Ea as (sign & int & frac & -> & Es & Hs & Hi & Hf).
  apply after_amount_inv in H
    as (gap1 & f & gap2 & to & gap3 & t & trail & Eg & -> & H1 & Hcf & H2 & Hto
        & H3 & Hct & Htr).
  injection Eg as -> -> ->.
  exists lead, sign, int, frac, gap1, gap2, to, gap3, trail.
  split.
  { rewrite Etext at 1. rewrite Es. rewrite !str_app_assoc. reflexivity. }
  repeat (split; [first [reflexivity | assumption]|]). exact Htr.
Qed.

(** X11: every text of the shape the pattern describes is matched, and the
    groups are its amount and its two codes as written. *)
Theorem REQ_RE_accepts (lead sign int frac gap1 cur_from gap2 to gap3 cur_to trail : string) :
  blank lead = true -> sign_part sign = true -> digits1 int = true ->
  frac_part frac = true -> gap gap1 = true -> code_part cur_from = true ->
  gap gap2 = true -> to_part to = true -> gap gap3 = true ->
  code_part cur_to = true -> blank trail = true ->
  REQ_RE_match (lead ++ sign ++ int ++ frac ++ gap1 ++ cur_from ++ gap2 ++ to
                ++ gap3 ++ cur_to ++ trail)
  = Some (sign ++ int ++ frac, cur_from, cur_to).
Proof. apply REQ_RE_match_built. Qed.

(** X12: among the texts of ASCII characters nothing else is matched: a
    matched text of ASCII characters is made of the parts of the pattern,
    in order, and the groups are the amount and the two codes as they
    stand in the text. *)
Theorem REQ_RE_accepts_only (text amount cur_from cur_to : string) :
  ascii_text text = true ->
  REQ_RE_match text = Some (amount, cur_from, cur_to) ->
  exists lead sign int frac gap1 gap2 to gap3 trail,
    text = lead ++ sign ++ int ++ frac ++ gap1 ++ cur_from ++ gap2 ++ to
           ++ gap3 ++ cur_to ++ trail
    /\ amount = sign ++ int ++ frac
    /\ blank lead = true /\ sign_part sign = true /\ digits1 int = true
    /\ frac_part frac = true /\ gap gap1 = true /\ code_part cur_from = true
    /\ gap gap2 = true /\ to_part to = true /\ gap gap3 = true
    /\ code_part cur_to = true /\ blank trail = true.
Proof. intros _. apply REQ_RE_match_inv. Qed.

(** *** The amount as a decimal *)

Lemma amount_char_plain a :
  amount_char a = true -> is_space a = false /\ Ascii.eqb "_" a = false.
Proof.
  unfold amount_char. intros H.
  destruct (is_digit a) eqn:Ed.
  - split; [apply digit_not_space, Ed|].
    destruct (Ascii.eqb_spec "_" a) as [<-|]; [discriminate | reflexivity].
  - simpl in H. apply orb_true_iff in H as [H | H];
      [apply orb_true_iff in H as [H | H]|]; apply Ascii.eqb_eq in H; subst;
      split; reflexivity.
Qed.

Lemma all_weaken (p q : ascii -> bool) s :
  (forall a, p a = true -> q a = true) -> all p s = true -> all q s = true.
Proof.
  intros Hpq. induction s as [|a s IH]; [reflexivity|]. rewrite !all_cons.
  intros H. apply andb_true_iff in H as [Ha Hs]. rewrite (Hpq a Ha), (IH Hs). reflexivity.
Qed.

Lemma all_none p q s :
  (forall a, p a = true -> q a = false) -> all p s = true -> any q s = false.
Proof.
  intros Hpq. induction s as [|a s IH]; [reflexivity|]. rewrite all_cons. simpl.
  intros H. apply andb_true_iff in H as [Ha Hs]. rewrite (Hpq a Ha), (IH Hs). reflexivity.
Qed.

Lemma map_chars_app f x y : map_chars f (x ++ y) = map_chars f x ++ map_chars f y.
Proof.
  induction x as [|a x IH]; [reflexivity|]. rewrite app_cons. simpl. rewrite IH. reflexivity.
Qed.

Lemma map_chars_fixed f s :
  all (λ a, Ascii.eqb (f a) a) s = true -> map_chars f s = s.
Proof.
  induction s as [|a s IH]; [reflexivity|]. rewrite all_cons. intros H.
  apply andb_true_iff in H as [Ha Hs]. apply Ascii.eqb_eq in Ha.
  simpl. rewrite Ha, (IH Hs). reflexivity.
Qed.

Lemma delete_absent (old : ascii) (s : string) :
  any (Ascii.eqb old) s = false -> replace (String old "") "" s = s.
Proof.
  unfold replace. induction s as [|a s IH]; [reflexivity|]. simpl any. intros H.
  apply orb_false_iff in H as [Ha Hs].
  unfold replace_go; fold replace_go. rewrite prefix_one, Ha, (IH Hs). reflexivity.
Qed.

Lemma lstrip_by_none p s : any p s = false -> lstrip_by p s = s.
Proof.
  destruct s as [|a s]; [reflexivity|]. simpl. intros H.
  apply orb_false_iff in H as [-> _]. reflexivity.
Qed.

Lemma strip_plain s : any is_space s = false -> strip s = s.
Proof.
  intros H. unfold strip. rewrite lstrip_by_none by exact H. apply rstrip_by_none, H.
Qed.

Lemma subst_comma_digit a : is_digit a = true -> Ascii.eqb (subst_char "," "." a) a = true.
Proof.
  intros H. unfold subst_char.
  destruct (Ascii.eqb_spec "," a) as [<-|]; [discriminate | apply Ascii.eqb_refl].
Qed.

Lemma replace_comma sign int frac :
  sign_part sign = true -> digits1 int = true -> frac_part frac = true ->
  replace "," "." (sign ++ int ++ frac) = pointed sign int frac.
Proof.
  intros Hs Hi Hf. rewrite replace_char, !map_chars_app. unfold pointed.
  unfold digits1 in Hi. apply andb_true_iff in Hi as [_ Hi].
  rewrite (map_chars_fixed _ int) by (eapply all_weaken; [apply subst_comma_digit | exact Hi]).
  f_equal; [|f_equal].
  - apply sign_part_inv in Hs as [-> | [-> | ->]]; reflexivity.
  - apply frac_part_inv in Hf as [-> | (sep & f & fs & -> & Hsep & Hf0 & Hfs)];
      [reflexivity|].
    change (map_chars (subst_char "," ".") (String sep (String f fs)))
      with (String (subst_char "," "." sep) (map_chars (subst_char "," ".") (String f fs))).
    rewrite (map_chars_fixed _ (String f fs)).
    + f_equal. unfold is_sep in Hsep. apply orb_true_iff in Hsep as [H | H];
        apply Ascii.eqb_eq in H; subst; reflexivity.
    + eapply all_weaken; [apply subst_comma_digit|]. rewrite all_cons, Hf0. exact Hfs.
Qed.

Lemma pointed_chars sign int frac :
  sign_part sign = true -> digits1 int = true -> frac_part frac = true ->
  all amount_char (pointed sign int frac) = true.
Proof.
  intros Hs Hi Hf. unfold pointed. rewrite !all_app.
  unfold digits1 in Hi. apply andb_true_iff in Hi as [_ Hi].
  assert (forall a, is_digit a = true -> amount_char a = true) as Hd.
  { intros a Ha. unfold amount_char. rewrite Ha. reflexivity. }
  rewrite (all_weaken _ _ _ Hd Hi).
  apply sign_part_inv in Hs as [-> | [-> | ->]]; simpl;
    (apply frac_part_inv in Hf as [-> | (sep & f & fs & -> & Hsep & Hf0 & Hfs)];
     [reflexivity|]);
    rewrite all_cons, all_cons, (Hd f Hf0), (all_weaken _ _ _ Hd Hfs); reflexivity.
Qed.

Lemma of_string_pointed sign int frac :
  sign_part sign = true -> digits1 int = true -> frac_part frac = true ->
  of_string (pointed sign int frac)
  = finite_exact (sign =? "-")%string
      (digits_value 0 (int ++ fraction_digits frac))
      (- len (fraction_digits frac)).
Proof.
  intros Hs Hi Hf. pose proof (pointed_chars sign int frac Hs Hi Hf) as Hall.
  unfold of_string.
  rewrite strip_plain
    by (eapply all_none; [|exact Hall]; intros a Ha; apply (amount_char_plain a Ha)).
  rewrite delete_absent
    by (eapply all_none; [|exact Hall]; intros a Ha; apply (amount_char_plain a Ha)).
  destruct (digits1_inv _ Hi) as (d & ds & -> & Hd & Hds).
  set (tail := match frac with
               | EmptyString => EmptyString
               | String _ fs => String "." fs
               end).
  assert (read_sign (pointed sign (String d ds) frac)
          = ((sign =? "-")%string, String d ds ++ tail)) as ->.
  { unfold pointed. fold tail.
    apply sign_part_inv in Hs as [-> | [-> | ->]]; try reflexivity.
    rewrite app_nil, app_cons. unfold read_sign.
    pose proof (digit_not_sign d Hd) as Hn. apply orb_false_iff in Hn as [-> ->].
    reflexivity. }
  assert (span is_digit (String d ds ++ tail) = (String d ds, tail)) as ->.
  { apply span_app; [rewrite all_cons, Hd; exact Hds|].
    unfold tail. destruct frac; simpl; [exact I | reflexivity]. }
  assert (match tail with
          | String a r => if Ascii.eqb a "." then span is_digit r else ("", tail)
          | EmptyString => ("", tail)
          end = (fraction_digits frac, "")) as ->.
  { unfold tail. apply frac_part_inv in Hf as [-> | (sep & f & fs & -> & Hsep & Hf0 & Hfs)];
      [reflexivity|].
    cbn [Ascii.eqb Bool.eqb andb fraction_digits].
    rewrite <- (str_app_nil_r (String f fs)) at 1.
    apply span_app; [rewrite all_cons, Hf0; exact Hfs | exact I]. }
  rewrite app_cons. cbn [String.eqb]. reflexivity.
Qed.

Lemma digits_value_bound s : forall acc : N,
  all is_digit s = true ->
  (digits_value acc s < (acc + 1) * 10 ^ N.of_nat (String.length s))%N.
Proof.
  induction s as [|a s IH]; intros acc H.
  - simpl. lia.
  - rewrite all_cons in H. apply andb_true_iff in H as [Ha Hs].
    simpl digits_value. specialize (IH (10 * acc + (code a - 48))%N Hs).
    simpl String.length. rewrite Nat2N.inj_succ, N.pow_succ_r'.
    assert (code a - 48 <= 9)%N as Hv.
    { unfold is_digit in Ha. apply andb_true_iff in Ha as [_ Ha].
      apply N.leb_le in Ha. lia. }
    revert IH Hv. generalize (10 ^ N.of_nat (String.length s))%N (code a - 48)%N
      (digits_value (10 * acc + (code a - 48)) s). intros P v D. nia.
Qed.

Lemma ndigits_digits_value s :
  all is_digit s = true -> s <> "" ->
  ndigits (digits_value 0 s) <= len s.
Proof.
  intros H Hne. pose proof (digits_value_bound s 0 H) as Hb.
  rewrite N.add_0_l, N.mul_1_l in Hb. unfold len.
  apply ndigits_le.
  - destruct s; [contradiction | simpl; lia].
  - rewrite <- nat_N_Z, N2Z.id. exact Hb.
Qed.

Lemma len_app x y : len (x ++ y) = len x + len y.
Proof. unfold len. rewrite str_app_length. lia. Qed.

(** The amount of a matched text is a decimal literal: reading it gives
    the sign, the digits as coefficient and the number of fraction
    digits as exponent, as long as the text is shorter than the exponent
    range of the constructor. *)
Lemma of_string_amount sign int frac :
  sign_part sign = true -> digits1 int = true -> frac_part frac = true ->
  len (int ++ frac) <= MAX_EMAX ->
  of_string (replace "," "." (sign ++ int ++ frac))
  = Ok (Fin (sign =? "-")%string
            (digits_value 0 (int ++ fraction_digits frac))
            (- len (fraction_digits frac))).
Proof.
  intros Hs Hi Hf Hlen. rewrite replace_comma, of_string_pointed by assumption.
  unfold finite_exact, adjusted.
  assert (len (fraction_digits frac) <= len frac) as Hfl.
  { destruct frac; unfold len; simpl; lia. }
  assert (all is_digit (int ++ fraction_digits frac) = true) as Hd.
  { rewrite all_app. unfold digits1 in Hi. apply andb_true_iff in Hi as [_ ->].
    apply frac_part_inv in Hf as [-> | (sep & f & fs & -> & _ & Hf0 & Hfs)];
      [reflexivity|]. simpl. rewrite all_cons, Hf0. exact Hfs. }
  assert (int ++ fraction_digits frac <> "") as Hne.
  { destruct (digits1_inv _ Hi) as (d & ds & -> & _). discriminate. }
  pose proof (ndigits_digits_value _ Hd Hne) as Hn.
  rewrite len_app in Hn, Hlen.
  assert (0 <= len int /\ 0 <= len (fraction_digits frac)) as [? ?]
    by (unfold len; lia).
  destruct (Z.leb_spec MIN_ETINY (- len (fraction_digits frac)));
    [|unfold MIN_ETINY, MAX_EMAX in *; lia].
  destruct (Z.leb_spec (- len (fraction_digits frac)
                        + ndigits (digits_value 0 (int ++ fraction_digits frac)) - 1)
                       MAX_EMAX);
    [reflexivity | unfold MAX_EMAX in *; lia].
Qed.

(** *** The texts the handler reads *)

Lemma space_not_slash a : is_space a = true -> not_slash a = true.
Proof.
  intros H. unfold not_slash. destruct (Ascii.eqb_spec "/" a) as [<-|]; [discriminate|].
  reflexivity.
Qed.

Lemma digit_not_slash a : is_digit a = true -> not_slash a = true.
Proof.
  intros H. unfold not_slash. destruct (Ascii.eqb_spec "/" a) as [<-|]; [discriminate|].
  reflexivity.
Qed.

Lemma alpha_not_slash a : is_alpha a = true -> not_slash a = true.
Proof.
  intros H. unfold not_slash. destruct (Ascii.eqb_spec "/" a) as [<-|]; [discriminate|].
  reflexivity.
Qed.

Lemma blank_not_slash s : blank s = true -> all not_slash s = true.
Proof. apply all_weaken, space_not_slash. Qed.

Lemma gap_not_slash s : gap s = true -> all not_slash s = true.
Proof.
  unfold gap. intros H. apply andb_true_iff in H as [_ H]. apply blank_not_slash, H.
Qed.

Lemma digits1_not_slash s : digits1 s = true -> all not_slash s = true.
Proof.
  unfold digits1. intros H. apply andb_true_iff in H as [_ H].
  eapply all_weaken; [apply digit_not_slash | exact H].
Qed.

Lemma sign_not_slash s : sign_part s = true -> all not_slash s = true.
Proof. intros H. apply sign_part_inv in H as [-> | [-> | ->]]; reflexivity. Qed.

Lemma frac_not_slash s : frac_part s = true -> all not_slash s = true.
Proof.
  intros H. apply frac_part_inv in H as [-> | (sep & f & fs & -> & Hsep & Hf & Hfs)];
    [reflexivity|].
  rewrite !all_cons, (digit_not_slash f Hf), (all_weaken _ _ _ digit_not_slash Hfs).
  unfold is_sep in Hsep. apply orb_true_iff in Hsep as [H | H];
    apply Ascii.eqb_eq in H; subst; reflexivity.
Qed.

Lemma code_not_slash s : code_part s = true -> all not_slash s = true.
Proof.
  intros H. apply code_part_inv in H as (a & b & c & -> & Ha & Hb & Hc).
  rewrite !all_cons, (alpha_not_slash a Ha), (alpha_not_slash b Hb), (alpha_not_slash c Hc).
  reflexivity.
Qed.

Lemma to_not_slash s : to_part s = true -> all not_slash s = true.
Proof.
  intros H. apply to_part_inv in H as (t & o & -> & Ht & Ho).
  rewrite !all_cons. unfold not_slash.
  destruct (Ascii.eqb_spec "/" t) as [<-|]; [discriminate|].
  destruct (Ascii.eqb_spec "/" o) as [<-|]; [discriminate|]. reflexivity.
Qed.

Lemma prefix_other (a b : ascii) (old s : string) :
  Ascii.eqb a b = false -> String.prefix (String a old) (String b s) = false.
Proof.
  intros H. simpl. destruct (ascii_dec a b) as [->|]; [|reflexivity].
  rewrite Ascii.eqb_refl in H. discriminate.
Qed.

(** Text without a slash passes through the removal of the command word
    as it is, and shields nothing of what follows it. *)
Lemma replace_command_app (x y : string) :
  all not_slash x = true ->
  replace "/convert" "" (x ++ y) = x ++ replace "/convert" "" y.
Proof.
  unfold replace. induction x as [|a x IH]; intros H; [reflexivity|].
  rewrite all_cons in H. apply andb_true_iff in H as [Ha Hx].
  apply negb_true_iff in Ha.
  rewrite !app_cons. unfold replace_go at 1; fold replace_go.
  rewrite (prefix_other _ _ _ _ Ha). rewrite (IH Hx). reflexivity.
Qed.

Lemma replace_command_plain (x : string) :
  all not_slash x = true -> replace "/convert" "" x = x.
Proof.
  intros H. rewrite <- (str_app_nil_r x) at 1.
  rewrite replace_command_app by exact H. apply str_app_nil_r.
Qed.

Lemma rstrip_by_all p s : all p s = true -> rstrip_by p s = "".
Proof.
  induction s as [|a s IH]; [reflexivity|]. rewrite all_cons. intros H.
  apply andb_true_iff in H as [Ha Hs]. simpl. rewrite (IH Hs), Ha. reflexivity.
Qed.

Lemma rstrip_by_last p x a t :
  p a = false -> all p t = true -> rstrip_by p (x ++ String a t) = x ++ String a "".
Proof.
  intros Ha Ht.
  assert (rstrip_by p (String a t) = String a "") as E.
  { simpl. rewrite (rstrip_by_all _ _ Ht), Ha. reflexivity. }
  rewrite rstrip_by_append_keep; rewrite E; [reflexivity | discriminate].
Qed.

(** The handler reads a matched message as the pattern does. *)
Lemma matched_after_strip (text : string) (g : string * string * string) :
  REQ_RE_match text = Some g ->
  let text' := strip (replace "/convert" "" text) in
  REQ_RE_match text' = Some g /\ text' <> ""
  /\ (String.length text' <= String.length text)%nat.
Proof.
  destruct g as [[amount cur_from] cur_to]. intros H.
  apply REQ_RE_match_inv in H
    as (lead & sign & int & frac & gap1 & gap2 & to & gap3 & trail & -> & -> & Hl & Hs
        & Hi & Hf & H1 & Hcf & H2 & Hto & H3 & Hct & Htr).
  cbv zeta.
  rewrite replace_command_plain.
  2:{ rewrite !all_app, (blank_not_slash _ Hl), (sign_not_slash _ Hs),
        (digits1_not_slash _ Hi), (frac_not_slash _ Hf), (gap_not_slash _ H1),
        (code_not_slash _ Hcf), (gap_not_slash _ H2), (to_not_slash _ Hto),
        (gap_not_slash _ H3), (code_not_slash _ Hct), (blank_not_slash _ Htr).
      reflexivity. }
  assert (strip (lead ++ sign ++ int ++ frac ++ gap1 ++ cur_from ++ gap2 ++ to
                 ++ gap3 ++ cur_to ++ trail)
          = "" ++ sign ++ int ++ frac ++ gap1 ++ cur_from ++ gap2 ++ to
               ++ gap3 ++ cur_to ++ "") as ->.
  { unfold strip. rewrite lstrip_by_app; [|exact Hl|].
    2:{ destruct (digits1_inv _ Hi) as (d & ds & -> & Hd & _).
        destruct (sign_part_inv _ Hs) as [-> | [-> | ->]]; simpl; try reflexivity.
        apply digit_not_space, Hd. }
    destruct (code_part_inv _ Hct) as (a & b & c & -> & Ha & Hb & Hc).
    rewrite app_nil.
    replace (sign ++ int ++ frac ++ gap1 ++ cur_from ++ gap2 ++ to ++ gap3
             ++ String a (String b (String c "")) ++ trail)
      with ((sign ++ int ++ frac ++ gap1 ++ cur_from ++ gap2 ++ to ++ gap3
             ++ String a (String b "")) ++ String c trail)
      by (rewrite !str_app_assoc; reflexivity).
    rewrite rstrip_by_last; [|apply alpha_not_space, Hc | exact Htr].
    rewrite !str_app_assoc. reflexivity. }
  split; [apply REQ_RE_match_built; solve [assumption | reflexivity]|].
  split.
  - destruct (digits1_inv _ Hi) as (d & ds & -> & _).
    destruct (sign_part_inv _ Hs) as [-> | [-> | ->]]; discriminate.
  - rewrite !str_app_length. simpl. lia.
Qed.

Lemma length_amount_le text amount cur_from cur_to :
  REQ_RE_match text = Some (amount, cur_from, cur_to) ->
  exists sign int frac,
    amount = sign ++ int ++ frac /\ sign_part sign = true /\ digits1 int = true
    /\ frac_part frac = true /\ len (int ++ frac) <= len text.
Proof.
  intros H. apply REQ_RE_match_inv in H
    as (lead & sign & int & frac & gap1 & gap2 & to & gap3 & trail & -> & -> & Hl & Hs
        & Hi & Hf & _).
  exists sign, int, frac. repeat (split; [first [reflexivity | assumption]|]).
  unfold len. rewrite !str_app_length. lia.
Qed.

(** The explicit grammar on a matched text: the amount is read as a
    decimal with the fraction digits as its exponent. *)
Lemma explicit_matched text amount cur_from cur_to :
  REQ_RE_match text = Some (amount, cur_from, cur_to) ->
  len text <= MAX_EMAX ->
  exists sign int frac,
    amount = sign ++ int ++ frac
    /\ sign_part sign = true /\ digits1 int = true /\ frac_part frac = true
    /\ parse text
       = Ok (Request (upper cur_from) (upper cur_to)
               (Fin (sign =? "-")%string
                    (digits_value 0 (int ++ fraction_digits frac))
                    (- len (fraction_digits frac)))).
Proof.
  intros H Hlen.
  destruct (length_amount_le _ _ _ _ H) as (sign & int & frac & E & Hs & Hi & Hf & Hle).
  exists sign, int, frac. repeat (split; [assumption|]).
  eapply parse_explicit_request; [exact H|]. rewrite E.
  apply of_string_amount; try assumption. lia.
Qed.

(** X13: whatever the text, as long as it is shorter than 10^18 characters,
    the parsing part of the handler does not raise: the bare-number
    attempt is caught, and the amount of a matched text is always a
    decimal literal. *)
Theorem parse_never_raises (text : string) :
  len text <= MAX_EMAX -> exists p, parse text = Ok p.
Proof.
  intros Hlen. destruct (REQ_RE_match text) as [[[amount cur_from] cur_to]|] eqn:E.
  - destruct (explicit_matched _ _ _ _ E Hlen) as (sign & int & frac & _ & _ & _ & _ & ->).
    eauto.
  - unfold parse, explicit. rewrite E. destruct (quick text); eauto.
Qed.

(** X14: a message that the pattern matches is read by the handler as the
    request the pattern finds in it: the two codes in upper case, and
    the amount as the decimal whose sign is the written sign, whose
    coefficient is the written digits and whose exponent counts the
    digits after the separator, comma or point alike.  The answers for
    an empty text, for a zero amount and for a text out of format do
    not occur. *)
Theorem matched_message_is_a_request (message_text amount cur_from cur_to : string) :
  REQ_RE_match message_text = Some (amount, cur_from, cur_to) ->
  len message_text <= MAX_EMAX ->
  let text := strip (replace "/convert" "" message_text) in
  text <> ""
  /\ exists sign int frac,
       amount = sign ++ int ++ frac
       /\ sign_part sign = true /\ digits1 int = true /\ frac_part frac = true
       /\ parse text
          = Ok (Request (upper cur_from) (upper cur_to)
                  (Fin (sign =? "-")%string
                       (digits_value 0 (int ++ fraction_digits frac))
                       (- len (fraction_digits frac)))).
Proof.
  intros H Hlen. destruct (matched_after_strip _ _ H) as (Hm & Hne & Hle).
  cbv zeta. split; [exact Hne|].
  apply (explicit_matched _ _ _ _ Hm). unfold len in *. lia.
Qed.

Lemma replace_command_head (b : string) :
  replace "/convert" "" ("/convert" ++ b) = replace "/convert" "" b.
Proof.
  assert (String.prefix "/convert" ("/convert" ++ b) = true) as H.
  { simpl. destruct b; reflexivity. }
  unfold replace.
  change ("/convert" ++ b) with (String "/" ("convert" ++ b)) in *.
  unfold replace_go at 1; fold replace_go. rewrite H. reflexivity.
Qed.

(** X15: the command word is dropped wherever it stands in the message, as
    long as no slash comes before it. *)
Theorem command_word_is_dropped (a b : string) (w : Cache.world) (s : Cache.state) :
  all not_slash a = true ->
  convert_handler (a ++ "/convert" ++ b) w s = convert_handler (a ++ b) w s.
Proof.
  intros Ha. unfold convert_handler.
  rewrite (replace_command_app a ("/convert" ++ b) Ha), replace_command_head.
  rewrite (replace_command_app a b Ha).
  reflexivity.
Qed.

Lemma convert_handler_same_parse (m1 m2 : string) (w : Cache.world) (s : Cache.state) :
  strip (replace "/convert" "" m1) <> "" ->
  strip (replace "/convert" "" m2) <> "" ->
  parse (strip (replace "/convert" "" m1)) = parse (strip (replace "/convert" "" m2)) ->
  convert_handler m1 w s = convert_handler m2 w s.
Proof.
  intros H1 H2 Hp. unfold convert_handler.
  destruct (String.eqb_spec (strip (replace "/convert" "" m1)) ""); [contradiction|].
  destruct (String.eqb_spec (strip (replace "/convert" "" m2)) ""); [contradiction|].
  rewrite Hp. reflexivity.
Qed.

(** X16: two matched messages with the same amount, comma or point alike,
    and the same codes up to the case of their letters get the same
    answer: spacing, the case of the codes and of the word between them
    and the choice of separator make no difference. *)
Theorem same_request_same_answer (m1 m2 amount1 amount2 from1 to1 from2 to2 : string)
    (w : Cache.world) (s : Cache.state) :
  REQ_RE_match m1 = Some (amount1, from1, to1) ->
  REQ_RE_match m2 = Some (amount2, from2, to2) ->
  replace "," "." amount1 = replace "," "." amount2 ->
  upper from1 = upper from2 -> upper to1 = upper to2 ->
  convert_handler m1 w s = convert_handler m2 w s.
Proof.
  intros H1 H2 Ha Hf Ht.
  destruct (matched_after_strip _ _ H1) as (Hm1 & Hne1 & _).
  destruct (matched_after_strip _ _ H2) as (Hm2 & Hne2 & _).
  apply convert_handler_same_parse; [exact Hne1 | exact Hne2|].
  rewrite (parse_explicit _ _ Hm1), (parse_explicit _ _ Hm2).
  unfold explicit. rewrite Hm1, Hm2, Ha, Hf, Ht. reflexivity.
Qed.

(** X17: a bare amount is shorthand for a request between BYN and RUB: the
    handler treats a positive one as the request from BYN to RUB and a
    negative one, of at most 28 digits, as the request from RUB to BYN
    for the amount without its sign. *)
Theorem bare_amount_is_shorthand (sign int frac : string)
    (w : Cache.world) (s : Cache.state) :
  sign_part sign = true -> digits1 int = true -> frac_part frac = true ->
  digits_value 0 (int ++ fraction_digits frac) <> 0%N ->
  len (int ++ frac) <= MAX_EMAX - 20 ->
  (sign = "-" -> len (int ++ fraction_digits frac) <= prec) ->
  convert_handler (sign ++ int ++ frac) w s
  = convert_handler
      (int ++ frac ++ (if (sign =? "-")%string then " RUB to BYN" else " BYN to RUB")) w s.
Proof.
  intros Hs Hi Hf Hnz Hlen Hneg.
  pose proof (of_string_amount sign int frac Hs Hi Hf ltac:(lia)) as Hd.
  pose proof (of_string_amount "" int frac eq_refl Hi Hf ltac:(lia)) as Hd0.
  rewrite app_nil in Hd0. change ("" =? "-")%string with false in Hd0.
  set (c := digits_value 0 (int ++ fraction_digits frac)) in *.
  set (e := - len (fraction_digits frac)) in *.
  (* the bare amount *)
  assert (all not_slash (sign ++ int ++ frac) = true) as Hns.
  { rewrite !all_app, (sign_not_slash _ Hs), (digits1_not_slash _ Hi),
      (frac_not_slash _ Hf). reflexivity. }
  assert (any is_space (sign ++ int ++ frac) = false) as Hsp.
  { pose proof (pointed_chars sign int frac Hs Hi Hf) as Hall.
    rewrite <- replace_comma in Hall by assumption.
    rewrite replace_char in Hall.
    assert (any is_space (map_chars (subst_char "," ".") (sign ++ int ++ frac)) = false) as Hn.
    { eapply all_none; [|exact Hall]. intros a Ha. apply (amount_char_plain a Ha). }
    rewrite any_map_chars in Hn by apply subst_comma_space. exact Hn. }
  assert (strip (replace "/convert" "" (sign ++ int ++ frac)) = sign ++ int ++ frac) as E1.
  { rewrite replace_command_plain by exact Hns. apply strip_plain, Hsp. }
  assert (parse (sign ++ int ++ frac)
          = Ok (if (sign =? "-")%string then Request "RUB" "BYN" (Fin false c e)
                else Request "BYN" "RUB" (Fin false c e))) as P1.
  { unfold parse. rewrite (quick_finite _ _ _ _ Hd).
    destruct (N.eqb_spec c 0); [contradiction|].
    destruct (String.eqb_spec sign "-") as [Hm|]; [|reflexivity].
    rewrite fix_id; [reflexivity | | |].
    - specialize (Hneg Hm).
      assert (all is_digit (int ++ fraction_digits frac) = true) as Hdg.
      { rewrite all_app. unfold digits1 in Hi. apply andb_true_iff in Hi as [_ ->].
        apply frac_part_inv in Hf as [-> | (sep & f & fs & -> & _ & Hf0 & Hfs)];
          [reflexivity|]. simpl. rewrite all_cons, Hf0. exact Hfs. }
      assert (int ++ fraction_digits frac <> "") as Hne.
      { destruct (digits1_inv _ Hi) as (d & ds & -> & _). discriminate. }
      pose proof (ndigits_digits_value _ Hdg Hne). fold c in H. lia.
    - specialize (Hneg Hm). rewrite len_app in Hneg.
      assert (0 <= len int) by (unfold len; lia).
      unfold e, Etiny, Emin, prec in *. lia.
    - specialize (Hneg Hm). pose proof (ndigits_pos c).
      assert (all is_digit (int ++ fraction_digits frac) = true) as Hdg.
      { rewrite all_app. unfold digits1 in Hi. apply andb_true_iff in Hi as [_ ->].
        apply frac_part_inv in Hf as [-> | (sep & f & fs & -> & _ & Hf0 & Hfs)];
          [reflexivity|]. simpl. rewrite all_cons, Hf0. exact Hfs. }
      assert (int ++ fraction_digits frac <> "") as Hne.
      { destruct (digits1_inv _ Hi) as (d & ds & -> & _). discriminate. }
      pose proof (ndigits_digits_value _ Hdg Hne) as Hnd. fold c in Hnd.
      assert (0 <= len (fraction_digits frac)) by (unfold len; lia).
      unfold e, Emax, prec in *. lia. }
  (* the explicit request *)
  assert (exists cur_from cur_to,
            REQ_RE_match (int ++ frac ++ (if (sign =? "-")%string
                                          then " RUB to BYN" else " BYN to RUB"))
            = Some (int ++ frac, cur_from, cur_to)
            /\ (if (sign =? "-")%string
                then Request "RUB" "BYN" (Fin false c e)
                else Request "BYN" "RUB" (Fin false c e))
               = Request (upper cur_from) (upper cur_to) (Fin false c e))
    as (cur_from & cur_to & Hm & Hreq).
  { destruct (sign =? "-")%string.
    - exists "RUB", "BYN". split; [|reflexivity].
      pose proof (REQ_RE_match_built "" "" int frac " " "RUB" " " "to" " " "BYN" "") as H.
      rewrite !app_nil in H. apply H; solve [assumption | reflexivity].
    - exists "BYN", "RUB". split; [|reflexivity].
      pose proof (REQ_RE_match_built "" "" int frac " " "BYN" " " "to" " " "RUB" "") as H.
      rewrite !app_nil in H. apply H; solve [assumption | reflexivity]. }
  destruct (matched_after_strip _ _ Hm) as (Hm' & Hne' & _).
  apply convert_handler_same_parse.
  - rewrite E1. destruct (digits1_inv _ Hi) as (d & ds & -> & _).
    destruct (sign_part_inv _ Hs) as [-> | [-> | ->]]; discriminate.
  - exact Hne'.
  - rewrite E1, P1, Hreq. symmetry.
    apply (parse_explicit_request _ _ _ _ _ Hm'). exact Hd0.
Qed.

End GrammarFacts.

(** ** Signs, the base currency and what is shown *)

Module AnswerFacts.
Import Str Dec Cache Handler Spec Real Sign StrFacts DecFacts TextFacts ParseFacts FmtFacts
  HandlerFacts RoundFacts ArithFacts RoundTrip.

Lemma fix_negate (s : bool) (c : N) (e : Z) :
  fix_ (Fin (negb s) c e) = result_map negate (fix_ (Fin s c e)).
Proof.
  unfold fix_.
  repeat match goal with
         | |- context [if ?b then _ else _] => destruct b
         | |- context [let '(_, _) := ?p in _] => destruct p
         end; reflexivity.
Qed.

Lemma fix_finite (s : bool) (c : N) (e : Z) (r : Decimal) :
  fix_ (Fin s c e) = Ok r -> exists c' e', r = Fin s c' e'.
Proof.
  unfold fix_.
  repeat match goal with
         | |- context [if ?b then _ else _] => destruct b
         | |- context [let '(_, _) := ?p in _] => destruct p
         end; intros H; try discriminate; injection H as <-; eauto.
Qed.

Lemma mul_negate (s1 : bool) (c1 : N) (e1 : Z) (s2 : bool) (c2 : N) (e2 : Z) :
  mul (Fin (negb s1) c1 e1) (Fin s2 c2 e2)
  = result_map negate (mul (Fin s1 c1 e1) (Fin s2 c2 e2)).
Proof.
  unfold mul. simpl check_nans. cbv iota. rewrite <- negb_xorb_l. apply fix_negate.
Qed.

Lemma div_negate (s1 : bool) (c1 : N) (e1 : Z) (s2 : bool) (c2 : N) (e2 : Z) :
  div (Fin (negb s1) c1 e1) (Fin s2 c2 e2)
  = result_map negate (div (Fin s1 c1 e1) (Fin s2 c2 e2)).
Proof.
  unfold div. simpl check_nans. cbv iota. rewrite <- negb_xorb_l.
  destruct (c2 =? 0)%N; [destruct (c1 =? 0)%N; reflexivity|].
  destruct (c1 =? 0)%N; [apply fix_negate|].
  cbv zeta.
  destruct (if 0 <=? ndigits c2 - ndigits c1 + prec + 1
            then N.div_eucl (c1 * 10 ^ Z.to_N (ndigits c2 - ndigits c1 + prec + 1)) c2
            else N.div_eucl c1 (c2 * 10 ^ Z.to_N (- (ndigits c2 - ndigits c1 + prec + 1))))
    as [coeff remainder].
  destruct (if (remainder =? 0)%N
            then strip_to_ideal (N.to_nat (N.size coeff)) coeff
                   (e1 - e2 - (ndigits c2 - ndigits c1 + prec + 1)) (e1 - e2)
            else ((if (coeff mod 5 =? 0)%N then coeff + 1 else coeff)%N,
                  e1 - e2 - (ndigits c2 - ndigits c1 + prec + 1))) as [coeff' exp'].
  apply fix_negate.
Qed.

(** X18: the amount with the opposite sign converts to the result with the
    opposite sign: rounding in the decimal context does not look at the
    sign. *)
Theorem convert_of_opposite_amount (sf : bool) (cf : N) (ef : Z) (st : bool) (ct : N) (et : Z)
    (s : bool) (c : N) (e : Z) :
  convert (Fin sf cf ef) (Fin st ct et) (Fin (negb s) c e)
  = result_map negate (convert (Fin sf cf ef) (Fin st ct et) (Fin s c e)).
Proof.
  unfold convert. rewrite mul_negate.
  destruct (mul (Fin s c e) (Fin sf cf ef)) as [r|x] eqn:Em; [|reflexivity].
  unfold mul in Em. simpl check_nans in Em. cbv iota in Em.
  apply fix_finite in Em as (c' & e' & ->).
  simpl result_map. rewrite !bind_Ok. apply div_negate.
Qed.

(** *** The base currency *)

Lemma strip_to_ideal_exact (k : nat) : forall (fuel : nat) (c : N) (e : Z),
  (k <= fuel)%nat ->
  strip_to_ideal fuel (c * 10 ^ N.of_nat k) (e - Z.of_nat k) e = (c, e).
Proof.
  induction k as [|k IH]; intros fuel c e Hk.
  - simpl. rewrite N.mul_1_r, Z.sub_0_r.
    destruct fuel as [|f]; [reflexivity|]. simpl. rewrite Z.ltb_irrefl. reflexivity.
  - destruct fuel as [|f]; [lia|].
    replace (N.of_nat (S k)) with (N.of_nat k + 1)%N by lia.
    rewrite pow10_succ. simpl strip_to_ideal.
    destruct (Z.ltb_spec (e - Z.of_nat (S k)) e); [|lia].
    replace (c * (10 * 10 ^ N.of_nat k))%N with (c * 10 ^ N.of_nat k * 10)%N by lia.
    rewrite N.Div0.mod_mul. simpl andb. cbv iota.
    rewrite N.div_mul by discriminate.
    replace (e - Z.of_nat (S k) + 1) with (e - Z.of_nat k) by lia.
    apply IH. lia.
Qed.

Lemma size_above_decades (c : N) (k : nat) :
  c <> 0%N -> (k <= N.to_nat (N.size (c * 10 ^ N.of_nat k)))%nat.
Proof.
  intros Hc.
  pose proof (N.size_gt (c * 10 ^ N.of_nat k)) as Hs.
  assert (2 ^ N.of_nat k <= c * 10 ^ N.of_nat k)%N as Hle.
  { apply N.le_trans with (10 ^ N.of_nat k)%N.
    - apply N.pow_le_mono_l. lia.
    - pose proof (pow10_pos (N.of_nat k)). nia. }
  assert (N.of_nat k < N.size (c * 10 ^ N.of_nat k))%N.
  { apply (N.pow_lt_mono_r_iff 2); lia. }
  lia.
Qed.

(** Dividing by one changes nothing, for a value of at most 28 digits in
    the exponent range of the context. *)
Lemma div_by_one (s : bool) (c : N) (e : Z) :
  c <> 0%N -> ndigits c <= prec -> Etiny <= e -> adjusted c e <= Emax ->
  div (Fin s c e) (Fin false 1 0) = Ok (Fin s c e).
Proof.
  intros Hc Hnd He Hadj. unfold div. simpl check_nans. cbv iota.
  change (1 =? 0)%N with false. cbv iota.
  destruct (N.eqb_spec c 0); [contradiction|].
  change (ndigits 1) with 1. cbv zeta.
  pose proof (ndigits_pos c) as Hp.
  destruct (Z.leb_spec 0 (1 - ndigits c + prec + 1)); [|unfold prec in *; lia].
  rewrite div_eucl_pair, N.div_1_r, N.mod_1_r. change (0 =? 0)%N with true. cbv iota.
  set (k := Z.to_nat (1 - ndigits c + prec + 1)).
  replace (Z.to_N (1 - ndigits c + prec + 1)) with (N.of_nat k) by lia.
  replace (e - 0 - (1 - ndigits c + prec + 1)) with (e - 0 - Z.of_nat k) by lia.
  rewrite strip_to_ideal_exact by (apply size_above_decades, Hc).
  rewrite xorb_false_r, Z.sub_0_r. apply fix_id; [exact Hnd | exact He|].
  unfold adjusted in Hadj. lia.
Qed.

(** X19: the base currency counts as one unit of itself, and a conversion
    from it or to it is a single operation of the context: a division
    by the unit value of the other currency, or a multiplication by
    it. *)
Theorem conversion_with_the_base_currency (s : bool) (c : N) (e : Z)
    (vs : bool) (vc : N) (ve : Z) :
  c <> 0%N -> vc <> 0%N -> ndigits c <= prec ->
  -900000 <= adjusted c e <= 900000 -> -1000 <= adjusted vc ve <= 1000 ->
  unit_value base_record = Ok (Fin false 1 0)
  /\ convert (Fin false 1 0) (Fin vs vc ve) (Fin s c e) = div (Fin s c e) (Fin vs vc ve)
  /\ convert (Fin vs vc ve) (Fin false 1 0) (Fin s c e) = mul (Fin s c e) (Fin vs vc ve).
Proof.
  intros Hc Hvc Hnd Hadj Hvadj. split; [vm_compute; reflexivity|]. split.
  - unfold convert, mul. simpl check_nans. cbv iota.
    rewrite xorb_false_r, N.mul_1_r, Z.add_0_r.
    rewrite fix_id; [reflexivity | exact Hnd | |];
      unfold adjusted, Etiny, Emin, Emax, prec in *; lia.
  - unfold convert, mul. simpl check_nans. cbv iota.
    pose proof (ndigits_mul c vc Hc Hvc) as Hm.
    assert (normal (c * vc) (e + ve)) as Hn.
    { split; [lia|]. unfold adjusted, Emin, Emax in *. lia. }
    destruct (fix_normal (xorb s vs) _ _ Hn) as (c' & j & -> & Hc' & Hnd' & Hadj' & _).
    rewrite bind_Ok. apply div_by_one; try assumption;
      unfold adjusted, Etiny, Emin, Emax, prec in *; lia.
Qed.

(** *** Division by a zero rate *)

(** X20: a target currency whose official rate is zero makes the handler
    raise DivisionByZero: the product of the amount and the unit value
    of the source is divided by a zero, and nothing around the
    arithmetic catches it. *)
Theorem zero_rate_raises (rates : table) (cur_from cur_to : string)
    (rec_from rec_to : rate_record) (s0 : bool) (e0 : Z) (s1 : bool) (c1 : N) (e1 : Z)
    (sx : bool) (cx : N) (ex : Z) :
  rates !! cur_from = Some rec_from -> rates !! cur_to = Some rec_to ->
  usable rec_from ->
  Cur_OfficialRate rec_to = Some (Fin s0 0 e0) ->
  Cur_Scale rec_to = Some (Fin s1 c1 e1) -> c1 <> 0%N ->
  cx <> 0%N -> -900000 <= adjusted cx ex <= 900000 ->
  conversion rates cur_from cur_to (Fin sx cx ex) = Raise DivisionByZero.
Proof.
  intros Hf Ht Hu Hrate Hscale Hc1 Hcx Hadj.
  unfold conversion. rewrite Hf, Ht.
  destruct (unit_value_usable rec_from Hu) as (ca & ea & -> & Hca & Hadja).
  rewrite bind_Ok.
  assert (exists e, unit_value rec_to = Ok (Fin (xorb s0 s1) 0 e)) as [e ->].
  { unfold unit_value. rewrite Hrate, Hscale. simpl item. rewrite !bind_Ok.
    unfold div. simpl check_nans. cbv iota.
    destruct (N.eqb_spec c1 0); [contradiction|]. change (0 =? 0)%N with true. cbv iota.
    apply fix_zero. }
  rewrite bind_Ok.
  assert (convert (Fin false ca ea) (Fin (xorb s0 s1) 0 e) (Fin sx cx ex)
          = Raise DivisionByZero) as ->; [|reflexivity].
  unfold convert.
  destruct (mul_normal sx cx ex false ca ea Hcx Hca) as (c & e' & -> & Hc & _).
  - unfold Emin. lia.
  - unfold Emax. lia.
  - rewrite bind_Ok. unfold div. simpl check_nans. cbv iota.
    change (0 =? 0)%N with true. cbv iota.
    destruct (N.eqb_spec c 0); [contradiction | reflexivity].
Qed.

(** *** Requests that are answered *)

(** X21: with two positive unit values, the handler answers a request with
    the three formatted numbers, and raises nothing, whenever the
    amount, the converted amount and the cross rate stay below 10^21:
    here, an amount below 10^21 and unit values whose ratio, times the
    amount, leaves three decimal orders of room for the roundings. *)
Theorem conversion_answers (rates : table) (cur_from cur_to : string)
    (rec_from rec_to : rate_record) (ca : N) (ea : Z) (cb : N) (eb : Z)
    (sx : bool) (cx : N) (ex : Z) :
  rates !! cur_from = Some rec_from -> rates !! cur_to = Some rec_to ->
  unit_value rec_from = Ok (Fin false ca ea) ->
  unit_value rec_to = Ok (Fin false cb eb) ->
  ca <> 0%N -> cb <> 0%N -> cx <> 0%N ->
  -1000 <= adjusted ca ea <= 1000 -> -1000 <= adjusted cb eb <= 1000 ->
  -900000 <= adjusted cx ex <= 20 ->
  adjusted ca ea - adjusted cb eb <= 19 ->
  adjusted cx ex + adjusted ca ea - adjusted cb eb <= 17 ->
  exists a b c,
    conversion rates cur_from cur_to (Fin sx cx ex)
    = Ok (ReplyConverted a cur_from b cur_to c).
Proof.
  intros Hf Ht Hua Hub Hca Hcb Hcx Hadja Hadjb Hadjx Hrate Hres.
  unfold conversion. rewrite Hf, Ht, Hua, Hub, !bind_Ok. unfold convert.
  destruct (mul_normal sx cx ex false ca ea Hcx Hca) as (c1 & e1 & -> & Hc1 & Hadj1 & _).
  { unfold Emin. lia. } { unfold Emax. lia. }
  rewrite bind_Ok.
  destruct (div_normal (xorb sx false) c1 e1 false cb eb Hc1 Hcb)
    as (c2 & e2 & -> & Hc2 & Hadj2 & _).
  { unfold Emin. lia. } { unfold Emax. lia. }
  rewrite bind_Ok.
  destruct (fmt_total sx cx ex) as [a ->]; [unfold adjusted in *; lia|].
  rewrite bind_Ok.
  destruct (fmt_total (xorb (xorb sx false) false) c2 e2) as [b ->];
    [unfold adjusted in *; lia|].
  rewrite bind_Ok.
  destruct (div_normal false ca ea false cb eb Hca Hcb) as (c3 & e3 & -> & Hc3 & Hadj3 & _).
  { unfold Emin. lia. } { unfold Emax. lia. }
  rewrite bind_Ok.
  destruct (fmt_total (xorb false false) c3 e3) as [c ->]; [unfold adjusted in *; lia|].
  rewrite bind_Ok. eauto.
Qed.

(** *** What the formatter shows *)

(** X22: a value below half of 0.000001 in magnitude, zero included, is shown
    as zero. *)
Theorem fmt_below_half_unit (s : bool) (c : N) (e : Z) :
  c = 0%N \/ (e < -6 /\ (2 * c < 10 ^ Z.to_N (- (e + 6)))%N) ->
  fmt (Fin s c e) = Ok (if s then "-0" else "0").
Proof.
  intros [-> | [He Hc]]; [apply fmt_zero|].
  rewrite fmt_finite. cbv zeta.
  assert (fmt_digits s c e = 6) as ->.
  { unfold fmt_digits.
    assert (10 ^ Z.to_N (- (e + 6)) <= 10 ^ Z.to_N (- e))%N by (apply pow10_le; lia).
    destruct (N.leb_spec (10 ^ Z.to_N (- e)) c); [lia|].
    rewrite andb_false_r. reflexivity. }
  assert (half_up c (e + 6) = 0%N) as ->.
  { unfold half_up. destruct (Z.leb_spec 0 (e + 6)); [lia|].
    apply N.div_small. lia. }
  destruct s; vm_compute; reflexivity.
Qed.

Lemma rstrip_zeros (k : nat) : rstrip "0" (digits k 0) = "".
Proof.
  rewrite digits_zero. unfold rstrip.
  induction k as [|k IH]; [reflexivity|].
  rewrite zeros_succ. simpl. rewrite IH. reflexivity.
Qed.

(** X23: a whole amount is shown as its plain numeral, with no point, no
    fraction digits and no exponent, however it was written. *)
Theorem fmt_whole_amount (s : bool) (c : N) (e : Z) :
  0 <= e -> (c * 10 ^ Z.to_N e < 10 ^ 22)%N ->
  fmt (Fin s c e) = Ok ((if s then "-" else "") ++ str_N (c * 10 ^ Z.to_N e)).
Proof.
  intros He Hc. rewrite fmt_finite. cbv zeta.
  set (k := fmt_digits s c e).
  assert (k = 2 \/ k = 6) as Hk by apply fmt_digits_cases.
  assert (half_up c (e + k) = c * 10 ^ Z.to_N e * 10 ^ Z.to_N k)%N as ->.
  { unfold half_up. destruct (Z.leb_spec 0 (e + k)); [|lia].
    rewrite Z2N.inj_add, N.pow_add_r by lia. lia. }
  assert (c * 10 ^ Z.to_N e * 10 ^ Z.to_N k < 10 ^ 28)%N as Hlt.
  { apply N.lt_le_trans with (10 ^ 22 * 10 ^ Z.to_N k)%N.
    - apply N.mul_lt_mono_pos_r; [apply pow10_pos | exact Hc].
    - rewrite <- N.pow_add_r. apply pow10_le. lia. }
  destruct (N.ltb_spec (c * 10 ^ Z.to_N e * 10 ^ Z.to_N k) (10 ^ 28)); [|lia].
  rewrite strip_fixed_point by lia. unfold fmt_text.
  pose proof (pow10_pos (Z.to_N k)) as HT.
  rewrite N.div_mul by lia. rewrite N.Div0.mod_mul.
  rewrite rstrip_zeros, str_app_nil_r. reflexivity.
Qed.

(** *** Amounts that are not numbers *)

Lemma quick_nan (text : string) (sg g : bool) :
  of_string (replace "," "." text) = Ok (NaN sg g) -> quick text = Raise InvalidOperation.
Proof.
  intros H. unfold quick. rewrite H, bind_Ok. destruct g; reflexivity.
Qed.

Lemma quick_infinity (text : string) (sg : bool) :
  of_string (replace "," "." text) = Ok (Inf sg) ->
  quick text = Ok (if sg then Request "RUB" "BYN" (Inf false)
                   else Request "BYN" "RUB" (Inf false)).
Proof.
  intros H. unfold quick. rewrite H, bind_Ok. destruct sg; reflexivity.
Qed.

Lemma convert_infinity (ca : N) (ea : Z) (cb : N) (eb : Z) :
  ca <> 0%N -> cb <> 0%N ->
  convert (Fin false ca ea) (Fin false cb eb) (Inf false) = Ok (Inf false).
Proof.
  intros Ha Hb. unfold convert, mul. simpl check_nans. cbv iota.
  destruct (N.eqb_spec ca 0); [contradiction|]. rewrite bind_Ok. reflexivity.
Qed.

Lemma conversion_infinity (rates : table) (cur_from cur_to : string)
    (rec_from rec_to : rate_record) :
  rates !! cur_from = Some rec_from -> rates !! cur_to = Some rec_to ->
  usable rec_from -> usable rec_to ->
  conversion rates cur_from cur_to (Inf false) = Raise InvalidOperation.
Proof.
  intros Hf Ht Huf Hut. unfold conversion. rewrite Hf, Ht.
  destruct (unit_value_usable rec_from Huf) as (ca & ea & -> & Hca & _).
  destruct (unit_value_usable rec_to Hut) as (cb & eb & -> & Hcb & _).
  rewrite !bind_Ok, (convert_infinity ca ea cb eb Hca Hcb), bind_Ok. reflexivity.
Qed.

Lemma usable_base_record : usable base_record.
Proof.
  unfold usable; simpl. repeat split; try discriminate; vm_compute; discriminate.
Qed.

(** X24: a text that the decimal constructor reads as a NaN is answered as
    out of format: the comparison with zero raises and is caught. *)
Theorem nan_is_out_of_format (text : string) (sg g : bool) :
  of_string (replace "," "." text) = Ok (NaN sg g) -> parse text = Ok Usage.
Proof.
  intros H. unfold parse. rewrite (quick_nan text sg g H). unfold explicit.
  rewrite (bare_number_not_explicit text _ H). reflexivity.
Qed.

(** X25: a text that the decimal constructor reads as an infinity is taken
    as an amount, and the handler then raises InvalidOperation when it
    formats it: with a non-empty table at hand whose record for RUB
    holds a positive rate and scale, nothing is answered. *)
Theorem infinite_amount_raises (message_text : string) (sg : bool)
    (w : world) (s s1 : state) (l : ref) (t : table) (rub : rate_record) :
  of_string (replace "," "." (strip (replace "/convert" "" message_text))) = Ok (Inf sg) ->
  get_rates w s = (Ok (Some l), s1) ->
  heap s1 !! l = Some t -> t !! "RUB" = Some rub -> usable rub ->
  fst (convert_handler message_text w s) = Raise InvalidOperation.
Proof.
  intros Hd Hget Hl Hrub Hu.
  assert (t <> ∅) as Ht by (intros ->; rewrite lookup_empty in Hrub; discriminate).
  assert (strip (replace "/convert" "" message_text) <> "") as Hne.
  { intros E. rewrite E in Hd. vm_compute in Hd. discriminate. }
  assert (<["BYN" := base_record]> t !! "RUB" = Some rub) as Hr
    by (rewrite lookup_insert_ne by discriminate; exact Hrub).
  assert (<["BYN" := base_record]> t !! "BYN" = Some base_record) as Hb
    by apply lookup_insert_eq.
  pose proof (quick_infinity _ sg Hd) as Hq.
  destruct sg.
  - rewrite (convert_handler_lookup message_text "RUB" "BYN" (Inf false) w s s1 l t);
      try assumption; try discriminate.
    + simpl fst. apply (conversion_infinity _ _ _ rub base_record); try assumption.
      apply usable_base_record.
    + unfold parse. rewrite Hq. reflexivity.
  - rewrite (convert_handler_lookup message_text "BYN" "RUB" (Inf false) w s s1 l t);
      try assumption; try discriminate.
    + simpl fst. apply (conversion_infinity _ _ _ base_record rub); try assumption.
      apply usable_base_record.
    + unfold parse. rewrite Hq. reflexivity.
Qed.

End AnswerFacts.

(** ** The same request twice *)

Module AgainFacts.
Import Str Dec Clock Cache Handler CacheFacts HandlerFacts TasksFacts ListingFacts.
Local Open Scope string_scope.

Lemma get_rates_returns_cache (w : world) (s : state) (rates : option ref) :
  fst (get_rates w s) = Ok rates -> rates = cache_data (snd (get_rates w s)).
Proof.
  unfold get_rates. destruct (is_cache_expired (now_check w) s) as [[|]|]; simpl;
    intros H; try discriminate; injection H as <-; reflexivity.
Qed.

Lemma get_rates_raises (w : world) (s : state) (x : exn) :
  fst (get_rates w s) = Raise x ->
  snd (get_rates w s) = s /\ forall now, is_cache_expired now s = Raise x.
Proof.
  unfold get_rates. destruct (is_cache_expired (now_check w) s) as [[|]|y] eqn:E; simpl;
    intros H; try discriminate. injection H as ->. split; [reflexivity|].
  intros now. unfold is_cache_expired in *.
  destruct (negb (truthy (heap s) (cache_data s))); [discriminate|].
  destruct (cache_last_date s) as [last|]; [|exact E].
  destruct (date_gt _ _); [discriminate|].
  destruct (time_gt _ _ && time_lt _ _); discriminate.
Qed.

Lemma fresh_is_truthy (now : datetime) (s : state) :
  is_cache_expired now s = Ok false -> truthy (heap s) (cache_data s) = true.
Proof.
  unfold is_cache_expired. destruct (truthy (heap s) (cache_data s)); [reflexivity|].
  discriminate.
Qed.

Lemma set_item_again (l : ref) (key : string) (v : rate_record) (s : state) :
  set_item l key v (set_item l key v s) = set_item l key v s.
Proof.
  unfold set_item. cbn [heap cache_data cache_last_date fetches]. f_equal.
  rewrite list_alter_alter_eq. apply list_alter_ext; [|reflexivity].
  intros t _. simpl. apply insert_insert_eq.
Qed.

(** X26: the same message once more, while the cache is fresh: the same
    reply, and the cache as the first call left it. *)
Theorem asking_again_changes_nothing (message_text : string) (w w' : world) (s : state) :
  is_cache_expired (now_check w') (snd (convert_handler message_text w s)) = Ok false ->
  convert_handler message_text w' (snd (convert_handler message_text w s))
  = convert_handler message_text w s.
Proof.
  unfold convert_handler.
  destruct (String.eqb _ ""); [reflexivity|].
  destruct (parse _) as [[| |cur_from cur_to amount]|x]; try reflexivity.
  destruct (String.eqb cur_from cur_to); [reflexivity|].
  destruct (get_rates w s) as [[rates|x] s1] eqn:Eg.
  - pose proof (get_rates_returns_cache w s rates) as Hc. rewrite Eg in Hc.
    specialize (Hc eq_refl). simpl in Hc.
    destruct rates as [l|].
    + destruct (truthy (heap s1) (Some l)) eqn:Et.
      * destruct (heap (set_item l "BYN" base_record s1) !! l) as [t|] eqn:El.
        -- cbn [snd]. intros Hfresh.
           unfold get_rates. rewrite Hfresh.
           change (cache_data (set_item l "BYN" base_record s1)) with (cache_data s1).
           rewrite <- Hc.
           pose proof (fresh_is_truthy _ _ Hfresh) as Ht2.
           change (cache_data (set_item l "BYN" base_record s1)) with (cache_data s1) in Ht2.
           rewrite <- Hc in Ht2. rewrite Ht2.
           rewrite set_item_again, El. reflexivity.
        -- cbn [snd]. intros Hfresh. exfalso.
           pose proof (fresh_is_truthy _ _ Hfresh) as Ht2.
           change (cache_data (set_item l "BYN" base_record s1)) with (cache_data s1) in Ht2.
           rewrite <- Hc in Ht2. unfold truthy in Ht2. rewrite El in Ht2. discriminate.
      * cbn [snd]. intros Hfresh. exfalso.
        pose proof (fresh_is_truthy _ _ Hfresh) as Ht2. rewrite <- Hc in Ht2. congruence.
    + cbn [snd]. intros Hfresh. exfalso.
      pose proof (fresh_is_truthy _ _ Hfresh) as Ht2. rewrite <- Hc in Ht2. discriminate.
  - cbn [snd]. intros Hfresh. exfalso.
    pose proof (get_rates_raises w s x) as Hr. rewrite Eg in Hr.
    destruct (Hr eq_refl) as [Hs Hall]. simpl in Hs. subst s1.
    rewrite Hall in Hfresh. discriminate.
Qed.

(** *** The listing after a conversion *)

Lemma listing_raises (t : table) (codes : list string) :
  Forall (λ code, is_Some (t !! code)) codes ->
  Exists (λ code, exists r, t !! code = Some r /\ Cur_Name r = None) codes ->
  listing t codes = Raise (KeyError "Cur_Name").
Proof.
  induction codes as [|code rest IH]; intros Hall Hex; [inversion Hex|].
  inversion Hall as [|? ? [r Hr] Hrest]; subst. simpl. rewrite Hr.
  destruct (Cur_Name r) as [name|] eqn:En; [|reflexivity].
  rewrite IH; [reflexivity | exact Hrest|].
  inversion Hex as [? ? (r' & Hr' & Hn')|]; subst; [congruence | assumption].
Qed.

(** X27: once a request between two codes has found a table, the listing of
    the currencies fails for as long as that table stays fresh: it meets
    the record written for BYN, which has no name. *)
Theorem listing_fails_after_a_conversion (message_text cur_from cur_to : string)
    (amount : Decimal) (w w' : world) (s s1 : state) (l : ref) (t : table) :
  strip (replace "/convert" "" message_text) <> "" ->
  parse (strip (replace "/convert" "" message_text)) = Ok (Request cur_from cur_to amount) ->
  cur_from <> cur_to ->
  get_rates w s = (Ok (Some l), s1) ->
  heap s1 !! l = Some t -> t <> ∅ ->
  is_cache_expired (now_check w') (snd (convert_handler message_text w s)) = Ok false ->
  fst (cmd_currencies w' (snd (convert_handler message_text w s)))
  = Raise (KeyError "Cur_Name").
Proof.
  intros Htext Hparse Hne Hget Hl Ht.
  rewrite (convert_handler_lookup _ _ _ _ _ _ _ _ _ Htext Hparse Hne Hget Hl Ht).
  cbn [snd]. intros Hfresh.
  pose proof (get_rates_returns_cache w s (Some l)) as Hc. rewrite Hget in Hc.
  specialize (Hc eq_refl). simpl in Hc.
  pose proof (heap_set_item l "BYN" base_record s1 t Hl) as Hl2.
  unfold cmd_currencies, get_rates. rewrite Hfresh.
  change (cache_data (set_item l "BYN" base_record s1)) with (cache_data s1).
  rewrite <- Hc.
  rewrite (truthy_lookup _ _ _ Hl2) by (apply insert_non_empty).
  change (deref (set_item l "BYN" base_record s1) (Some l))
    with (heap (set_item l "BYN" base_record s1) !! l).
  rewrite Hl2. cbv iota beta. cbn [fst].
  rewrite listing_raises; [reflexivity| |].
  - apply Forall_forall. intros code Hc'. apply elem_of_sorted_keys, Hc'.
  - apply Exists_exists. exists "BYN". split.
    + apply elem_of_sorted_keys. rewrite lookup_insert_eq. eauto.
    + exists base_record. split; [apply lookup_insert_eq | reflexivity].
Qed.

End AgainFacts.

(** ** Cases *)

Module CacheCases.
Import Clock Cache Handler Tasks Session Pool Sample Cases.
Import CacheFacts CacheExamples HandlerExamples.
Import RefreshFacts SessionFacts DayFacts PoolFacts ListingFacts.
Local Close Scope string_scope.

Lemma build_table_last_wins_witness :
  (<["USD"%string := usd_late]> sample_table) !! "USD"%string
  = last (with_code "USD" [usd; eur; rub; usd_late]).
Proof.
  apply build_table_last_wins. vm_compute. reflexivity.
Defined.

Lemma response_stored_whole_or_not_witness :
  (Forall (λ r, is_Some (Cur_Abbreviation r)) body ->
   exists t, build_table body ∅ = Ok t
             /\ refresh (served (at_ today 10 0)) initial
                = store t (now_store (served (at_ today 10 0))) initial)
  /\ (Exists (λ r, Cur_Abbreviation r = None) body ->
      refresh (served (at_ today 10 0)) initial = initial).
Proof.
  apply (response_stored_whole_or_not (served (at_ today 10 0)) initial body).
  reflexivity.
Defined.

Lemma get_rates_keeps_old_tables_witness :
  heap (snd (get_rates (served (at_ today 11 10)) (fetched (at_ today 10 0)))) !! 0%nat
  = Some sample_table.
Proof.
  apply get_rates_keeps_old_tables. apply heap_fetched.
Defined.

Lemma empty_response_keeps_cache_expired_witness :
  let s1 := snd (get_rates (served_nothing (at_ today 10 0)) initial) in
  cache_last_date s1 = Some (now_store (served_nothing (at_ today 10 0)))
  /\ deref s1 (cache_data s1) = Some ∅
  /\ (forall now, is_cache_expired now s1 = Ok true)
  /\ fetches (snd (get_rates (down (at_ today 10 5)) s1)) = S (fetches s1).
Proof.
  apply (empty_response_keeps_cache_expired (served_nothing (at_ today 10 0))
           (down (at_ today 10 5)) initial); reflexivity.
Defined.

Lemma expired_stays_expired_witness :
  is_cache_expired (at_ today 23 0) (fetched (at_ today 10 0)) = Ok true.
Proof.
  apply (expired_stays_expired (at_ today 11 10) (at_ today 23 0) (at_ today 10 0));
    reflexivity.
Defined.

Lemma fetch_succeeds_body : fetch_succeeds (Response 200 (Some body)).
Proof.
  exists body. eexists. split; [reflexivity|]. split; [vm_compute; reflexivity|].
  intros H. apply (f_equal (λ m : table, m !! "USD"%string)) in H.
  vm_compute in H. discriminate.
Qed.

Lemma served_on_today (h m : Z) : served_on today (served (at_ today h m)).
Proof.
  repeat split; try reflexivity.
  - unfold time_gt, time_compare. simpl. rewrite !Z.compare_refl. reflexivity.
  - apply fetch_succeeds_body.
Qed.

Lemma at_most_two_requests_a_day_witness :
  (fetches (run_calls [served (at_ today 10 0); served (at_ today 11 10);
                       served (at_ today 15 0)] initial) <= fetches initial + 2)%nat.
Proof.
  apply (at_most_two_requests_a_day today).
  repeat constructor; apply served_on_today.
Defined.

Lemma any_schedule_one_request_per_call_witness :
  cache_wf (snd (run [(0, Run (at_ today 9 0)); (1, Run (at_ today 9 0));
                      (1, Resume (Response 200 (Some body)) (at_ today 9 1));
                      (0, Resume NetworkError (at_ today 9 2))]%nat
                     ([Start; Start], initial)))
  /\ (fetches (snd (run [(0, Run (at_ today 9 0)); (1, Run (at_ today 9 0));
                         (1, Resume (Response 200 (Some body)) (at_ today 9 1));
                         (0, Resume NetworkError (at_ today 9 2))]%nat
                        ([Start; Start], initial)))
      <= fetches initial + length [Start; Start])%nat.
Proof.
  apply any_schedule_one_request_per_call. exact I.
Defined.

Lemma sample_table_names (code : string) (r : rate_record) :
  sample_table !! code = Some r -> is_Some (Cur_Name r).
Proof.
  unfold sample_table. intros H.
  repeat (apply lookup_insert_Some in H as [[_ <-] | [_ H]]; [eexists; reflexivity|]).
  rewrite lookup_empty in H. discriminate.
Qed.

Lemma cmd_currencies_lists_every_code_witness :
  exists lines,
    cmd_currencies (down (at_ today 10 30)) (fetched (at_ today 10 0))
    = (Ok (ReplyListing lines), fetched (at_ today 10 0))
    /\ Sorted (λ a b : string, String.leb a b = true) (map fst lines)
    /\ NoDup (map fst lines)
    /\ (forall code name,
          (code, name) ∈ lines
          <-> exists r, sample_table !! code = Some r /\ Cur_Name r = Some name).
Proof.
  apply (cmd_currencies_lists_every_code (down (at_ today 10 30))
           (fetched (at_ today 10 0)) (fetched (at_ today 10 0)) 0%nat sample_table).
  - reflexivity.
  - apply heap_fetched.
  - apply sample_table_not_empty.
  - apply sample_table_names.
Defined.

End CacheCases.

Module GrammarCases.
Import Str Dec Cache Handler Grammar Sample.
Import GrammarFacts.

Lemma REQ_RE_accepts_witness :
  REQ_RE_match (" " ++ "-" ++ "12" ++ ",50" ++ " " ++ "usd" ++ "  " ++ "To" ++ " "
                ++ "EUR" ++ " ")
  = Some ("-" ++ "12" ++ ",50", "usd", "EUR").
Proof.
  apply REQ_RE_accepts; reflexivity.
Defined.

Lemma REQ_RE_accepts_only_witness :
  exists lead sign int frac gap1 gap2 to gap3 trail,
    "100 USD to EUR" = lead ++ sign ++ int ++ frac ++ gap1 ++ "USD" ++ gap2 ++ to
                       ++ gap3 ++ "EUR" ++ trail
    /\ "100" = sign ++ int ++ frac
    /\ blank lead = true /\ sign_part sign = true /\ digits1 int = true
    /\ frac_part frac = true /\ gap gap1 = true /\ code_part "USD" = true
    /\ gap gap2 = true /\ to_part to = true /\ gap gap3 = true
    /\ code_part "EUR" = true /\ blank trail = true.
Proof.
  apply REQ_RE_accepts_only; reflexivity.
Defined.

Lemma parse_never_raises_witness : exists p, parse "one hundred" = Ok p.
Proof.
  apply parse_never_raises. vm_compute. discriminate.
Defined.

Lemma matched_message_is_a_request_witness :
  let text := strip (replace "/convert" "" " 1,50 usd to eur") in
  text <> ""
  /\ exists sign int frac,
       "1,50" = sign ++ int ++ frac
       /\ sign_part sign = true /\ digits1 int = true /\ frac_part frac = true
       /\ parse text
          = Ok (Request (upper "usd") (upper "eur")
                  (Fin (sign =? "-")%string
                       (digits_value 0 (int ++ fraction_digits frac))
                       (- len (fraction_digits frac)))).
Proof.
  apply matched_message_is_a_request.
  - reflexivity.
  - vm_compute. discriminate.
Defined.

Lemma command_word_is_dropped_witness :
  convert_handler ("100 " ++ "/convert" ++ "USD to EUR") (down (at_ today 10 30))
    (fetched (at_ today 10 0))
  = convert_handler ("100 " ++ "USD to EUR") (down (at_ today 10 30))
      (fetched (at_ today 10 0)).
Proof.
  apply command_word_is_dropped. reflexivity.
Defined.

Lemma same_request_same_answer_witness :
  convert_handler "1,5 usd to eur" (down (at_ today 10 30)) (fetched (at_ today 10 0))
  = convert_handler " 1.5  USD TO  Eur " (down (at_ today 10 30))
      (fetched (at_ today 10 0)).
Proof.
  apply (same_request_same_answer _ _ "1,5" "1.5" "usd" "eur" "USD" "Eur"); reflexivity.
Defined.

Lemma bare_amount_is_shorthand_witness :
  convert_handler ("-" ++ "12" ++ ",50") (down (at_ today 10 30)) (fetched (at_ today 10 0))
  = convert_handler ("12" ++ ",50" ++ " RUB to BYN") (down (at_ today 10 30))
      (fetched (at_ today 10 0)).
Proof.
  apply (bare_amount_is_shorthand "-" "12" ",50"); try reflexivity.
  - vm_compute. discriminate.
  - vm_compute. discriminate.
  - intros _. vm_compute. discriminate.
Defined.

End GrammarCases.

Module AnswerCases.
Import Str Dec Cache Handler Spec Real Sign Sample Cases.
Import AnswerFacts.

Lemma usable_usd_record : usable usd.
Proof.
  unfold usable; simpl. repeat split; try discriminate; vm_compute; discriminate.
Qed.

Lemma zero_rate_raises_witness :
  conversion with_halted "USD" "XXX" (Fin false 100 0) = Raise DivisionByZero.
Proof.
  apply (zero_rate_raises with_halted "USD" "XXX" usd halted false 0 false 1 0).
  - reflexivity.
  - reflexivity.
  - apply usable_usd_record.
  - reflexivity.
  - reflexivity.
  - discriminate.
  - discriminate.
  - vm_compute. split; discriminate.
Defined.

Lemma conversion_answers_witness :
  exists a b c,
    conversion sample_table "USD" "EUR" (Fin false 100 0)
    = Ok (ReplyConverted a "USD" b "EUR" c).
Proof.
  apply (conversion_answers sample_table "USD" "EUR" usd eur 32541 (-4) 35012 (-4));
    try reflexivity; try discriminate; vm_compute; try split; discriminate.
Defined.

Lemma conversion_with_the_base_currency_witness :
  unit_value base_record = Ok (Fin false 1 0)
  /\ convert (Fin false 1 0) (Fin false 32541 (-4)) (Fin false 100 0)
     = div (Fin false 100 0) (Fin false 32541 (-4))
  /\ convert (Fin false 32541 (-4)) (Fin false 1 0) (Fin false 100 0)
     = mul (Fin false 100 0) (Fin false 32541 (-4)).
Proof.
  apply conversion_with_the_base_currency;
    try discriminate; vm_compute; try split; discriminate.
Defined.

Lemma fmt_below_half_unit_witness : fmt (Fin false 4 (-7)) = Ok "0".
Proof.
  apply (fmt_below_half_unit false 4 (-7)). right. split; reflexivity.
Defined.

Lemma fmt_whole_amount_witness :
  fmt (Fin false 1 3) = Ok ("" ++ str_N (1 * 10 ^ Z.to_N 3)).
Proof.
  apply (fmt_whole_amount false 1 3); [discriminate | reflexivity].
Defined.

Lemma nan_is_out_of_format_witness : parse "NaN" = Ok Usage.
Proof.
  apply (nan_is_out_of_format "NaN" false false). vm_compute. reflexivity.
Defined.

Lemma usable_rub_record : usable rub.
Proof.
  unfold usable; simpl. repeat split; try discriminate; vm_compute; discriminate.
Qed.

Lemma infinite_amount_raises_witness :
  fst (convert_handler "/convert inf" (down (at_ today 10 30)) (fetched (at_ today 10 0)))
  = Raise InvalidOperation.
Proof.
  apply (infinite_amount_raises "/convert inf" false (down (at_ today 10 30))
           (fetched (at_ today 10 0)) (fetched (at_ today 10 0)) 0%nat sample_table rub).
  - vm_compute. reflexivity.
  - reflexivity.
  - apply HandlerExamples.heap_fetched.
  - reflexivity.
  - apply usable_rub_record.
Defined.

End AnswerCases.

Module AgainCases.
Import Cache Handler Sample.
Import AgainFacts.

Lemma asking_again_changes_nothing_witness :
  convert_handler "1 USD to EUR" (down (at_ today 10 30))
    (snd (convert_handler "1 USD to EUR" (served (at_ today 10 0)) initial))
  = convert_handler "1 USD to EUR" (served (at_ today 10 0)) initial.
Proof.
  apply asking_again_changes_nothing. vm_compute. reflexivity.
Defined.

Lemma listing_fails_after_a_conversion_witness :
  fst (cmd_currencies (down (at_ today 10 30))
         (snd (convert_handler "1 USD to EUR" (served (at_ today 10 0)) initial)))
  = Raise (KeyError "Cur_Name").
Proof.
  apply (listing_fails_after_a_conversion "1 USD to EUR" "USD" "EUR" (Dec.Fin false 1 0)
           (served (at_ today 10 0)) (down (at_ today 10 30)) initial
           (fetched (at_ today 10 0)) 0%nat sample_table).
  - vm_compute. discriminate.
  - vm_compute. reflexivity.
  - discriminate.
  - reflexivity.
  - apply HandlerExamples.heap_fetched.
  - apply HandlerExamples.sample_table_not_empty.
  - vm_compute. reflexivity.
Defined.

End AgainCases.
